(** * MediaVue: media classification, observation store, scan pipeline and
      HLS reconstruction

    A shallow embedding of the JavaScript sources of the extension
    ([utils/media-detector.js], [utils/hls-downloader.js],
    [utils/url-utils.js] and [background.js]) together with the properties
    that the design document states about them.

    Conventions.
    - A JavaScript string is a [string]: a sequence of code units, here the
      8-bit ones (Latin-1).
    - A JavaScript number that the code computes with is a binary64 [float].
    - Host facilities (URL resolution, the network, the tab registry) are
      section variables or explicit arguments: the code calls them, it does not
      define them. *)

From Stdlib Require Import ZArith List String Ascii Bool Lia Floats.
From Stdlib Require Import Numbers.DecimalString.
From stdpp Require Import gmap strings list.

Import ListNotations.
Set Warnings "-clear-no-such-hyp".
#[local] Arguments String.append !_ _ / : simpl nomatch.
Local Open Scope string_scope.
Local Open Scope list_scope.

(* ===================================================================== *)
(** ** JavaScript string primitives                                       *)
(* ===================================================================== *)

Module Js.

(** [s.startsWith(p)] *)
Fixpoint startsWith (s p : string) : bool :=
  match p, s with
  | EmptyString, _ => true
  | String _ _, EmptyString => false
  | String b p', String a s' => Ascii.eqb a b && startsWith s' p'
  end.

(** [s.includes(p)] *)
Fixpoint includes (s p : string) : bool :=
  startsWith s p ||
  match s with
  | EmptyString => false
  | String _ s' => includes s' p
  end.

(** [s.endsWith(p)] *)
Fixpoint endsWith (s p : string) : bool :=
  String.eqb s p ||
  match s with
  | EmptyString => false
  | String _ s' => endsWith s' p
  end.

Definition newline : ascii := Ascii.ascii_of_nat 10.

(** [s.split(sep)] for a one-character separator: the pieces between the
    separators; the empty string splits into one empty piece. *)
Fixpoint split (sep : ascii) (s : string) : list string :=
  match s with
  | EmptyString => [EmptyString]
  | String c s' =>
      if Ascii.eqb c sep then EmptyString :: split sep s'
      else match split sep s' with
           | l :: ls => String c l :: ls
           | [] => [String c EmptyString]
           end
  end.

(** [s.split('\n')] *)
Definition splitLines (s : string) : list string := split newline s.

(** [parts.join(sep)] *)
Fixpoint join (sep : string) (parts : list string) : string :=
  match parts with
  | [] => EmptyString
  | [p] => p
  | p :: ps => p ++ sep ++ join sep ps
  end.

(** White space and line terminators among the 8-bit code units: TAB, LF,
    VT, FF, CR, SP and NBSP. *)
Definition isWhiteSpace (c : ascii) : bool :=
  let n := Ascii.nat_of_ascii c in
  ((9 <=? n)%nat && (n <=? 13)%nat) || (n =? 32)%nat || (n =? 160)%nat.

Fixpoint trimStart (s : string) : string :=
  match s with
  | EmptyString => EmptyString
  | String c s' => if isWhiteSpace c then trimStart s' else s
  end.

Fixpoint trimEnd (s : string) : string :=
  match s with
  | EmptyString => EmptyString
  | String c s' =>
      match trimEnd s' with
      | EmptyString => if isWhiteSpace c then EmptyString else String c EmptyString
      | t => String c t
      end
  end.

(** [s.trim()] *)
Definition trim (s : string) : string := trimEnd (trimStart s).

(** Truthiness of a string value: the empty string is the only falsy one. *)
Definition truthy (s : string) : bool :=
  match s with EmptyString => false | _ => true end.

(** [s.substring(0, n)] *)
Definition substring0 (n : nat) (s : string) : string := String.substring 0 n s.

(** Decimal rendering of an index inside a template literal. *)
Definition showNat (n : nat) : string := NilZero.string_of_uint (Nat.to_uint n).

End Js.

(* ===================================================================== *)
(** ** Regular expressions                                                *)
(* ===================================================================== *)

(** The fragment of the regular expression language that the sources use:
    literals, character classes, alternation, concatenation, the [$]
    assertion (no [m] flag: end of input only) and a greedy [+] over a
    character class.  [matchRe] lists, in backtracking priority order, the
    remainders left by every way the expression can match a prefix of its
    input. *)

Module Regex.

Inductive re : Type :=
| Eps
| Chr (c : ascii)
| Cls (p : ascii -> bool)
| Cat (r1 r2 : re)
| Alt (r1 r2 : re)
| Eos
| PlusCls (p : ascii -> bool).

(** Canonicalisation of a code unit under the [i] flag (without [u]): the
    upper-case mapping, kept only when it is a single code unit and does not
    send a non-ASCII unit to an ASCII one. *)
Definition canon (c : ascii) : ascii :=
  let n := Ascii.nat_of_ascii c in
  if ((97 <=? n)%nat && (n <=? 122)%nat)
     || ((224 <=? n)%nat && (n <=? 254)%nat && negb (n =? 247)%nat)
  then Ascii.ascii_of_nat (n - 32)
  else c.

Definition chrEq (i : bool) (a b : ascii) : bool :=
  if i then Ascii.eqb (canon a) (canon b) else Ascii.eqb a b.

Fixpoint plusRem (p : ascii -> bool) (s : string) : list string :=
  match s with
  | EmptyString => []
  | String c s' => if p c then plusRem p s' ++ [s'] else []
  end.

Fixpoint matchRe (i : bool) (r : re) (s : string) : list string :=
  match r with
  | Eps => [s]
  | Chr c =>
      match s with
      | String a s' => if chrEq i a c then [s'] else []
      | EmptyString => []
      end
  | Cls p =>
      match s with
      | String a s' => if p a then [s'] else []
      | EmptyString => []
      end
  | Cat r1 r2 => flat_map (matchRe i r2) (matchRe i r1 s)
  | Alt r1 r2 => matchRe i r1 s ++ matchRe i r2 s
  | Eos => match s with EmptyString => [EmptyString] | _ => [] end
  | PlusCls p => plusRem p s
  end.

Definition matchesAt (i : bool) (r : re) (s : string) : bool :=
  match matchRe i r s with [] => false | _ => true end.

(** [re.test(s)] for a regular expression without the [g] and [y] flags:
    is there a position of [s] at which the expression matches? *)
Fixpoint test (i : bool) (r : re) (s : string) : bool :=
  matchesAt i r s ||
  match s with
  | EmptyString => false
  | String _ s' => test i r s'
  end.

(** A literal word. *)
Fixpoint lit (w : string) : re :=
  match w with
  | EmptyString => Eps
  | String c w' => Cat (Chr c) (lit w')
  end.

(** [(w1|w2|...)] *)
Fixpoint alts (ws : list string) : re :=
  match ws with
  | [] => Cls (fun _ => false)
  | [w] => lit w
  | w :: ws' => Alt (lit w) (alts ws')
  end.

(** The text consumed between the input [s] and a remainder [rest]. *)
Definition consumed (s rest : string) : string :=
  String.substring 0 (String.length s - String.length rest) s.

(** [s.match(/pre(grp)/)] for a pattern made of a prefix followed by one
    capture group that ends the pattern: the text of the capture group of
    the leftmost match, [None] when there is no match. *)
Fixpoint firstGroup (i : bool) (grp : re) (afterPre : list string) : option string :=
  match afterPre with
  | [] => None
  | s1 :: more =>
      match matchRe i grp s1 with
      | rest :: _ => Some (consumed s1 rest)
      | [] => firstGroup i grp more
      end
  end.

Fixpoint execGroup (i : bool) (pre grp : re) (s : string) : option string :=
  match firstGroup i grp (matchRe i pre s) with
  | Some g => Some g
  | None =>
      match s with
      | EmptyString => None
      | String _ s' => execGroup i pre grp s'
      end
  end.

End Regex.

(* ===================================================================== *)
(** ** utils/media-detector.js                                            *)
(* ===================================================================== *)

Inductive MediaType : Type := video | audio | streaming | subtitle | unknown.

Inductive HlsType : Type := master | media.

Module MediaDetector.
Import Regex.

(** [/\.(e1|e2|...)($|\?)/i] *)
Definition extPattern (exts : list string) : re :=
  Cat (Chr ".") (Cat (alts exts) (Alt Eos (Chr "?"))).

Definition VIDEO_EXTS : list string :=
  ["mp4"; "webm"; "ogv"; "mov"; "avi"; "mkv"; "flv"; "m4v"].
Definition AUDIO_EXTS : list string :=
  ["mp3"; "wav"; "m4a"; "aac"; "ogg"; "opus"; "flac"; "wma"].
Definition STREAMING_EXTS : list string := ["m3u8"; "mpd"].
Definition SUBTITLES_EXTS : list string := ["vtt"; "srt"; "ass"; "ssa"].

Definition VIDEO : re := extPattern VIDEO_EXTS.
Definition AUDIO : re := extPattern AUDIO_EXTS.
Definition STREAMING : re := extPattern STREAMING_EXTS.
Definition SUBTITLES : re := extPattern SUBTITLES_EXTS.

Definition getHlsType (content : string) : option HlsType :=
  if Js.includes content "#EXT-X-STREAM-INF" then Some master
  else if Js.includes content "#EXT-X-TARGETDURATION" then Some media
  else None.

Definition getMediaType (url : string) : MediaType :=
  if test true VIDEO url then video
  else if test true AUDIO url then audio
  else if test true STREAMING url then streaming
  else if test true SUBTITLES url then subtitle
  else unknown.

Definition isMediaUrl (url : string) : bool :=
  match getMediaType url with unknown => false | _ => true end.

(** [isProtectedUrl]; the argument is [None] when the tab object carries no
    [url] property. *)
Definition isProtectedUrl (url : option string) : bool :=
  match url with
  | None => true
  | Some u =>
      if Js.truthy u then
        Js.startsWith u "chrome://" ||
        Js.startsWith u "chrome-extension://" ||
        Js.startsWith u "edge://" ||
        Js.startsWith u "about:" ||
        Js.startsWith u "view-source:"
      else true
  end.

End MediaDetector.


(* ===================================================================== *)
(** ** Numbers                                                            *)
(* ===================================================================== *)

Module JsNumber.

Definition isDigit (c : ascii) : bool :=
  let n := Ascii.nat_of_ascii c in (48 <=? n)%nat && (n <=? 57)%nat.

Definition digitValue (c : ascii) : Z := Z.of_nat (Ascii.nat_of_ascii c) - 48.

(** The longest run of decimal digits that starts [s], and what follows. *)
Fixpoint takeDigits (s : string) : list ascii * string :=
  match s with
  | String c s' =>
      if isDigit c then let '(ds, rest) := takeDigits s' in (c :: ds, rest)
      else ([], s)
  | EmptyString => ([], EmptyString)
  end.

Definition digitsValue (ds : list ascii) : Z :=
  fold_left (fun acc d => 10 * acc + digitValue d)%Z ds 0%Z.

(** The binary64 number nearest to [m / 10^k] (ties to even). *)
Definition decimalToFloat (m : Z) (k : nat) : float :=
  match m with
  | Zpos p =>
      SF2Prim (SFdiv prec emax (S754_finite false p 0)
                               (S754_finite false (Z.to_pos (10 ^ Z.of_nat k)) 0))
  | _ => PrimFloat.zero
  end.

(** [parseFloat(s)] on the unsigned decimal literals without exponent:
    the longest prefix [digits], [digits.digits] or [.digits] of [s];
    [NaN] when [s] starts with none.  (Leading white space, a sign, an
    exponent part and [Infinity] are outside this fragment: the only call
    passes a non-empty string over digits and dots.) *)
Definition parseFloat (s : string) : float :=
  let '(ip, rest) := takeDigits s in
  let fp := match rest with
            | String "." r => fst (takeDigits r)
            | _ => []
            end in
  match ip, fp with
  | [], [] => PrimFloat.nan
  | _, _ => decimalToFloat (digitsValue (ip ++ fp)) (List.length fp)
  end.

End JsNumber.


(* ===================================================================== *)
(** ** Values exchanged with the host                                     *)
(* ===================================================================== *)

(** What a rejected promise or a [throw] carries: an [Error] made by the
    code itself, the [TypeError] of a failed network operation, the
    [TypeError] of a [URL] constructor, or the [AbortError] of an aborted
    signal. *)
Inductive JsError : Type :=
| Error (message : string)
| NetworkFailure
| InvalidUrl
| AbortError.

(** A [Response].  [text] and [arrayBuffer] are the two readings of the body
    ([None]: reading the body rejects); [contentLength] is the header of the
    same name. *)
Record Response : Type := {
  ok : bool;
  contentLength : option string;
  text : option string;
  arrayBuffer : option (list Byte.byte)
}.

(** How a [fetch] settles: rejected by a network failure, rejected because
    its signal was aborted while it was in flight, or resolved. *)
Inductive FetchOutcome : Type :=
| Failed
| Cancelled
| Resolved (r : Response).

(** The parts of [new URL(u)] that the code reads. *)
Record UrlParts : Type := { origin : string; pathname : string }.

Inductive Source : Type := network | dom.

(** An entry of a result list: the properties set by the network listener
    ([timestamp]) or the content script ([tagName]), then those that
    enrichment adds. *)
Record MediaItem : Type := {
  url : string;
  type : MediaType;
  source : Source;
  timestamp : option Z;
  tagName : option string;
  size : option Z;
  hlsType : option HlsType;
  duration : option float;
  suggestedMaster : option string
}.

Definition setSize (v : Z) (it : MediaItem) : MediaItem :=
  {| url := url it; type := type it; source := source it;
     timestamp := timestamp it; tagName := tagName it;
     size := Some v; hlsType := hlsType it; duration := duration it;
     suggestedMaster := suggestedMaster it |}.

Definition setHlsType (v : HlsType) (it : MediaItem) : MediaItem :=
  {| url := url it; type := type it; source := source it;
     timestamp := timestamp it; tagName := tagName it;
     size := size it; hlsType := Some v; duration := duration it;
     suggestedMaster := suggestedMaster it |}.

Definition setDuration (v : float) (it : MediaItem) : MediaItem :=
  {| url := url it; type := type it; source := source it;
     timestamp := timestamp it; tagName := tagName it;
     size := size it; hlsType := hlsType it; duration := Some v;
     suggestedMaster := suggestedMaster it |}.

Definition setSuggestedMaster (v : string) (it : MediaItem) : MediaItem :=
  {| url := url it; type := type it; source := source it;
     timestamp := timestamp it; tagName := tagName it;
     size := size it; hlsType := hlsType it; duration := duration it;
     suggestedMaster := Some v |}.

(* ===================================================================== *)
(** ** utils/url-utils.js                                                 *)
(* ===================================================================== *)

Module UrlUtils.

(** The [filter] callback of [deduplicateMedia], threaded through the list
    together with the [seen] set it updates. *)
Fixpoint filterUnseen (seen : gset string) (medialist : list MediaItem)
  : list MediaItem :=
  match medialist with
  | [] => []
  | item :: rest =>
      if decide (url item ∈ seen) then filterUnseen seen rest
      else item :: filterUnseen ({[url item]} ∪ seen) rest
  end.

Definition deduplicateMedia (medialist : list MediaItem) : list MediaItem :=
  filterUnseen ∅ medialist.

End UrlUtils.

(* ===================================================================== *)
(** ** The search for the first stream of a master playlist               *)
(* ===================================================================== *)

(** The same two nested loops stand in [resolveFirstStreamUrl]
    (background.js) and in step 2 of [downloadHlsStream]
    (hls-downloader.js). *)

Module Playlist.

(** The inner loop: the first line, trimmed, that is neither blank nor
    starts with [#]. *)
Fixpoint firstPath (lines : list string) : option string :=
  match lines with
  | [] => None
  | l :: rest =>
      if Js.truthy (Js.trim l) && negb (Js.startsWith l "#") then Some (Js.trim l)
      else firstPath rest
  end.

(** The outer loop: the path that follows the first [#EXT-X-STREAM-INF]
    line that has one. *)
Fixpoint findStreamPath (lines : list string) : option string :=
  match lines with
  | [] => None
  | l :: rest =>
      if Js.startsWith l "#EXT-X-STREAM-INF" then
        match firstPath rest with
        | Some p => Some p
        | None => findStreamPath rest
        end
      else findStreamPath rest
  end.

End Playlist.

(* ===================================================================== *)
(** ** background.js: the per-tab cache of network observations           *)
(* ===================================================================== *)

Module Background.
Import MediaDetector JsNumber.

(** [tabMediaCache]: a [Map] from tab id to the array of observations. *)
Abbreviation Cache := (gmap Z (list MediaItem)).

(** The [details] of a web request, and the reading of [Date.now()] taken
    when the listener runs. *)
Record Details : Type := { tabId : Z; requestUrl : string }.

(** The [new_media_detected] message. *)
Record Notification : Type := { n_tabId : Z; n_url : string }.

Definition networkItem (u : string) (now : Z) : MediaItem :=
  {| url := u; type := getMediaType u; source := network;
     timestamp := Some now; tagName := None; size := None;
     hlsType := None; duration := None; suggestedMaster := None |}.

(** [cache.some(item => item.url === url)] *)
Definition someUrl (u : string) (cache : list MediaItem) : bool :=
  existsb (fun item => String.eqb (url item) u) cache.

(** [cache.shift()] *)
Definition shift (cache : list MediaItem) : list MediaItem := tl cache.

(** The [onBeforeRequest] listener. *)
Definition onBeforeRequest (details : Details) (now : Z) (tabMediaCache : Cache)
  : Cache * list Notification :=
  if (tabId details <? 0)%Z then (tabMediaCache, [])
  else
    let u := requestUrl details in
    if Js.startsWith u "blob:" then (tabMediaCache, [])
    else if isMediaUrl u then
      let m1 := match tabMediaCache !! tabId details with
                | Some _ => tabMediaCache
                | None => <[tabId details := []]> tabMediaCache
                end in
      let cache := default [] (m1 !! tabId details) in
      if someUrl u cache then (m1, [])
      else
        let pushed := cache ++ [networkItem u now] in
        let kept := if (100 <? List.length pushed)%nat then shift pushed else pushed in
        (<[tabId details := kept]> m1,
         [{| n_tabId := tabId details; n_url := u |}])
    else (tabMediaCache, []).

(** The [tabs.onRemoved] listener. *)
Definition onRemoved (id : Z) (tabMediaCache : Cache) : Cache :=
  delete id tabMediaCache.

(** What the browser delivers to the two listeners. *)
Inductive BrowserEvent : Type :=
| Request (details : Details) (now : Z)
| TabRemoved (id : Z).

Definition handle (tabMediaCache : Cache) (ev : BrowserEvent) : Cache :=
  match ev with
  | Request details now => fst (onBeforeRequest details now tabMediaCache)
  | TabRemoved id => onRemoved id tabMediaCache
  end.

(** The cache after a sequence of events, from the empty [Map] that the
    service worker starts with. *)
Definition cacheAfter (evs : list BrowserEvent) : Cache :=
  fold_left handle evs ∅.

(** [mergeAndDeduplicate]: [addIfUnique] over a list, with the [seenUrls]
    set and the [merged] array it updates. *)
Fixpoint forEachAddIfUnique (items : list MediaItem)
         (st : gset string * list MediaItem) : gset string * list MediaItem :=
  match items with
  | [] => st
  | item :: rest =>
      let '(seenUrls, merged) := st in
      if decide (url item ∈ seenUrls) then forEachAddIfUnique rest st
      else forEachAddIfUnique rest ({[url item]} ∪ seenUrls, merged ++ [item])
  end.

Definition mergeAndDeduplicate (dom network : list MediaItem) : list MediaItem :=
  snd (forEachAddIfUnique network (forEachAddIfUnique dom (∅, []))).

(** [calculateHlsDuration] *)
Definition extinfDigits (c : ascii) : bool :=
  isDigit c || Ascii.eqb c ".".

(** [line.match(/#EXTINF:([\d\.]+)/)], reduced to its capture group. *)
Definition matchExtinf (line : string) : option string :=
  Regex.execGroup false (Regex.lit "#EXTINF:") (Regex.PlusCls extinfDigits) line.

Definition addLineDuration (totalSeconds : float) (line : string) : float :=
  if Js.startsWith line "#EXTINF:" then
    match matchExtinf line with
    | Some g => (totalSeconds + parseFloat g)%float
    | None => totalSeconds
    end
  else totalSeconds.

Definition calculateHlsDuration (manifestContent : string) : float :=
  fold_left addLineDuration (Js.splitLines manifestContent) PrimFloat.zero.

Section Host.

(** [new URL(rel, base).href]; [None] when the constructor throws. *)
Variable resolveUrl : string -> string -> option string.
(** [new URL(u)]; [None] when the constructor throws. *)
Variable parseUrl : string -> option UrlParts.
(** What [fetch(url)] settles with, and what a [HEAD] request that is
    aborted after two seconds settles with. *)
Variable httpGet : string -> FetchOutcome.
Variable httpHead : string -> FetchOutcome.
(** [parseInt(s, 10)]; [None] for [NaN]. *)
Variable parseInt10 : string -> option Z.

Definition resolveFirstStreamUrl (masterUrl masterContent : string) : option string :=
  match Playlist.findStreamPath (Js.splitLines masterContent) with
  | Some streamPath => resolveUrl streamPath masterUrl
  | None => None
  end.

Definition fetchHlsContent (u : string) : option string :=
  match httpGet u with
  | Resolved response =>
      if ok response then
        match text response with
        | Some t => Some (Js.substring0 1024 t)
        | None => None
        end
      else None
  | Failed | Cancelled => None
  end.

(** [parts.pop()] *)
Definition pop (parts : list string) : list string := removelast parts.

Definition suggestMasterUrl (mediaUrl : string) : option string :=
  match parseUrl mediaUrl with
  | Some u =>
      let parts := Js.split "/" (pathname u) in
      let baseDir := Js.join "/" (pop parts) in
      Some (origin u ++ baseDir ++ "/" ++ "master.m3u8")%string
  | None => None
  end.

(** [fetchFileSize]; [null] is [None]. *)
Definition fetchFileSize (u : string) : option Z :=
  match httpHead u with
  | Resolved response =>
      if ok response then
        match contentLength response with
        | Some h => if Js.truthy h then parseInt10 h else None
        | None => None
        end
      else None
  | Failed | Cancelled => None
  end.

(** Step 1 of the [map] callback of [enrichResults]. *)
Definition enrichSize (item : MediaItem) : MediaItem :=
  match type item with
  | video | audio =>
      match fetchFileSize (url item) with
      | Some sz => if (sz =? 0)%Z then item else setSize sz item
      | None => item
      end
  | _ => item
  end.

(** Step 3, the duration of a manifest of known role. *)
Definition detectDuration (item : MediaItem) (content : string) (role : HlsType)
  : float :=
  match role with
  | media => calculateHlsDuration content
  | master =>
      match resolveFirstStreamUrl (url item) content with
      | Some mediaUrl =>
          if Js.truthy mediaUrl then
            match fetchHlsContent mediaUrl with
            | Some mediaContent =>
                if Js.truthy mediaContent then calculateHlsDuration mediaContent
                else PrimFloat.zero
            | None => PrimFloat.zero
            end
          else PrimFloat.zero
      | None => PrimFloat.zero
      end
  end.

(** Steps 2 to 4. *)
Definition enrichHls (item : MediaItem) : MediaItem :=
  match type item with
  | streaming =>
      if Js.includes (url item) ".m3u8" then
        match fetchHlsContent (url item) with
        | Some content =>
            if Js.truthy content then
              match getHlsType content with
              | Some role =>
                  let item1 := setHlsType role item in
                  let d := detectDuration item content role in
                  let item2 := if (0 <? d)%float then setDuration d item1 else item1 in
                  match role with
                  | media =>
                      match suggestMasterUrl (url item) with
                      | Some suggested =>
                          if Js.truthy suggested then setSuggestedMaster suggested item2
                          else item2
                      | None => item2
                      end
                  | master => item2
                  end
              | None => item
              end
            else item
        | None => item
        end
      else item
  | _ => item
  end.

Definition enrichItem (item : MediaItem) : MediaItem :=
  enrichHls (enrichSize item).

(** [enrichResults]: every item is enriched on its own; the order of the
    results is that of the input. *)
Definition enrichResults (results : list MediaItem) : list MediaItem :=
  map enrichItem results.

(** The items of [tabMediaCache] are the very objects that the merged
    list holds, and [enrichResults] assigns to their properties: after a
    scan the cached array holds, at the positions that survived the
    merge, the enriched items.  [seen] is the set of URLs met before the
    position at hand. *)
Fixpoint enrichKept (seen : gset string) (networkResults : list MediaItem)
  : list MediaItem :=
  match networkResults with
  | [] => []
  | item :: rest =>
      if decide (url item ∈ seen) then item :: enrichKept seen rest
      else enrichItem item :: enrichKept ({[url item]} ∪ seen) rest
  end.

(** *** The [scan_page] request *)

Record Message : Type := { action : string; messageTabId : option Z }.

Record Tab : Type := { tabUrl : option string }.

Inductive ScanResponse : Type :=
| ScanFailed (error : string)
| ScanResults (results : list MediaItem).

(** What the handler asks of the browser and of the cache, in order. *)
Inductive HostCall : Type :=
| TabsGet (id : Z)
| ExecuteScript (id : Z)
| TabsSendMessage (id : Z)
| CacheGet (id : Z).

(** [chrome.tabs.get]; [None] when [lastError] is set or no tab comes. *)
Variable tabsGet : Z -> option Tab.
(** [chrome.scripting.executeScript]: does the promise resolve? *)
Variable executeScript : Z -> bool.
(** The answer of the content script to [extract_dom_media]; [None] when
    no answer comes. *)
Variable extractDomMedia : Z -> option (list MediaItem).

(** A tab id is truthy when it is there and is not zero. *)
Definition truthyId (o : option Z) : bool :=
  match o with
  | Some z => negb (z =? 0)%Z
  | None => false
  end.

(** [message.tabId || sender?.tab?.id] *)
Definition requestedTab (message : Message) (senderTabId : option Z) : option Z :=
  if truthyId (messageTabId message) then messageTabId message else senderTabId.

Record ScanRun : Type := {
  response : option ScanResponse;
  cacheAfterScan : Cache;
  calls : list HostCall
}.

(** The [onMessage] listener, from the request to [sendResponse]. *)
Definition onMessage (message : Message) (senderTabId : option Z)
           (tabMediaCache : Cache) : ScanRun :=
  if String.eqb (action message) "scan_page" then
    let chosen := requestedTab message senderTabId in
    match chosen with
    | Some id =>
        if negb (truthyId chosen) then
          {| response := Some (ScanFailed "No tab ID specified");
             cacheAfterScan := tabMediaCache; calls := [] |}
        else
          match tabsGet id with
          | None =>
              {| response := Some (ScanFailed "Unable to access tab information.");
                 cacheAfterScan := tabMediaCache; calls := [TabsGet id] |}
          | Some tab =>
              if isProtectedUrl (tabUrl tab) then
                {| response := Some (ScanFailed
                     "Extension cannot scan protected browser pages (like chrome:// URLs).");
                   cacheAfterScan := tabMediaCache; calls := [TabsGet id] |}
              else if executeScript id then
                let domResults := default [] (extractDomMedia id) in
                let networkResults := default [] (tabMediaCache !! id) in
                let combined := mergeAndDeduplicate domResults networkResults in
                let enriched := enrichResults combined in
                {| response := Some (ScanResults enriched);
                   cacheAfterScan :=
                     match tabMediaCache !! id with
                     | Some cached =>
                         <[id := enrichKept (list_to_set (map url domResults)) cached]>
                           tabMediaCache
                     | None => tabMediaCache
                     end;
                   calls := [TabsGet id; ExecuteScript id; TabsSendMessage id; CacheGet id] |}
              else
                {| response := Some (ScanFailed
                     "Failed to scan page. Extension may not have access to this page.");
                   cacheAfterScan := tabMediaCache;
                   calls := [TabsGet id; ExecuteScript id] |}
          end
    | None =>
        {| response := Some (ScanFailed "No tab ID specified");
           cacheAfterScan := tabMediaCache; calls := [] |}
    end
  else {| response := None; cacheAfterScan := tabMediaCache; calls := [] |}.

End Host.

End Background.


(* ===================================================================== *)
(** ** utils/hls-downloader.js                                            *)
(* ===================================================================== *)

Module HlsDownloader.

(** What a run does that its caller or the page can observe, in order. *)
Inductive Event : Type :=
| EvFetch (u : string)
| EvProgress (current total : nat)
| EvInvalidSegment (line : string)
| EvDownloadError (e : JsError)
| EvSave (download : string) (blob : list Byte.byte).

(** The state that a run threads: [clock] counts the calls of [fetch] made
    so far, [events] is the log. *)
Record World : Type := { clock : nat; events : list Event }.

Definition start : World := {| clock := 0; events := [] |}.

Inductive Outcome (A : Type) : Type :=
| Returned (a : A)
| Threw (e : JsError).
Arguments Returned {A} a.
Arguments Threw {A} e.

Definition M (A : Type) : Type := World -> Outcome A * World.

Definition ret {A} (a : A) : M A := fun w => (Returned a, w).
Definition throw {A} (e : JsError) : M A := fun w => (Threw e, w).
Definition bind {A B} (m : M A) (k : A -> M B) : M B :=
  fun w => match m w with
           | (Returned a, w') => k a w'
           | (Threw e, w') => (Threw e, w')
           end.
Definition tryCatch {A} (m : M A) (handler : JsError -> M A) : M A :=
  fun w => match m w with
           | (Returned a, w') => (Returned a, w')
           | (Threw e, w') => handler e w'
           end.
Definition emit (ev : Event) : M unit :=
  fun w => (Returned tt, {| clock := clock w; events := events w ++ [ev] |}).

Declare Scope js_scope.
Delimit Scope js_scope with js.
Notation "x <- m ;; k" := (bind m (fun x => k))
  (at level 100, m at next level, right associativity) : js_scope.
Notation "m ;;; k" := (bind m (fun _ => k))
  (at level 100, right associativity) : js_scope.
Local Open Scope js_scope.

(** An [AbortSignal] seen from the run: is it aborted when the clock
    shows [t]?  [None] is a call without a signal. *)
Definition Signal : Type := option (nat -> bool).

Section Host.

(** [new URL(rel, base).href]; [None] when the constructor throws. *)
Variable resolveUrl : string -> string -> option string.
(** What the [fetch] that is called when the clock shows [t] settles with,
    left alone by the signal. *)
Variable network : nat -> string -> FetchOutcome.

(** [signal?.aborted], read when the clock shows [t] *)
Definition abortedAt (signal : Signal) (t : nat) : bool :=
  match signal with
  | Some s => s t
  | None => false
  end.

Definition aborted (signal : Signal) : M bool :=
  fun w => (Returned (abortedAt signal (clock w)), w).

(** [await fetch(u, { signal })]: a signal that is aborted at the call
    rejects it at once. *)
Definition fetch (u : string) (signal : Signal) : M Response :=
  fun w =>
    let w' := {| clock := S (clock w); events := events w ++ [EvFetch u] |} in
    if abortedAt signal (clock w) then (Threw AbortError, w')
    else match network (clock w) u with
         | Resolved r => (Returned r, w')
         | Failed => (Threw NetworkFailure, w')
         | Cancelled => (Threw AbortError, w')
         end.

(** [await response.text()] and [await response.arrayBuffer()] *)
Definition readText (r : Response) : M string :=
  match text r with Some t => ret t | None => throw NetworkFailure end.
Definition readArrayBuffer (r : Response) : M (list Byte.byte) :=
  match arrayBuffer r with Some b => ret b | None => throw NetworkFailure end.

(** Step 3, the loop over the lines of the media playlist. *)
Fixpoint extractSegments (lines : list string) (currentUrl : string)
         (segmentUrls : list string) : M (list string) :=
  match lines with
  | [] => ret segmentUrls
  | line :: rest =>
      if Js.truthy (Js.trim line) && negb (Js.startsWith line "#") then
        match resolveUrl (Js.trim line) currentUrl with
        | Some href => extractSegments rest currentUrl (segmentUrls ++ [href])
        | None =>
            emit (EvInvalidSegment line) ;;;
            extractSegments rest currentUrl segmentUrls
        end
      else extractSegments rest currentUrl segmentUrls
  end.

(** The download loop, entered at index [i] with the urls still to
    fetch. *)
Fixpoint fetchSegments (onProgress : bool) (signal : Signal)
         (remaining : list string) (i total : nat)
         (segments : list (list Byte.byte)) : M (list (list Byte.byte)) :=
  match remaining with
  | [] => ret segments
  | u :: rest =>
      a <- aborted signal ;;
      if a : bool then throw (Error "Download aborted")
      else
        (if onProgress then emit (EvProgress i total) else ret tt) ;;;
        segRes <- fetch u signal ;;
        if negb (ok segRes)
        then throw (Error ("Failed to fetch segment " ++ Js.showNat i)%string)
        else
          buffer <- readArrayBuffer segRes ;;
          fetchSegments onProgress signal rest (S i) total (segments ++ [buffer])
  end.

(** Step 2, taken when the manifest is a master playlist: the playlist to
    read the segments from, and its text. *)
Definition followMaster (currentUrl text0 : string) (signal : Signal)
  : M (string * string) :=
  if Js.includes text0 "#EXT-X-STREAM-INF" then
    match Playlist.findStreamPath (Js.splitLines text0) with
    | Some streamPath =>
        match resolveUrl streamPath currentUrl with
        | Some href =>
            response <- fetch href signal ;;
            if negb (ok response) then throw (Error "Failed to fetch media playlist")
            else
              t <- readText response ;;
              ret (href, t)
        | None => throw InvalidUrl
        end
    | None => throw (Error "No streams found in master playlist")
    end
  else ret (currentUrl, text0).

(** Steps 1 and 2: the url of the playlist that lists the segments
    ([currentUrl]) and its text. *)
Definition resolvePlaylist (u : string) (signal : Signal) : M (string * string) :=
  response <- fetch u signal ;;
  if negb (ok response) then throw (Error "Failed to fetch manifest")
  else
    text0 <- readText response ;;
    followMaster u text0 signal.

(** [new Blob(segments)] *)
Definition blobOf (segments : list (list Byte.byte)) : list Byte.byte :=
  concat segments.

Definition downloadName (filename : string) : string :=
  if Js.endsWith filename ".ts" then filename else (filename ++ ".ts")%string.

(** Step 4: join the buffers and hand the blob to the browser as a
    download. *)
Definition joinAndDownload (filename : string) (segments : list (list Byte.byte))
  : M bool :=
  emit (EvSave (downloadName filename) (blobOf segments)) ;;;
  ret true.

(** From the check of the segment list to the end of the [try] block. *)
Definition downloadSegments (filename : string) (onProgress : bool)
           (signal : Signal) (segmentUrls : list string) : M bool :=
  if (List.length segmentUrls =? 0)%nat
  then throw (Error "No segments found in manifest")
  else
    let total := List.length segmentUrls in
    segments <- fetchSegments onProgress signal segmentUrls 0 total [] ;;
    (if onProgress then emit (EvProgress total total) else ret tt) ;;;
    joinAndDownload filename segments.

(** The [catch] block. *)
Definition rethrow (error : JsError) : M bool :=
  emit (EvDownloadError error) ;;; throw error.

(** [downloadHlsStream]; [onProgress] tells whether a callback was
    passed. *)
Definition downloadHlsStream (u filename : string) (onProgress : bool)
           (signal : Signal) : M bool :=
  tryCatch
    (cur <- resolvePlaylist u signal ;;
     segmentUrls <- extractSegments (Js.splitLines (snd cur)) (fst cur) [] ;;
     downloadSegments filename onProgress signal segmentUrls)
    rethrow.

End Host.

End HlsDownloader.

(* ===================================================================== *)
(** ** The properties, in the words of the design document                *)
(* ===================================================================== *)

Module Spec.

(** [p] occurs in [s]. *)
Definition contains (s p : string) : Prop :=
  exists pre rest, s = (pre ++ p ++ rest)%string.

(** Equality of two words up to the case of their letters. *)
Fixpoint canonStr (w : string) : string :=
  match w with
  | EmptyString => EmptyString
  | String c w' => String (Regex.canon c) (canonStr w')
  end.

(** [u] holds a dot, one of the extensions [exts] in any case, and then
    either ends or goes on with a question mark. *)
Definition hasExtension (exts : list string) (u : string) : Prop :=
  exists pre e rest,
    u = (pre ++ "." ++ e ++ rest)%string /\
    (exists x, In x exts /\ canonStr e = canonStr x) /\
    (rest = EmptyString \/ exists r, rest = String "?" r).

(** The URLs of a list of items, as a set. *)
Definition urlsOf (l : list MediaItem) : gset string := list_to_set (map url l).

(** The first occurrence of each distinct URL, in the order of the list. *)
Fixpoint firstOccurrences (l : list MediaItem) : list MediaItem :=
  match l with
  | [] => []
  | x :: rest =>
      x :: List.filter (fun y => negb (String.eqb (url y) (url x)))
                       (firstOccurrences rest)
  end.

(** The last [n] entries of a list, that is its newest ones. *)
Definition lastN {A} (n : nat) (l : list A) : list A :=
  drop (List.length l - n) l.

(** The log of what the listener appended for each tab since the array of
    the tab was made, oldest first: [m] is the cache that the event meets. *)
Definition record (h : gmap Z (list MediaItem)) (m : Background.Cache)
           (ev : Background.BrowserEvent) : gmap Z (list MediaItem) :=
  match ev with
  | Background.Request details now =>
      match snd (Background.onBeforeRequest details now m) with
      | [] => h
      | _ :: _ =>
          <[Background.tabId details :=
              default [] (h !! Background.tabId details)
              ++ [Background.networkItem (Background.requestUrl details) now]]> h
      end
  | Background.TabRemoved id => delete id h
  end.

Fixpoint appendedFrom (m : Background.Cache) (h : gmap Z (list MediaItem))
         (evs : list Background.BrowserEvent) : gmap Z (list MediaItem) :=
  match evs with
  | [] => h
  | ev :: rest => appendedFrom (Background.handle m ev) (record h m ev) rest
  end.

Definition appended (evs : list Background.BrowserEvent) : gmap Z (list MediaItem) :=
  appendedFrom ∅ ∅ evs.

(** The schemes of the pages that the browser protects: its internal
    pages, the pages of extensions, and the view of a page source. *)
Definition protectedPrefixes : list string :=
  ["chrome://"; "chrome-extension://"; "edge://"; "about:"; "view-source:"].

Definition protectedScheme (u : string) : Prop :=
  exists p rest, In p protectedPrefixes /\ u = (p ++ rest)%string.

(** The cache agrees with the log: each array is the newest hundred of
    what was appended. *)
Definition agrees (m : Background.Cache) (h : gmap Z (list MediaItem)) : Prop :=
  forall t, m !! t = lastN 100 <$> h !! t.

(** *** Reconstruction *)

(** A segment reference: a line that is not blank and does not start a
    comment. *)
Definition isSegmentLine (line : string) : bool :=
  Js.truthy (Js.trim line) && negb (Js.startsWith line "#").

(** The segment references that resolve against [currentUrl], resolved, in
    the order of the lines. *)
Definition resolvedSegments (resolveUrl : string -> string -> option string)
           (lines : list string) (currentUrl : string) : list string :=
  flat_map (fun line =>
              if isSegmentLine line then
                match resolveUrl (Js.trim line) currentUrl with
                | Some href => [href]
                | None => []
                end
              else []) lines.

(** The segment references that do not resolve. *)
Definition unresolvedLines (resolveUrl : string -> string -> option string)
           (lines : list string) (currentUrl : string) : list string :=
  List.filter (fun line =>
                 isSegmentLine line &&
                 match resolveUrl (Js.trim line) currentUrl with
                 | Some _ => false
                 | None => true
                 end) lines.

Definition segmentUrlsOf (resolveUrl : string -> string -> option string)
           (manifest currentUrl : string) : list string :=
  resolvedSegments resolveUrl (Js.splitLines manifest) currentUrl.

(** The readings of a log. *)
Definition fetches (evs : list HlsDownloader.Event) : list string :=
  flat_map (fun ev => match ev with HlsDownloader.EvFetch u => [u] | _ => [] end) evs.

Definition saves (evs : list HlsDownloader.Event) : list (string * list Byte.byte) :=
  flat_map (fun ev => match ev with
                      | HlsDownloader.EvSave name blob => [(name, blob)]
                      | _ => []
                      end) evs.

Definition reports (evs : list HlsDownloader.Event) : list (nat * nat) :=
  flat_map (fun ev => match ev with
                      | HlsDownloader.EvProgress k n => [(k, n)]
                      | _ => []
                      end) evs.

(** What the download loop logs over the urls [urls], entered at index [i]:
    for each url the report, if a callback was passed, and then the fetch. *)
Fixpoint loopEvents (onProgress : bool) (i total : nat) (urls : list string)
  : list HlsDownloader.Event :=
  match urls with
  | [] => []
  | u :: rest =>
      (if onProgress then [HlsDownloader.EvProgress i total] else [])
      ++ HlsDownloader.EvFetch u :: loopEvents onProgress (S i) total rest
  end.

(** The fetch of [u] called at clock [t] is not aborted and resolves with
    a response that is [ok]. *)
Definition resolvesOk (network : nat -> string -> FetchOutcome)
           (signal : HlsDownloader.Signal) (t : nat) (u : string) (r : Response) : Prop :=
  HlsDownloader.abortedAt signal t = false /\
  network t u = Resolved r /\ ok r = true.

(** The manifest fetched at clock [t] from [u] reads [manifest]. *)
Definition servesText (network : nat -> string -> FetchOutcome)
           (signal : HlsDownloader.Signal) (t : nat) (u manifest : string) : Prop :=
  exists r, resolvesOk network signal t u r /\ text r = Some manifest.

(** From clock [t] on, the urls [urls], fetched one after the other, come
    with the byte contents [bufs]. *)
Fixpoint served (network : nat -> string -> FetchOutcome)
         (signal : HlsDownloader.Signal) (t : nat) (urls : list string)
         (bufs : list (list Byte.byte)) : Prop :=
  match urls, bufs with
  | [], [] => True
  | u :: urls', b :: bufs' =>
      (exists r, resolvesOk network signal t u r /\ arrayBuffer r = Some b) /\
      served network signal (S t) urls' bufs'
  | _, _ => False
  end.

(** The fetch of [u] called at clock [t] is not aborted and resolves with a
    response that is not [ok]. *)
Definition fetchFails (network : nat -> string -> FetchOutcome)
           (signal : HlsDownloader.Signal) (t : nat) (u : string) : Prop :=
  exists r, HlsDownloader.abortedAt signal t = false /\
            network t u = Resolved r /\ ok r = false.

(** The design document's sentence on progress, read on a log: every
    report [(k, n)] in the log has [k] at least one and comes after the
    fetch of the manifest and at least [k] fetches of segments. *)
Definition reportsFollowSuccess (evs : list HlsDownloader.Event) : Prop :=
  forall pre k n post,
    evs = pre ++ HlsDownloader.EvProgress k n :: post ->
    1 <= k /\ S k <= List.length (fetches pre).

End Spec.

(* ===================================================================== *)
(** ** A host for the examples                                            *)
(* ===================================================================== *)

Module Fixture.
Import Background.

Definition site : string := "https://cdn.example.com".
Definition dir : string := "https://cdn.example.com/v/".

(** Every reference resolves against one directory, but [http://], which
    no URL parser accepts. *)
Definition resolveUrl (rel base : string) : option string :=
  if String.eqb rel "http://" then None else Some (dir ++ rel)%string.

Definition parseUrl (u : string) : option UrlParts :=
  if Js.startsWith u site
  then Some {| origin := site;
               pathname := String.substring (String.length site) (String.length u) u |}
  else None.

Definition nl : string := String Js.newline EmptyString.

Definition textResponse (t : string) : FetchOutcome :=
  Resolved {| ok := true; contentLength := None; text := Some t; arrayBuffer := None |}.

Definition bytesResponse (b : list Byte.byte) : FetchOutcome :=
  Resolved {| ok := true; contentLength := None; text := None; arrayBuffer := Some b |}.

Definition notFound : FetchOutcome :=
  Resolved {| ok := false; contentLength := None; text := Some EmptyString;
              arrayBuffer := Some [] |}.

(** A media playlist of sixty segments of ten seconds each: 600 seconds
    in all, in 1532 characters. *)
Fixpoint segmentLines (n : nat) : list string :=
  match n with
  | O => []
  | S n' => "#EXTINF:10.0," :: "segment.ts" :: segmentLines n'
  end.

Definition longPlaylist : string :=
  Js.join nl ("#EXTM3U" :: "#EXT-X-TARGETDURATION:10" :: segmentLines 60).

Definition longUrl : string := "https://cdn.example.com/v/long.m3u8".

(** The playlist of the design document's example. *)
Definition shortPlaylist : string :=
  Js.join nl ["#EXTM3U"; "#EXT-X-TARGETDURATION:11";
              "#EXTINF:5.0,"; "a.ts"; "#EXTINF:4.5,"; "b.ts"; "#EXTINF:10.333,"; "c.ts"].

Definition shortUrl : string := "https://cdn.example.com/v/short.m3u8".

Definition httpGet (u : string) : FetchOutcome :=
  if String.eqb u longUrl then textResponse longPlaylist
  else if String.eqb u shortUrl then textResponse shortPlaylist
  else notFound.

Definition httpHead (u : string) : FetchOutcome := notFound.

Definition parseInt10 (s : string) : option Z := None.

Definition streamingItem (u : string) : MediaItem :=
  {| url := u; type := streaming; source := network; timestamp := Some 0%Z;
     tagName := None; size := None; hlsType := None; duration := None;
     suggestedMaster := None |}.

(** Tab 7 shows an internal page, every other tab a web page. *)
Definition tabsGet (id : Z) : option Tab :=
  if (id =? 7)%Z then Some {| tabUrl := Some "chrome://extensions/" |}
  else Some {| tabUrl := Some "https://example.com/" |}.

Definition executeScript (id : Z) : bool := true.

Definition extractDomMedia (id : Z) : option (list MediaItem) := Some [].

Definition scanRequest (id : Z) : Message :=
  {| action := "scan_page"; messageTabId := Some id |}.

Definition enrich : MediaItem -> MediaItem :=
  enrichItem resolveUrl parseUrl httpGet httpHead parseInt10.

Definition scan : Message -> option Z -> Cache -> ScanRun :=
  onMessage resolveUrl parseUrl httpGet httpHead parseInt10
            tabsGet executeScript extractDomMedia.

(** *** A network for the reconstruction examples *)

Definition bytesOf (s : string) : list Byte.byte := list_byte_of_string s.

Definition fiveUrl : string := "https://cdn.example.com/v/five.m3u8".
Definition fivePlaylist : string :=
  Js.join nl ["#EXTM3U"; "#EXT-X-TARGETDURATION:10";
              "s0.ts"; "s1.ts"; "s2.ts"; "s3.ts"; "s4.ts"].

Definition brokenUrl : string := "https://cdn.example.com/v/broken.m3u8".
Definition brokenPlaylist : string :=
  Js.join nl ["#EXTM3U"; "a.ts"; "http://"; ""; "b.ts"].

Definition reorderedUrl : string := "https://cdn.example.com/v/reordered.m3u8".
Definition reorderedPlaylist : string :=
  Js.join nl ["#EXTM3U"; "#EXT-X-TARGETDURATION:11";
              "#EXTINF:10.333,"; "c.ts"; "#EXTINF:5.0,"; "a.ts"; "#EXTINF:4.5,"; "b.ts"].

Definition emptyUrl : string := "https://cdn.example.com/v/empty.m3u8".
Definition emptyPlaylist : string := Js.join nl ["#EXTM3U"; "http://"; "   "].

Definition masterUrl : string := "https://cdn.example.com/v/master.m3u8".
Definition masterPlaylist : string :=
  Js.join nl ["#EXTM3U"; "#EXT-X-STREAM-INF:BANDWIDTH=1280000"; "five.m3u8"].

Definition missingUrl : string := "https://cdn.example.com/v/missing.m3u8".
Definition missingPlaylist : string :=
  Js.join nl ["#EXTM3U"; "a.ts"; "gone.bin"; "c.ts"].

(** The contents of the segment [dir/name.ts]: the bytes of its name. *)
Definition contentOf (u : string) : list Byte.byte :=
  bytesOf (String.substring (String.length dir) (String.length u) u).

(** The same answer at every time: the playlists above, the contents of the
    segments, and nothing else. *)
Definition network (t : nat) (u : string) : FetchOutcome :=
  if String.eqb u shortUrl then textResponse shortPlaylist
  else if String.eqb u reorderedUrl then textResponse reorderedPlaylist
  else if String.eqb u fiveUrl then textResponse fivePlaylist
  else if String.eqb u brokenUrl then textResponse brokenPlaylist
  else if String.eqb u emptyUrl then textResponse emptyPlaylist
  else if String.eqb u missingUrl then textResponse missingPlaylist
  else if String.eqb u masterUrl then textResponse masterPlaylist
  else if Js.startsWith u dir && Js.endsWith u ".ts"
  then bytesResponse (contentOf u)
  else notFound.

(** A signal that is aborted once the clock shows [t]. *)
Definition abortsAt (t : nat) : HlsDownloader.Signal := Some (fun now => (t <=? now)%nat).

Definition download (u : string) (onProgress : bool) (signal : HlsDownloader.Signal)
  : HlsDownloader.Outcome bool * HlsDownloader.World :=
  HlsDownloader.downloadHlsStream resolveUrl network u "video" onProgress signal
                                  HlsDownloader.start.

End Fixture.

(* ===================================================================== *)
(** ** Further properties, in words of their own                          *)
(* ===================================================================== *)

Module Props.

(** *** The cache of observations *)

(** The event is about the tab [t]. *)
Definition concerns (t : Z) (ev : Background.BrowserEvent) : bool :=
  match ev with
  | Background.Request details _ => (Background.tabId details =? t)%Z
  | Background.TabRemoved id => (id =? t)%Z
  end.

(** The listener takes the request in: it belongs to a tab, is no [blob:]
    url, classifies as media and is not in the array of its tab yet. *)
Definition admitted (details : Background.Details) (m : Background.Cache) : bool :=
  negb (Background.tabId details <? 0)%Z
  && negb (Js.startsWith (Background.requestUrl details) "blob:")
  && MediaDetector.isMediaUrl (Background.requestUrl details)
  && negb (Background.someUrl (Background.requestUrl details)
                              (default [] (m !! Background.tabId details))).

(** An array after a push, cut back to a hundred entries. *)
Definition bounded (l : list MediaItem) : list MediaItem :=
  if (100 <? List.length l)%nat then Background.shift l else l.

(** An entry as the listener makes it: a media url, not a [blob:] one,
    with the kind that the classifier gives it and the network as source. *)
Definition observed (item : MediaItem) : Prop :=
  MediaDetector.isMediaUrl (url item) = true /\
  Js.startsWith (url item) "blob:" = false /\
  type item <> unknown /\
  exists now, item = Background.networkItem (url item) now.

(** *** Text *)

(** Every character of [s] passes [p]. *)
Fixpoint allChars (p : ascii -> bool) (s : string) : bool :=
  match s with
  | EmptyString => true
  | String c s' => p c && allChars p s'
  end.

(** [s] holds no [c]. *)
Definition lacks (c : ascii) (s : string) : bool :=
  allChars (fun a => negb (Ascii.eqb a c)) s.

(** [s] starts with a character that passes [p]. *)
Definition startsIn (p : ascii -> bool) (s : string) : bool :=
  match s with
  | EmptyString => false
  | String c _ => p c
  end.

(** *** Playlists, line by line *)

(** A line of a media playlist: an [#EXTINF:] tag with the text of its
    seconds and what follows on the line, or any other line. *)
Inductive PlaylistLine : Type :=
| Extinf (seconds rest : string)
| Other (line : string).

Definition render (pl : PlaylistLine) : string :=
  match pl with
  | Extinf seconds rest => ("#EXTINF:" ++ seconds ++ rest)%string
  | Other line => line
  end.

(** The seconds of a tag are digits and dots, at least one, and end where
    the rest of the line begins; another line does not start as a tag does;
    no line holds a line feed. *)
Definition wellFormed (pl : PlaylistLine) : bool :=
  match pl with
  | Extinf seconds rest =>
      Js.truthy seconds && allChars Background.extinfDigits seconds
      && negb (startsIn Background.extinfDigits rest) && lacks Js.newline rest
  | Other line => negb (Js.startsWith line "#EXTINF:") && lacks Js.newline line
  end.

Definition declaredSeconds (pls : list PlaylistLine) : list string :=
  flat_map (fun pl => match pl with Extinf seconds _ => [seconds] | Other _ => [] end) pls.

(** The sum of the declared durations, added up in the order of the
    lines. *)
Definition sumSeconds (seconds : list string) : float :=
  fold_left (fun acc d => (acc + JsNumber.parseFloat d)%float) seconds PrimFloat.zero.

(** The properties that enrichment never assigns to. *)
Definition sameIdentity (a b : MediaItem) : Prop :=
  url a = url b /\ type a = type b /\ source a = source b /\
  timestamp a = timestamp b /\ tagName a = tagName b.

(** The state that every event keeps: keys are tab ids, arrays are not
    empty, hold each url once, and hold entries made by the listener. *)
Definition wellKept (m : Background.Cache) : Prop :=
  forall t l, m !! t = Some l ->
    (0 <= t)%Z /\ l <> [] /\ List.NoDup (map url l) /\ Forall observed l.

(** *** Segment fetches *)

(** What a settled fetch gives the download loop: the bytes of the body,
    when the fetch resolves with a response that is [ok] and whose body can
    be read; nothing when the fetch rejects, the response is not [ok], or
    the reading of the body rejects. *)
Definition delivered (o : FetchOutcome) : option (list Byte.byte) :=
  match o with
  | Resolved r => if ok r then arrayBuffer r else None
  | Failed | Cancelled => None
  end.

End Props.

(* ===================================================================== *)
(** ** More hosts for the examples                                        *)
(* ===================================================================== *)

Module Cases.

(** A network on which nothing can be fetched. *)
Definition offline (u : string) : FetchOutcome := Failed.

Definition dashItem : MediaItem :=
  Fixture.streamingItem "https://cdn.example.com/v/stream.mpd".

(** A master playlist whose first stream is the short playlist of
    [Fixture]. *)
Definition masterUrl : string := "https://cdn.example.com/v/top.m3u8".
Definition masterText : string :=
  Js.join Fixture.nl
    ["#EXTM3U"; "#EXT-X-STREAM-INF:BANDWIDTH=800000"; "short.m3u8";
     "#EXT-X-STREAM-INF:BANDWIDTH=1600000"; "five.m3u8"].

Definition httpGet (u : string) : FetchOutcome :=
  if String.eqb u masterUrl then Fixture.textResponse masterText
  else Fixture.httpGet u.

Definition enrich : MediaItem -> MediaItem :=
  Background.enrichItem Fixture.resolveUrl Fixture.parseUrl httpGet
                        Fixture.httpHead Fixture.parseInt10.

(** A content script that does not answer. *)
Definition noAnswer (id : Z) : option (list MediaItem) := None.

Definition scanWithoutDom : Background.Message -> option Z -> Background.Cache
                            -> Background.ScanRun :=
  Background.onMessage Fixture.resolveUrl Fixture.parseUrl Fixture.httpGet
                       Fixture.httpHead Fixture.parseInt10
                       Fixture.tabsGet Fixture.executeScript noAnswer.

(** Two requests of tab 8, the second of them twice. *)
Definition tabEightEvents : list Background.BrowserEvent :=
  [Background.Request {| Background.tabId := 8;
                         Background.requestUrl := Fixture.shortUrl |} 100;
   Background.Request {| Background.tabId := 8;
                         Background.requestUrl := "https://cdn.example.com/v/clip.mp4" |} 200;
   Background.Request {| Background.tabId := 8;
                         Background.requestUrl := "https://cdn.example.com/v/clip.mp4" |} 300].

(** A playlist whose stream tag is indented, and a network that serves it
    besides what the network of [Fixture] serves. *)
Definition indentedUrl : string := "https://cdn.example.com/v/indented.m3u8".
Definition indentedText : string :=
  Js.join Fixture.nl ["#EXTM3U"; "  #EXT-X-STREAM-INF:BANDWIDTH=800000"; "short.m3u8"].

Definition network (t : nat) (u : string) : FetchOutcome :=
  if String.eqb u indentedUrl then Fixture.textResponse indentedText
  else Fixture.network t u.

Definition download (u : string) (onProgress : bool) (signal : HlsDownloader.Signal)
  : HlsDownloader.Outcome bool * HlsDownloader.World :=
  HlsDownloader.downloadHlsStream Fixture.resolveUrl network u "video" onProgress signal
                                  HlsDownloader.start.

Definition goneUrl : string := "https://cdn.example.com/v/gone.m3u8".

(** The network of [Fixture], but the fetch that is called when the clock
    shows [t0] is in flight when its signal is aborted, and rejects. *)
Definition cancelledDuring (t0 : nat) (t : nat) (u : string) : FetchOutcome :=
  if (t =? t0)%nat then Cancelled else Fixture.network t u.

(** The cancel button, pressed while the fetch called at clock [t0] is in
    flight: that fetch rejects, and the signal reads aborted from then on. *)
Definition cancelDuring (t0 : nat) (u : string) (onProgress : bool)
  : HlsDownloader.Outcome bool * HlsDownloader.World :=
  HlsDownloader.downloadHlsStream Fixture.resolveUrl (cancelledDuring t0) u "video"
                                  onProgress (Fixture.abortsAt (S t0)) HlsDownloader.start.

(** The short playlist of [Fixture], line by line. *)
Definition shortLines : list Props.PlaylistLine :=
  [Props.Other "#EXTM3U"; Props.Other "#EXT-X-TARGETDURATION:11";
   Props.Extinf "5.0" ","; Props.Other "a.ts";
   Props.Extinf "4.5" ","; Props.Other "b.ts";
   Props.Extinf "10.333" ","; Props.Other "c.ts"].

End Cases.

(* ===================================================================== *)
(** ** The content script (content.js)                                    *)
(* ===================================================================== *)

Module ContentScript.
Import Regex.

(** A call [addUniqueMedia(url, type, element)]: the walk over the document
    makes them one after the other, in the order of the document.  [type]
    is the lower-case tag name of a [video] or [audio] element, or
    ['subtitle'], or [null]. *)
Record Call : Type := {
  callUrl : string;
  callType : option MediaType;
  callTag : string
}.

(** [getMediaType] of the content script: the patterns are those of
    media-detector.js, the last answer is [null]. *)
Definition getMediaType (url : string) : option MediaType :=
  if test true MediaDetector.VIDEO url then Some video
  else if test true MediaDetector.AUDIO url then Some audio
  else if test true MediaDetector.STREAMING url then Some streaming
  else if test true MediaDetector.SUBTITLES url then Some subtitle
  else None.

(** The first test of [addUniqueMedia]. *)
Definition refused (url : string) : bool :=
  negb (Js.truthy url) || Js.startsWith url "javascript:"
  || Js.startsWith url "data:" || Js.startsWith url "blob:".

(** [type || getMediaType(absoluteUrl)] *)
Definition detectedType (c : Call) (absoluteUrl : string) : option MediaType :=
  match callType c with
  | Some t => Some t
  | None => getMediaType absoluteUrl
  end.

Definition domItem (absoluteUrl : string) (t : MediaType) (tag : string) : MediaItem :=
  {| url := absoluteUrl; type := t; source := dom;
     timestamp := None; tagName := Some tag; size := None;
     hlsType := None; duration := None; suggestedMaster := None |}.

Section Host.

(** [new URL(u, base).href], [None] when it throws. *)
Variable resolveUrl : string -> string -> option string.
(** [document.baseURI] *)
Variable baseURI : string.

(** [addUniqueMedia], with the [seenUrls] set and the [results] array it
    updates. *)
Definition addUniqueMedia (st : gset string * list MediaItem) (c : Call)
  : gset string * list MediaItem :=
  let '(seenUrls, results) := st in
  if refused (callUrl c) then st
  else
    match resolveUrl (callUrl c) baseURI with
    | Some absoluteUrl =>
        if decide (absoluteUrl ∈ seenUrls) then st
        else
          match detectedType c absoluteUrl with
          | Some t =>
              ({[absoluteUrl]} ∪ seenUrls, results ++ [domItem absoluteUrl t (callTag c)])
          | None => st
          end
    | None => st
    end.

(** [extractMediaFromDOM], on the calls that its walk makes. *)
Definition extractMediaFromDOM (calls : list Call) : list MediaItem :=
  snd (fold_left addUniqueMedia calls (∅, [])).

(** A call that passes every test of [addUniqueMedia] but the one on
    [seenUrls], with the url and the type that it stands for. *)
Definition accepted (c : Call) (absoluteUrl : string) (t : MediaType) : Prop :=
  refused (callUrl c) = false /\
  resolveUrl (callUrl c) baseURI = Some absoluteUrl /\
  detectedType c absoluteUrl = Some t.

End Host.

End ContentScript.

(* ===================================================================== *)
(** ** Facts about the string primitives                                  *)
(* ===================================================================== *)

Section StringFacts.

Lemma startsWith_spec (s p : string) :
  Js.startsWith s p = true <-> exists rest, s = (p ++ rest)%string.
Proof.
  revert s; induction p as [|b p IH]; intros s; simpl.
  - split; [intros _; exists s; reflexivity | destruct s; reflexivity].
  - destruct s as [|a s]; simpl.
    + split; [discriminate | intros [rest H]; discriminate].
    + rewrite andb_true_iff, Ascii.eqb_eq, IH. split.
      * intros [-> [rest ->]]. exists rest. reflexivity.
      * intros [rest H]. injection H as -> ->. split; [reflexivity | eauto].
Qed.

Lemma includes_spec (s p : string) :
  Js.includes s p = true <-> exists pre rest, s = (pre ++ p ++ rest)%string.
Proof.
  induction s as [|a s IH]; cbn [Js.includes].
  - rewrite orb_false_r, startsWith_spec. split.
    + intros [rest H]. exists EmptyString, rest. exact H.
    + intros [pre [rest H]]. destruct pre as [|c pre]; [|discriminate].
      exists rest. exact H.
  - rewrite orb_true_iff, startsWith_spec, IH. split.
    + intros [[rest H] | [pre [rest H]]].
      * exists EmptyString, rest. exact H.
      * exists (String a pre), rest. simpl. rewrite H. reflexivity.
    + intros [pre [rest H]]. destruct pre as [|c pre]; simpl in H.
      * left. exists rest. exact H.
      * right. injection H as -> ->. eauto.
Qed.

End StringFacts.

(* ===================================================================== *)
(** ** Facts about the regular expressions                                *)
(* ===================================================================== *)

Section RegexFacts.
Import Regex Spec.

Lemma matchesAt_true i r s : matchesAt i r s = true <-> matchRe i r s <> [].
Proof.
  unfold matchesAt. destruct (matchRe i r s); split; congruence.
Qed.

Lemma test_spec i r s :
  test i r s = true <->
  exists pre suf, s = (pre ++ suf)%string /\ matchRe i r suf <> [].
Proof.
  induction s as [|a s IH]; cbn [test].
  - rewrite orb_false_r, matchesAt_true. split.
    + intros H. exists EmptyString, EmptyString. split; [reflexivity | exact H].
    + intros [pre [suf [H Hm]]]. destruct pre; [|discriminate].
      simpl in H. subst suf. exact Hm.
  - rewrite orb_true_iff, matchesAt_true, IH. split.
    + intros [H | [pre [suf [-> Hm]]]].
      * exists EmptyString, (String a s). split; [reflexivity | exact H].
      * exists (String a pre), suf. split; [reflexivity | exact Hm].
    + intros [pre [suf [H Hm]]]. destruct pre as [|c pre]; simpl in H.
      * left. subst suf. exact Hm.
      * right. injection H as -> ->. eauto.
Qed.

Lemma chrEq_ci a c : chrEq true a c = true <-> canon a = canon c.
Proof. unfold chrEq. apply Ascii.eqb_eq. Qed.

(** A code unit that canonicalises to the dot or to the question mark is
    that character. *)
Lemma canon_dot a : canon a = canon "." -> a = "."%char.
Proof.
  destruct a as [[] [] [] [] [] [] [] []]; vm_compute; congruence.
Qed.

Lemma canon_question a : canon a = canon "?" -> a = "?"%char.
Proof.
  destruct a as [[] [] [] [] [] [] [] []]; vm_compute; congruence.
Qed.

Lemma matchRe_lit w s rest :
  In rest (matchRe true (lit w) s) <->
  exists e, s = (e ++ rest)%string /\ canonStr e = canonStr w.
Proof.
  revert s; induction w as [|c w IH]; intros s; cbn [lit matchRe].
  - split.
    + intros [<- | []]. exists EmptyString. split; reflexivity.
    + intros [e [-> He]]. destruct e; [left; reflexivity | discriminate].
  - rewrite in_flat_map. split.
    + intros [mid [Hmid Hrest]]. destruct s as [|a s]; [destruct Hmid|].
      destruct (chrEq true a c) eqn:E; [|destruct Hmid].
      destruct Hmid as [<- | []]. apply IH in Hrest as [e [-> He]].
      exists (String a e). split; [reflexivity|].
      cbn [canonStr]. apply chrEq_ci in E. rewrite E, He. reflexivity.
    + intros [e [-> He]]. destruct e as [|a e]; [discriminate|].
      cbn [canonStr] in He. injection He as Ha He.
      exists (e ++ rest)%string. split.
      * cbn [String.append]. apply chrEq_ci in Ha. rewrite Ha. left. reflexivity.
      * apply IH. exists e. split; [reflexivity | exact He].
Qed.

Lemma matchRe_alts ws s rest :
  In rest (matchRe true (alts ws) s) <->
  exists w, In w ws /\ In rest (matchRe true (lit w) s).
Proof.
  induction ws as [|w ws IH].
  - cbn [alts matchRe]. split.
    + destruct s; intros [].
    + intros [w [[] _]].
  - destruct ws as [|w' ws].
    + cbn [alts]. split.
      * intros H. exists w. split; [left; reflexivity | exact H].
      * intros [x [[<- | []] H]]. exact H.
    + change (alts (w :: w' :: ws)) with (Alt (lit w) (alts (w' :: ws))).
      cbn [matchRe]. rewrite in_app_iff, IH. split.
      * intros [H | [x [Hx H]]].
        -- exists w. split; [left; reflexivity | exact H].
        -- exists x. split; [right; exact Hx | exact H].
      * intros [x [[<- | Hx] H]]; [left; exact H | right; eauto].
Qed.

(** What is left after [($|\?)]. *)
Lemma matchRe_end s rest :
  In rest (matchRe true (Alt Eos (Chr "?")) s) <->
  (s = EmptyString /\ rest = EmptyString) \/ s = String "?" rest.
Proof.
  cbn [matchRe]. rewrite in_app_iff. split.
  - intros [H | H].
    + destruct s; [destruct H as [<- | []]; left; split; reflexivity | destruct H].
    + destruct s as [|a s]; [destruct H|].
      destruct (chrEq true a "?") eqn:E; [|destruct H].
      destruct H as [<- | []]. apply chrEq_ci, canon_question in E. subst a.
      right. reflexivity.
  - intros [[-> ->] | ->]; [left; left; reflexivity | right].
    replace (chrEq true "?" "?") with true by reflexivity. left. reflexivity.
Qed.

Lemma matchRe_extPattern exts s :
  matchRe true (MediaDetector.extPattern exts) s <> [] <->
  exists e rest,
    s = ("." ++ e ++ rest)%string /\
    (exists x, In x exts /\ canonStr e = canonStr x) /\
    (rest = EmptyString \/ exists r, rest = String "?" r).
Proof.
  unfold MediaDetector.extPattern. split.
  - intros H.
    destruct (matchRe true (Cat (Chr ".") (Cat (alts exts) (Alt Eos (Chr "?")))) s)
      as [|out outs] eqn:E; [congruence|].
    assert (Hin : In out (matchRe true (Cat (Chr ".") (Cat (alts exts) (Alt Eos (Chr "?")))) s))
      by (rewrite E; left; reflexivity).
    clear E H. cbn [matchRe] in Hin.
    apply in_flat_map in Hin as [s1 [H1 Hin]].
    apply in_flat_map in Hin as [s2 [H2 H3]].
    destruct s as [|a s]; [destruct H1|].
    destruct (chrEq true a ".") eqn:Ea; [|destruct H1].
    destruct H1 as [<- | []]. apply chrEq_ci, canon_dot in Ea. subst a.
    apply matchRe_alts in H2 as [x [Hx H2]].
    apply matchRe_lit in H2 as [e [-> He]].
    exists e, s2. split; [reflexivity|]. split; [eauto|].
    apply (matchRe_end s2 out) in H3 as [[-> _] | ->]; [left; reflexivity | right; eauto].
  - intros [e [rest [-> [[x [Hx He]] Hrest]]]].
    assert (Hin : In (match rest with String _ r => r | EmptyString => EmptyString end)
                     (matchRe true (Cat (Chr ".") (Cat (alts exts) (Alt Eos (Chr "?"))))
                              ("." ++ e ++ rest)%string)).
    { cbn [matchRe]. apply in_flat_map. exists (e ++ rest)%string. split.
      - cbn [String.append]. replace (chrEq true "." ".") with true by reflexivity.
        left. reflexivity.
      - apply in_flat_map. exists rest. split.
        + apply matchRe_alts. exists x. split; [exact Hx|].
          apply matchRe_lit. exists e. split; [reflexivity | exact He].
        + apply (matchRe_end rest). destruct Hrest as [-> | [r ->]];
            [left; split; reflexivity | right; reflexivity]. }
    intros E. rewrite E in Hin. destruct Hin.
Qed.

Lemma test_extPattern exts u :
  test true (MediaDetector.extPattern exts) u = true <-> hasExtension exts u.
Proof.
  rewrite test_spec. unfold hasExtension. split.
  - intros [pre [suf [-> H]]]. apply matchRe_extPattern in H as [e [rest [-> H]]].
    exists pre, e, rest. split; [reflexivity | exact H].
  - intros [pre [e [rest [-> H]]]]. exists pre, ("." ++ e ++ rest)%string.
    split; [reflexivity|]. apply matchRe_extPattern. exists e, rest.
    split; [reflexivity | exact H].
Qed.

End RegexFacts.

(* ===================================================================== *)
(** ** The classifier                                                     *)
(* ===================================================================== *)

Section Classifier.
Import Spec MediaDetector.

(** C6.  [getMediaType] (the design document's [classifyUrl]) is a total
    function of the URL: it yields one kind for every string and raises
    nothing.  It yields [video] exactly for the URLs that hold a dot, a
    video extension in any case and then the end of the string or a question
    mark; [audio] exactly for those that are not video and pass the same
    test with an audio extension; then [streaming], then [subtitle], in
    that priority; and [unknown] exactly when no pattern matches. *)
Theorem getMediaType_priority (u : string) :
  (getMediaType u = video <-> hasExtension VIDEO_EXTS u) /\
  (getMediaType u = audio <->
     ~ hasExtension VIDEO_EXTS u /\ hasExtension AUDIO_EXTS u) /\
  (getMediaType u = streaming <->
     ~ hasExtension VIDEO_EXTS u /\ ~ hasExtension AUDIO_EXTS u /\
     hasExtension STREAMING_EXTS u) /\
  (getMediaType u = subtitle <->
     ~ hasExtension VIDEO_EXTS u /\ ~ hasExtension AUDIO_EXTS u /\
     ~ hasExtension STREAMING_EXTS u /\ hasExtension SUBTITLES_EXTS u) /\
  (getMediaType u = unknown <->
     ~ hasExtension VIDEO_EXTS u /\ ~ hasExtension AUDIO_EXTS u /\
     ~ hasExtension STREAMING_EXTS u /\ ~ hasExtension SUBTITLES_EXTS u).
Proof.
  unfold getMediaType, VIDEO, AUDIO, STREAMING, SUBTITLES.
  rewrite <- !test_extPattern.
  destruct (Regex.test true (extPattern VIDEO_EXTS) u);
    destruct (Regex.test true (extPattern AUDIO_EXTS) u);
    destruct (Regex.test true (extPattern STREAMING_EXTS) u);
    destruct (Regex.test true (extPattern SUBTITLES_EXTS) u);
    repeat split; intros; try discriminate; try reflexivity;
    intuition discriminate.
Qed.

(** C7.  [getHlsType] (the design document's [classifyManifestRole])
    answers [master] exactly when the content holds the master marker
    [#EXT-X-STREAM-INF], whether or not the media marker
    [#EXT-X-TARGETDURATION] is there too; [media] exactly when only the
    media marker is there; and [null] exactly when neither is. *)
Theorem getHlsType_master_wins (content : string) :
  (getHlsType content = Some master <-> contains content "#EXT-X-STREAM-INF") /\
  (getHlsType content = Some media <->
     ~ contains content "#EXT-X-STREAM-INF" /\
     contains content "#EXT-X-TARGETDURATION") /\
  (getHlsType content = None <->
     ~ contains content "#EXT-X-STREAM-INF" /\
     ~ contains content "#EXT-X-TARGETDURATION").
Proof.
  unfold getHlsType, contains. rewrite <- !includes_spec.
  destruct (Js.includes content "#EXT-X-STREAM-INF");
    destruct (Js.includes content "#EXT-X-TARGETDURATION");
    repeat split; intros; try discriminate; try reflexivity;
    intuition discriminate.
Qed.

(** The query string and the case of the letters do not matter, what
    follows the extension does, and video comes before the rest. *)
Example getMediaType_examples :
  getMediaType "https://example.com/a.MP4?token=1" = video /\
  getMediaType "https://example.com/a.mp4x" = unknown /\
  getMediaType "https://example.com/a.mp3.m3u8" = streaming /\
  getMediaType "https://example.com/a.vtt?next=b.mp4" = video /\
  getMediaType "https://example.com/a.srt?next=b.mp3" = audio /\
  getMediaType "https://example.com/index.html" = unknown.
Proof. repeat split; reflexivity. Qed.

End Classifier.

(* ===================================================================== *)
(** ** Merging and deduplication                                          *)
(* ===================================================================== *)

Section Merge.
Import Spec UrlUtils Background.

Lemma filterUnseen_insert (u : string) (l : list MediaItem) (seen : gset string) :
  filterUnseen ({[u]} ∪ seen) l =
  List.filter (fun y => negb (String.eqb (url y) u)) (filterUnseen seen l).
Proof.
  revert seen; induction l as [|item rest IH]; intros seen; [reflexivity|].
  cbn [filterUnseen].
  destruct (decide (url item ∈ seen)) as [Hs | Hs].
  - rewrite decide_True by set_solver. apply IH.
  - destruct (String.eqb (url item) u) eqn:E.
    + apply String.eqb_eq in E. subst u. rewrite decide_True by set_solver.
      cbn [List.filter]. rewrite String.eqb_refl. cbn [negb].
      rewrite <- IH. f_equal. set_solver.
    + assert (url item <> u) by (intros Heq; rewrite Heq, String.eqb_refl in E; discriminate).
      rewrite decide_False by set_solver.
      cbn [List.filter]. rewrite E. cbn [negb]. f_equal.
      rewrite <- IH. f_equal. set_solver.
Qed.

Lemma filterUnseen_app (a b : list MediaItem) (seen : gset string) :
  filterUnseen seen (a ++ b) =
  filterUnseen seen a ++ filterUnseen (urlsOf a ∪ seen) b.
Proof.
  revert seen; induction a as [|item rest IH]; intros seen.
  - cbn. f_equal. unfold urlsOf. set_solver.
  - cbn [app filterUnseen]. destruct (decide (url item ∈ seen)) as [Hs | Hs].
    + rewrite IH. f_equal. f_equal. unfold urlsOf. cbn. set_solver.
    + cbn [app]. f_equal. rewrite IH. f_equal. f_equal. unfold urlsOf. cbn. set_solver.
Qed.

Lemma filterUnseen_seen (l : list MediaItem) (seen : gset string) :
  urlsOf l ⊆ seen -> filterUnseen seen l = [].
Proof.
  induction l as [|item rest IH]; intros H; [reflexivity|].
  cbn [filterUnseen]. unfold urlsOf in *. cbn in H.
  rewrite decide_True by set_solver. apply IH. set_solver.
Qed.

Lemma forEachAddIfUnique_spec (items : list MediaItem) (seen : gset string)
      (merged : list MediaItem) :
  forEachAddIfUnique items (seen, merged) =
  (urlsOf items ∪ seen, merged ++ filterUnseen seen items).
Proof.
  revert seen merged; induction items as [|item rest IH]; intros seen merged.
  - cbn. rewrite app_nil_r. f_equal. unfold urlsOf. set_solver.
  - cbn [forEachAddIfUnique filterUnseen].
    destruct (decide (url item ∈ seen)) as [Hs | Hs].
    + rewrite IH. f_equal. unfold urlsOf. cbn. set_solver.
    + rewrite IH, <- app_assoc. f_equal. unfold urlsOf. cbn. set_solver.
Qed.

Lemma mergeAndDeduplicate_concat (d n : list MediaItem) :
  mergeAndDeduplicate d n = deduplicateMedia (d ++ n).
Proof.
  unfold mergeAndDeduplicate, deduplicateMedia.
  rewrite !forEachAddIfUnique_spec, filterUnseen_app. reflexivity.
Qed.

Lemma deduplicateMedia_firstOccurrences (l : list MediaItem) :
  deduplicateMedia l = firstOccurrences l.
Proof.
  unfold deduplicateMedia. induction l as [|x rest IH]; [reflexivity|].
  cbn [filterUnseen firstOccurrences]. rewrite decide_False by set_solver.
  f_equal. rewrite filterUnseen_insert, IH. reflexivity.
Qed.

Lemma deduplicateMedia_twice (l : list MediaItem) :
  deduplicateMedia (l ++ l) = deduplicateMedia l.
Proof.
  unfold deduplicateMedia. rewrite filterUnseen_app.
  rewrite (filterUnseen_seen l (urlsOf l ∪ ∅)); [apply app_nil_r | set_solver].
Qed.

(** C9.  Merging is idempotent under self-concatenation: the concatenation
    of a list with itself merges to what the list alone merges to, whether
    the two copies come as one list or as the two arguments, and so does
    [deduplicateMedia]; the merged list is that of the first occurrence of
    each distinct URL, in order. *)
Theorem merge_self_concatenation (L : list MediaItem) :
  mergeAndDeduplicate (L ++ L) [] = mergeAndDeduplicate L [] /\
  mergeAndDeduplicate L L = mergeAndDeduplicate L [] /\
  deduplicateMedia (L ++ L) = deduplicateMedia L /\
  mergeAndDeduplicate L [] = firstOccurrences L /\
  deduplicateMedia L = firstOccurrences L.
Proof.
  rewrite !mergeAndDeduplicate_concat, !app_nil_r, deduplicateMedia_twice.
  rewrite deduplicateMedia_firstOccurrences. repeat split; reflexivity.
Qed.

End Merge.

(* ===================================================================== *)
(** ** The observation store                                              *)
(* ===================================================================== *)

Section Store.
Import Spec MediaDetector Background.

Lemma lastN_length {A} (n : nat) (l : list A) : List.length (lastN n l) <= n.
Proof. unfold lastN. rewrite length_drop. lia. Qed.

(** Pushing onto the newest hundred and shifting on overflow keeps the
    newest hundred. *)
Lemma lastN_push (h : list MediaItem) (x : MediaItem) :
  (if (100 <? List.length (lastN 100 h ++ [x]))%nat
   then shift (lastN 100 h ++ [x]) else lastN 100 h ++ [x])
  = lastN 100 (h ++ [x]).
Proof.
  unfold lastN, shift. rewrite !length_app, length_drop. cbn [List.length].
  destruct (Nat.ltb_spec 100 (List.length h - (List.length h - 100) + 1)) as [H | H].
  - rewrite drop_app_le by lia.
    replace (List.length h + 1 - 100) with (List.length h - 100 + 1) by lia.
    destruct (drop (List.length h - 100) h) as [|y ys] eqn:E.
    + apply (f_equal (@List.length _)) in E. rewrite length_drop in E.
      cbn in E. lia.
    + cbn [app tl]. rewrite <- (drop_drop h 1 (List.length h - 100)), E.
      reflexivity.
  - replace (List.length h - 100) with 0 by lia.
    replace (List.length h + 1 - 100) with 0 by lia. reflexivity.
Qed.

Lemma agrees_step (m : Cache) (h : gmap Z (list MediaItem)) (ev : BrowserEvent) :
  agrees m h -> agrees (handle m ev) (record h m ev).
Proof.
  intros Hag t. destruct ev as [details now | id]; cbn [handle record].
  - unfold onBeforeRequest.
    destruct (tabId details <? 0)%Z; [apply Hag|].
    destruct (Js.startsWith (requestUrl details) "blob:"); [apply Hag|].
    destruct (isMediaUrl (requestUrl details)); [|apply Hag].
    pose proof (Hag (tabId details)) as Ht.
    destruct (m !! tabId details) as [cached|] eqn:Em.
    + rewrite Em. cbn [default from_option id].
      destruct (someUrl (requestUrl details) cached); [apply Hag|].
      cbn [fst snd].
      destruct (h !! tabId details) as [hist|] eqn:Eh; [|discriminate].
      cbn in Ht. injection Ht as ->. cbn [default from_option id].
      destruct (decide (t = tabId details)) as [-> | Hne].
      * rewrite !lookup_insert_eq. cbn. f_equal. apply lastN_push.
      * rewrite !lookup_insert_ne by congruence. apply Hag.
    + rewrite lookup_insert_eq. cbn [default from_option id someUrl existsb fst snd].
      destruct (h !! tabId details) as [hist|] eqn:Eh; [discriminate|].
      cbn [default from_option id].
      destruct (decide (t = tabId details)) as [-> | Hne].
      * rewrite !lookup_insert_eq. reflexivity.
      * rewrite !lookup_insert_ne by congruence. apply Hag.
  - unfold onRemoved. destruct (decide (t = id)) as [-> | Hne].
    + rewrite !lookup_delete_eq. reflexivity.
    + rewrite !lookup_delete_ne by congruence. apply Hag.
Qed.

Lemma agrees_run (evs : list BrowserEvent) (m : Cache) (h : gmap Z (list MediaItem)) :
  agrees m h -> agrees (fold_left handle evs m) (appendedFrom m h evs).
Proof.
  revert m h; induction evs as [|ev rest IH]; intros m h Hag; [exact Hag|].
  cbn [fold_left appendedFrom]. apply IH, agrees_step, Hag.
Qed.

(** One request on a full array: the head, the oldest entry, goes and the
    new entry comes last. *)
Lemma overflow_evicts_oldest (m : Cache) (details : Details) (now : Z)
      (oldest : MediaItem) (others : list MediaItem) :
  (0 <= tabId details)%Z ->
  Js.startsWith (requestUrl details) "blob:" = false ->
  isMediaUrl (requestUrl details) = true ->
  m !! tabId details = Some (oldest :: others) ->
  List.length (oldest :: others) = 100 ->
  someUrl (requestUrl details) (oldest :: others) = false ->
  fst (onBeforeRequest details now m) !! tabId details =
  Some (others ++ [networkItem (requestUrl details) now]).
Proof.
  intros Hid Hblob Hmedia Hm Hlen Hnew. unfold onBeforeRequest.
  destruct (Z.ltb_spec (tabId details) 0); [lia|].
  rewrite Hblob, Hmedia, Hm. cbn zeta beta iota. rewrite Hm.
  cbn [default from_option id]. rewrite Hnew.
  cbn [fst]. rewrite lookup_insert_eq, length_app, Hlen. reflexivity.
Qed.

(** C4.  After any sequence of requests and tab closures, the array kept
    for a tab holds at most 100 entries, and it is the newest 100 of the
    entries appended for the tab, in the order of their arrival: what
    overflow evicts is the oldest entry. *)
Theorem store_bounded_fifo (evs : list BrowserEvent) (t : Z) :
  List.length (default [] (cacheAfter evs !! t)) <= 100 /\
  cacheAfter evs !! t = lastN 100 <$> appended evs !! t.
Proof.
  assert (H : cacheAfter evs !! t = lastN 100 <$> appended evs !! t).
  { apply (agrees_run evs ∅ ∅). intros t'. rewrite !lookup_empty. reflexivity. }
  split; [|exact H]. rewrite H.
  destruct (appended evs !! t) as [hist|]; cbn; [apply lastN_length | lia].
Qed.

End Store.

(* ===================================================================== *)
(** ** The scan request                                                   *)
(* ===================================================================== *)

Section ScanRequest.
Import Spec MediaDetector Background.

Variable resolveUrl : string -> string -> option string.
Variable parseUrl : string -> option UrlParts.
Variable httpGet httpHead : string -> FetchOutcome.
Variable parseInt10 : string -> option Z.
Variable tabsGet : Z -> option Tab.
Variable executeScript : Z -> bool.
Variable extractDomMedia : Z -> option (list MediaItem).

Local Abbreviation scan :=
  (onMessage resolveUrl parseUrl httpGet httpHead parseInt10
             tabsGet executeScript extractDomMedia).

Lemma protectedScheme_isProtectedUrl (u : string) :
  protectedScheme u -> isProtectedUrl (Some u) = true.
Proof.
  intros [p [rest [Hp ->]]]. unfold isProtectedUrl.
  destruct (Js.truthy (p ++ rest)); [|reflexivity].
  assert (Hs : Js.startsWith (p ++ rest) p = true)
    by (apply startsWith_spec; eauto).
  unfold protectedPrefixes in Hp. cbn [In] in Hp.
  destruct Hp as [<- | [<- | [<- | [<- | [<- | []]]]]]; rewrite Hs;
    rewrite ?orb_true_r; reflexivity.
Qed.

Lemma requestedTab_truthy (message : Message) (senderTabId : option Z) (id : Z) :
  requestedTab message senderTabId = Some id -> id <> 0%Z ->
  truthyId (requestedTab message senderTabId) = true.
Proof.
  intros -> Hid. cbn. destruct (Z.eqb_spec id 0); [contradiction | reflexivity].
Qed.

(** C5.  A scan request whose tab shows a page under one of the protected
    schemes is answered at once with the error for protected pages: the
    only thing the handler asks for is the tab itself; it neither reads nor
    changes the cache of observations and injects no script. *)
Theorem scan_protected_fails_fast
        (message : Message) (senderTabId : option Z) (tabMediaCache : Cache)
        (id : Z) (tab : Tab) (u : string) :
  action message = "scan_page" ->
  requestedTab message senderTabId = Some id -> id <> 0%Z ->
  tabsGet id = Some tab -> tabUrl tab = Some u -> protectedScheme u ->
  let run := scan message senderTabId tabMediaCache in
  response run = Some (ScanFailed
    "Extension cannot scan protected browser pages (like chrome:// URLs).") /\
  cacheAfterScan run = tabMediaCache /\
  calls run = [TabsGet id] /\
  (forall t, ~ In (CacheGet t) (calls run)) /\
  (forall t, ~ In (ExecuteScript t) (calls run)) /\
  (forall t, ~ In (TabsSendMessage t) (calls run)).
Proof.
  intros Hact Hreq Hid Htab Hurl Hprot run.
  assert (Hrun : run =
    {| response := Some (ScanFailed
         "Extension cannot scan protected browser pages (like chrome:// URLs).");
       cacheAfterScan := tabMediaCache; calls := [TabsGet id] |}).
  { subst run. unfold onMessage.
    rewrite Hact. cbn [String.eqb Ascii.eqb Bool.eqb].
    rewrite (requestedTab_truthy _ _ _ Hreq Hid), Hreq. cbn [negb].
    rewrite Htab, Hurl, (protectedScheme_isProtectedUrl _ Hprot). reflexivity. }
  rewrite Hrun. cbn [response cacheAfterScan calls].
  repeat split; try reflexivity; intros t [H | []]; discriminate.
Qed.

(** A page that is not protected, by contrast, has the script injected and
    the cache read. *)
Lemma scan_open_page_calls
      (message : Message) (senderTabId : option Z) (tabMediaCache : Cache)
      (id : Z) (tab : Tab) :
  action message = "scan_page" ->
  requestedTab message senderTabId = Some id -> id <> 0%Z ->
  tabsGet id = Some tab -> isProtectedUrl (tabUrl tab) = false ->
  executeScript id = true ->
  calls (scan message senderTabId tabMediaCache) =
    [TabsGet id; ExecuteScript id; TabsSendMessage id; CacheGet id].
Proof.
  intros Hact Hreq Hid Htab Hprot Hinj. unfold onMessage.
  rewrite Hact. cbn [String.eqb Ascii.eqb Bool.eqb].
  rewrite (requestedTab_truthy _ _ _ Hreq Hid), Hreq. cbn [negb].
  rewrite Htab, Hprot, Hinj. reflexivity.
Qed.

End ScanRequest.

(** A scan of an open page: the observation that the cache holds for the tab
    comes back enriched, and the cache holds the enriched item too, because
    the merged list and the cache share their objects. *)
Example scan_open_page_enriches_cache :
  let cache : Background.Cache := {[ 8%Z := [Fixture.streamingItem Fixture.shortUrl] ]} in
  let run := Fixture.scan (Fixture.scanRequest 8) None cache in
  Background.response run =
    Some (Background.ScanResults [Fixture.enrich (Fixture.streamingItem Fixture.shortUrl)]) /\
  Background.cacheAfterScan run !! 8%Z =
    Some [Fixture.enrich (Fixture.streamingItem Fixture.shortUrl)] /\
  hlsType (Fixture.enrich (Fixture.streamingItem Fixture.shortUrl)) = Some media /\
  suggestedMaster (Fixture.enrich (Fixture.streamingItem Fixture.shortUrl)) =
    Some "https://cdn.example.com/v/master.m3u8".
Proof. vm_compute. repeat split; reflexivity. Qed.

Lemma scan_protected_fails_fast_witness :
  let run := Fixture.scan (Fixture.scanRequest 7) None ∅ in
  Background.response run = Some (Background.ScanFailed
    "Extension cannot scan protected browser pages (like chrome:// URLs).") /\
  Background.cacheAfterScan run = ∅ /\
  Background.calls run = [Background.TabsGet 7] /\
  (forall t, ~ In (Background.CacheGet t) (Background.calls run)) /\
  (forall t, ~ In (Background.ExecuteScript t) (Background.calls run)) /\
  (forall t, ~ In (Background.TabsSendMessage t) (Background.calls run)).
Proof.
  apply (scan_protected_fails_fast
           Fixture.resolveUrl Fixture.parseUrl Fixture.httpGet Fixture.httpHead
           Fixture.parseInt10 Fixture.tabsGet Fixture.executeScript
           Fixture.extractDomMedia (Fixture.scanRequest 7) None ∅ 7
           {| Background.tabUrl := Some "chrome://extensions/" |}
           "chrome://extensions/").
  - reflexivity.
  - reflexivity.
  - lia.
  - reflexivity.
  - reflexivity.
  - exists "chrome://", "extensions/". split; [left; reflexivity | reflexivity].
Defined.


(* ===================================================================== *)
(** ** Reconstruction of a stream                                         *)
(* ===================================================================== *)

Section Reconstruction.
Import Spec HlsDownloader.

Variable resolveUrl : string -> string -> option string.
Variable network : nat -> string -> FetchOutcome.

Local Abbreviation run := (downloadHlsStream resolveUrl network).

(** *** Readings of a log *)

Lemma fetches_app a b : fetches (a ++ b) = fetches a ++ fetches b.
Proof. apply flat_map_app. Qed.

Lemma saves_app a b : saves (a ++ b) = saves a ++ saves b.
Proof. apply flat_map_app. Qed.

Lemma reports_app a b : reports (a ++ b) = reports a ++ reports b.
Proof. apply flat_map_app. Qed.

Lemma fetches_invalid ls : fetches (map EvInvalidSegment ls) = [].
Proof. induction ls; [reflexivity | exact IHls]. Qed.

Lemma saves_invalid ls : saves (map EvInvalidSegment ls) = [].
Proof. induction ls; [reflexivity | exact IHls]. Qed.

Lemma reports_invalid ls : reports (map EvInvalidSegment ls) = [].
Proof. induction ls; [reflexivity | exact IHls]. Qed.

Lemma fetches_loop op i n urls : fetches (loopEvents op i n urls) = urls.
Proof.
  revert i; induction urls as [|u rest IH]; intros i; [reflexivity|].
  cbn [loopEvents]. rewrite fetches_app. destruct op; cbn; rewrite IH; reflexivity.
Qed.

Lemma saves_loop op i n urls : saves (loopEvents op i n urls) = [].
Proof.
  revert i; induction urls as [|u rest IH]; intros i; [reflexivity|].
  cbn [loopEvents]. rewrite saves_app. destruct op; cbn; rewrite IH; reflexivity.
Qed.

Lemma reports_loop i n urls :
  reports (loopEvents true i n urls) = map (fun k => (k, n)) (seq i (List.length urls)).
Proof.
  revert i; induction urls as [|u rest IH]; intros i; [reflexivity|].
  cbn [loopEvents]. rewrite reports_app. cbn. rewrite IH. reflexivity.
Qed.

Lemma loopEvents_app op i n a b :
  loopEvents op i n (a ++ b) = loopEvents op i n a ++ loopEvents op (i + List.length a) n b.
Proof.
  revert i; induction a as [|u rest IH]; intros i.
  - cbn. rewrite Nat.add_0_r. reflexivity.
  - cbn [app loopEvents List.length]. rewrite IH, <- app_assoc. cbn [app].
    replace (S i + List.length rest) with (i + S (List.length rest)) by lia.
    reflexivity.
Qed.

(** *** The steps *)

Lemma fetch_ok (signal : Signal) (u : string) (r : Response) (w : World) :
  resolvesOk network signal (clock w) u r ->
  fetch network u signal w =
  (Returned r, {| clock := S (clock w); events := events w ++ [EvFetch u] |}).
Proof.
  intros [Ha [Hn _]]. unfold fetch. rewrite Ha, Hn. reflexivity.
Qed.

(** Step 3 never fails: a reference that does not resolve is logged and
    passed over. *)
Lemma extractSegments_spec (lines : list string) (currentUrl : string)
      (acc : list string) (w : World) :
  extractSegments resolveUrl lines currentUrl acc w =
  (Returned (acc ++ resolvedSegments resolveUrl lines currentUrl),
   {| clock := clock w;
      events := events w ++ map EvInvalidSegment (unresolvedLines resolveUrl lines currentUrl) |}).
Proof.
  revert acc w; induction lines as [|line rest IH]; intros acc w.
  - cbn. rewrite !app_nil_r. destruct w; reflexivity.
  - cbn [extractSegments resolvedSegments unresolvedLines flat_map List.filter].
    fold (isSegmentLine line).
    fold (resolvedSegments resolveUrl rest currentUrl).
    fold (unresolvedLines resolveUrl rest currentUrl).
    destruct (isSegmentLine line); cbn [andb].
    + destruct (resolveUrl (Js.trim line) currentUrl) as [href|].
      * rewrite IH, <- app_assoc. reflexivity.
      * unfold bind, emit. rewrite IH. cbn [clock events map app].
        rewrite <- app_assoc. reflexivity.
    + rewrite IH. reflexivity.
Qed.

(** The loop over a run of urls that are all served goes on with what
    remains. *)
Lemma fetchSegments_served (op : bool) (signal : Signal) (total : nat)
      (pre : list string) (bufs : list (list Byte.byte)) (rest : list string)
      (i : nat) (segments : list (list Byte.byte)) (w : World) :
  served network signal (clock w) pre bufs ->
  fetchSegments network op signal (pre ++ rest) i total segments w =
  fetchSegments network op signal rest (i + List.length pre) total (segments ++ bufs)
    {| clock := clock w + List.length pre;
       events := events w ++ loopEvents op i total pre |}.
Proof.
  revert bufs i segments w; induction pre as [|u pre IH]; intros bufs i segments w H.
  - destruct bufs; [|destruct H]. cbn. rewrite !Nat.add_0_r, !app_nil_r.
    destruct w; reflexivity.
  - destruct bufs as [|b bufs]; [destruct H|]. destruct H as [[r [Hr Hb]] Hrest].
    cbn [app fetchSegments]. unfold bind at 1. unfold aborted.
    destruct Hr as [Ha [Hn Hok]]. rewrite Ha.
    assert (Hf : forall w', clock w' = clock w ->
              fetch network u signal w' =
              (Returned r, {| clock := S (clock w'); events := events w' ++ [EvFetch u] |})).
    { intros w' Hw. apply fetch_ok. rewrite Hw. repeat split; assumption. }
    destruct op.
    + unfold bind at 1. unfold emit. cbn [clock events].
      unfold bind at 1. rewrite Hf by reflexivity. cbn [clock events].
      rewrite Hok. cbn [negb]. unfold bind at 1, readArrayBuffer. rewrite Hb.
      unfold ret at 1. rewrite (IH bufs) by exact Hrest.
      cbn [clock events loopEvents List.length app].
      rewrite <- !app_assoc. cbn [app].
      replace (S i + List.length pre) with (i + S (List.length pre)) by lia.
      replace (S (clock w) + List.length pre) with (clock w + S (List.length pre)) by lia.
      reflexivity.
    + unfold bind at 1. unfold ret at 1.
      unfold bind at 1. rewrite Hf by reflexivity. cbn [clock events].
      rewrite Hok. cbn [negb]. unfold bind at 1, readArrayBuffer. rewrite Hb.
      unfold ret at 1. rewrite (IH bufs) by exact Hrest.
      cbn [clock events loopEvents List.length app].
      rewrite <- !app_assoc. cbn [app].
      replace (S i + List.length pre) with (i + S (List.length pre)) by lia.
      replace (S (clock w) + List.length pre) with (clock w + S (List.length pre)) by lia.
      reflexivity.
Qed.


(** Steps 1 and 2 on a media playlist: one fetch. *)
Lemma resolvePlaylist_media (u : string) (signal : Signal) (manifest : string) :
  servesText network signal 0 u manifest ->
  Js.includes manifest "#EXT-X-STREAM-INF" = false ->
  resolvePlaylist resolveUrl network u signal start =
  (Returned (u, manifest), {| clock := 1; events := [EvFetch u] |}).
Proof.
  intros [r [Hr Ht]] Hm. unfold resolvePlaylist.
  unfold bind at 1. rewrite (fetch_ok signal u r start Hr).
  destruct Hr as [_ [_ Hok]]. rewrite Hok. cbn [negb].
  unfold bind at 1, readText. rewrite Ht. unfold ret at 1.
  unfold followMaster. rewrite Hm. reflexivity.
Qed.


(** Steps 1 and 2 report no progress and hand nothing over. *)
Lemma resolvePlaylist_log (u : string) (signal : Signal) (w : World)
      (o : Outcome (string * string)) (w1 : World) :
  resolvePlaylist resolveUrl network u signal w = (o, w1) ->
  saves (events w1) = saves (events w) /\ reports (events w1) = reports (events w).
Proof.
  assert (Hfetch : forall v w0 o0 w0',
            fetch network v signal w0 = (o0, w0') ->
            saves (events w0') = saves (events w0) /\
            reports (events w0') = reports (events w0)).
  { intros v w0 o0 w0'. unfold fetch.
    destruct (abortedAt signal (clock w0)); [|destruct (network (clock w0) v)];
      intros H; injection H as <- <-; cbn [events];
      rewrite saves_app, reports_app; cbn; rewrite !app_nil_r; split; reflexivity. }
  unfold resolvePlaylist. unfold bind at 1.
  destruct (fetch network u signal w) as [[r|e] w0] eqn:E0;
    pose proof (Hfetch _ _ _ _ E0) as H0;
    [|intros H; injection H as <- <-; exact H0].
  destruct (ok r); cbn [negb]; [|intros H; injection H as <- <-; exact H0].
  unfold bind at 1, readText.
  destruct (text r) as [t|]; [|intros H; injection H as <- <-; exact H0].
  unfold ret at 1, followMaster.
  destruct (Js.includes t "#EXT-X-STREAM-INF");
    [|intros H; injection H as <- <-; exact H0].
  destruct (Playlist.findStreamPath (Js.splitLines t)) as [path|];
    [|intros H; injection H as <- <-; exact H0].
  destruct (resolveUrl path u) as [href|];
    [|intros H; injection H as <- <-; exact H0].
  unfold bind at 1.
  destruct (fetch network href signal w0) as [[r'|e'] w2] eqn:E1;
    pose proof (Hfetch _ _ _ _ E1) as H1; destruct H0 as [Ha Hb], H1 as [Hc Hd];
    [|intros H; injection H as <- <-; split; congruence].
  destruct (ok r'); cbn [negb]; [|intros H; injection H as <- <-; split; congruence].
  unfold bind at 1, readText.
  destruct (text r'); intros H; injection H as <- <-; split; congruence.
Qed.

(** Once steps 1 and 2 have given the playlist, the run is the download of
    the segments that resolve, inside the [try] block. *)
Lemma resolved_front (u filename : string) (op : bool) (signal : Signal)
      (currentUrl playlist : string) (w1 : World) :
  resolvePlaylist resolveUrl network u signal start = (Returned (currentUrl, playlist), w1) ->
  run u filename op signal start =
  tryCatch (downloadSegments network filename op signal
                             (segmentUrlsOf resolveUrl playlist currentUrl))
           rethrow
           {| clock := clock w1;
              events := events w1 ++
                map EvInvalidSegment
                    (unresolvedLines resolveUrl (Js.splitLines playlist) currentUrl) |}.
Proof.
  intros Hp. unfold downloadHlsStream, tryCatch.
  unfold bind at 1. rewrite Hp. unfold bind at 1. cbn [fst snd].
  rewrite extractSegments_spec. reflexivity.
Qed.

Lemma downloadSegments_success (filename : string) (op : bool) (signal : Signal)
      (segs : list string) (bufs : list (list Byte.byte)) (w : World) :
  segs <> [] ->
  served network signal (clock w) segs bufs ->
  downloadSegments network filename op signal segs w =
  (Returned true,
   {| clock := clock w + List.length segs;
      events := events w ++ loopEvents op 0 (List.length segs) segs
                ++ (if op then [EvProgress (List.length segs) (List.length segs)] else [])
                ++ [EvSave (downloadName filename) (concat bufs)] |}).
Proof.
  intros Hne Hs. unfold downloadSegments.
  destruct segs as [|s0 segs']; [congruence|]. cbn [List.length Nat.eqb].
  set (segs := s0 :: segs') in *. set (n := S (List.length segs')).
  unfold bind at 1.
  rewrite <- (app_nil_r segs) at 1.
  rewrite (fetchSegments_served op signal n segs bufs [] 0 [] w Hs).
  cbn [fetchSegments]. unfold ret at 1.
  unfold bind at 1, joinAndDownload, blobOf.
  destruct op; unfold emit, ret, bind; cbn [clock events app];
    rewrite <- ?app_assoc; reflexivity.
Qed.

Lemma downloadSegments_aborted (filename : string) (op : bool) (signal : Signal)
      (done : list string) (next : string) (later : list string)
      (bufs : list (list Byte.byte)) (w : World) :
  served network signal (clock w) done bufs ->
  abortedAt signal (clock w + List.length done) = true ->
  downloadSegments network filename op signal (done ++ next :: later) w =
  (Threw (Error "Download aborted"),
   {| clock := clock w + List.length done;
      events := events w
                ++ loopEvents op 0 (List.length (done ++ next :: later)) done |}).
Proof.
  intros Hs Ha. unfold downloadSegments.
  destruct (List.length (done ++ next :: later) =? 0)%nat eqn:E.
  { apply Nat.eqb_eq in E. rewrite length_app in E. cbn in E. lia. }
  unfold bind at 1.
  rewrite (fetchSegments_served op signal _ done bufs (next :: later) 0 [] w Hs).
  cbn [fetchSegments]. unfold bind at 1, aborted. cbn [clock]. rewrite Ha.
  reflexivity.
Qed.

Lemma downloadSegments_failed (filename : string) (op : bool) (signal : Signal)
      (done : list string) (failing : string) (later : list string)
      (bufs : list (list Byte.byte)) (w : World) :
  served network signal (clock w) done bufs ->
  fetchFails network signal (clock w + List.length done) failing ->
  downloadSegments network filename op signal (done ++ failing :: later) w =
  (Threw (Error ("Failed to fetch segment " ++ Js.showNat (List.length done))%string),
   {| clock := S (clock w + List.length done);
      events := events w
                ++ loopEvents op 0 (List.length (done ++ failing :: later))
                              (done ++ [failing]) |}).
Proof.
  intros Hs [r [Ha [Hn Hok]]]. unfold downloadSegments.
  destruct (List.length (done ++ failing :: later) =? 0)%nat eqn:E.
  { apply Nat.eqb_eq in E. rewrite length_app in E. cbn in E. lia. }
  unfold bind at 1.
  rewrite (fetchSegments_served op signal _ done bufs (failing :: later) 0 [] w Hs).
  cbn [fetchSegments]. unfold bind at 1, aborted. cbn [clock]. rewrite Ha.
  rewrite loopEvents_app. cbn [loopEvents Nat.add].
  destruct op; unfold bind, emit, ret, fetch; cbn [clock events];
    rewrite Ha, Hn, Hok; cbn [negb]; rewrite <- ?app_assoc; reflexivity.
Qed.

(** A run whose playlist is resolved and whose segments are all served. *)
Lemma download_success (u filename : string) (op : bool) (signal : Signal)
      (currentUrl playlist : string) (w1 : World) (bufs : list (list Byte.byte)) :
  resolvePlaylist resolveUrl network u signal start = (Returned (currentUrl, playlist), w1) ->
  segmentUrlsOf resolveUrl playlist currentUrl <> [] ->
  served network signal (clock w1) (segmentUrlsOf resolveUrl playlist currentUrl) bufs ->
  let segs := segmentUrlsOf resolveUrl playlist currentUrl in
  let n := List.length segs in
  run u filename op signal start =
  (Returned true,
   {| clock := clock w1 + n;
      events := events w1 ++
        map EvInvalidSegment (unresolvedLines resolveUrl (Js.splitLines playlist) currentUrl)
        ++ loopEvents op 0 n segs
        ++ (if op then [EvProgress n n] else [])
        ++ [EvSave (downloadName filename) (concat bufs)] |}).
Proof.
  intros Hp Hne Hs segs n.
  rewrite (resolved_front u filename op signal currentUrl playlist w1 Hp).
  unfold tryCatch. fold segs.
  match goal with
  | |- context [downloadSegments _ _ _ _ _ ?w] =>
      rewrite (downloadSegments_success filename op signal segs bufs w Hne Hs)
  end.
  cbn [clock events]. rewrite <- !app_assoc. reflexivity.
Qed.

Lemma served_static (signal : Signal) (content : string -> list Byte.byte)
      (urls : list string) (t : nat) :
  (forall s t', In s urls ->
     exists r, resolvesOk network signal t' s r /\ arrayBuffer r = Some (content s)) ->
  served network signal t urls (map content urls).
Proof.
  revert t; induction urls as [|s rest IH]; intros t H; [exact I|].
  cbn [map served]. split.
  - apply H. left. reflexivity.
  - apply IH. intros s' t' Hin. apply H. right. exact Hin.
Qed.

(** C1.  A media playlist whose segment references resolve to urls with
    known contents is reconstructed by fetching the manifest and then the
    segments one after the other in the order of the lines; the payload, the
    blob that the run hands over as the download, is the concatenation of the
    contents in that order, and the run returns [true].  As this holds of
    every manifest, a manifest with the same lines in another order gives the
    blocks in that other order. *)
Theorem reconstruction_in_file_order
        (u filename : string) (op : bool) (signal : Signal) (manifest : string)
        (content : string -> list Byte.byte) :
  servesText network signal 0 u manifest ->
  Js.includes manifest "#EXT-X-STREAM-INF" = false ->
  segmentUrlsOf resolveUrl manifest u <> [] ->
  (forall s t, In s (segmentUrlsOf resolveUrl manifest u) ->
     exists r, resolvesOk network signal t s r /\ arrayBuffer r = Some (content s)) ->
  let result := run u filename op signal start in
  fst result = Returned true /\
  fetches (events (snd result)) = u :: segmentUrlsOf resolveUrl manifest u /\
  saves (events (snd result)) =
    [(downloadName filename, concat (map content (segmentUrlsOf resolveUrl manifest u)))].
Proof.
  intros Ht Hm Hne Hc result. subst result.
  rewrite (download_success u filename op signal u manifest _ _
             (resolvePlaylist_media u signal manifest Ht Hm) Hne
             (served_static signal content _ 1 Hc)).
  cbn [fst snd events]. split; [reflexivity|]. split.
  - rewrite !fetches_app, fetches_invalid, fetches_loop.
    destruct op; cbn; rewrite app_nil_r; reflexivity.
  - rewrite !saves_app, saves_invalid, saves_loop. destruct op; reflexivity.
Qed.

(** Going through two runs of lines one after the other resolves the
    segments of the first and then those of the second: the order of the
    urls is the order of the lines. *)
Lemma resolvedSegments_app (a b : list string) (currentUrl : string) :
  resolvedSegments resolveUrl (a ++ b) currentUrl =
  resolvedSegments resolveUrl a currentUrl ++ resolvedSegments resolveUrl b currentUrl.
Proof. apply flat_map_app. Qed.

(** The test of the loop.  In a run that has come to its playlist, when
    the loop reads the signal aborted once the segments [done] have completed
    and others remain, no further fetch is started: the run ends with the
    error [Download aborted], the segments fetched are those of [done], and
    no blob is handed over. *)
Lemma cancellation_read_by_loop
        (u filename : string) (op : bool) (signal : Signal)
        (currentUrl playlist : string) (w1 : World)
        (done : list string) (next : string) (later : list string)
        (bufs : list (list Byte.byte)) :
  resolvePlaylist resolveUrl network u signal start = (Returned (currentUrl, playlist), w1) ->
  segmentUrlsOf resolveUrl playlist currentUrl = done ++ next :: later ->
  served network signal (clock w1) done bufs ->
  abortedAt signal (clock w1 + List.length done) = true ->
  let result := run u filename op signal start in
  fst result = Threw (Error "Download aborted") /\
  fetches (events (snd result)) = fetches (events w1) ++ done /\
  saves (events (snd result)) = [].
Proof.
  intros Hp Hsegs Hs Ha result. subst result.
  rewrite (resolved_front u filename op signal currentUrl playlist w1 Hp), Hsegs.
  unfold tryCatch.
  match goal with
  | |- context [downloadSegments _ _ _ _ _ ?w] =>
      rewrite (downloadSegments_aborted filename op signal done next later bufs w Hs Ha)
  end.
  unfold rethrow, bind, emit, throw. cbn [fst snd clock events].
  split; [reflexivity|].
  pose proof (resolvePlaylist_log u signal start _ _ Hp) as [Hsv _].
  cbn [start events] in Hsv.
  rewrite !fetches_app, !saves_app, fetches_invalid, saves_invalid,
    fetches_loop, saves_loop, Hsv.
  cbn. rewrite !app_nil_r. split; reflexivity.
Qed.

(** The download loop never raises the error of the empty manifest. *)
Lemma fetchSegments_other_error (op : bool) (signal : Signal)
      (remaining : list string) (i total : nat) (segments : list (list Byte.byte))
      (w : World) (e : JsError) :
  fst (fetchSegments network op signal remaining i total segments w) = Threw e ->
  e <> Error "No segments found in manifest".
Proof.
  revert i segments w; induction remaining as [|s rest IH]; intros i segments w.
  - cbn. discriminate.
  - cbn [fetchSegments]. unfold bind at 1, aborted.
    destruct (abortedAt signal (clock w)) eqn:Ha.
    + cbn. intros H. injection H as <-. discriminate.
    + unfold bind at 1.
      destruct ((if op then emit (EvProgress i total) else ret tt) w) as [o w1] eqn:E1.
      assert (Ho : o = Returned tt /\ clock w1 = clock w).
      { destruct op; unfold emit, ret in E1; injection E1 as <- <-; split; reflexivity. }
      destruct Ho as [-> Hc]. unfold bind at 1, fetch. rewrite Hc, Ha.
      destruct (network (clock w) s) as [| |r].
      * cbn. intros H. injection H as <-. discriminate.
      * cbn. intros H. injection H as <-. discriminate.
      * destruct (ok r); cbn [negb].
        -- unfold bind at 1, readArrayBuffer. destruct (arrayBuffer r) as [b|].
           ++ unfold ret at 1. apply IH.
           ++ cbn. intros H. injection H as <-. discriminate.
        -- cbn. intros H. injection H as <-. discriminate.
Qed.

(** C10.  In a run that has come to its playlist, going through the lines
    never fails: a segment reference that does not resolve is logged and
    passed over.  The error of the empty manifest ends the run exactly when
    no line gives a url; and when some do and their fetches succeed, the
    payload is the concatenation of the contents of those urls, in the order
    of the lines. *)
Theorem unresolved_lines_are_skipped
        (u filename : string) (op : bool) (signal : Signal)
        (currentUrl playlist : string) (w1 : World) :
  resolvePlaylist resolveUrl network u signal start = (Returned (currentUrl, playlist), w1) ->
  let segs := segmentUrlsOf resolveUrl playlist currentUrl in
  let result := run u filename op signal start in
  (forall w,
     extractSegments resolveUrl (Js.splitLines playlist) currentUrl [] w =
     (Returned segs,
      {| clock := clock w;
         events := events w ++
           map EvInvalidSegment
               (unresolvedLines resolveUrl (Js.splitLines playlist) currentUrl) |})) /\
  (fst result = Threw (Error "No segments found in manifest") <-> segs = []) /\
  (forall bufs,
     segs <> [] -> served network signal (clock w1) segs bufs ->
     fst result = Returned true /\
     fetches (events (snd result)) = fetches (events w1) ++ segs /\
     saves (events (snd result)) = [(downloadName filename, concat bufs)]).
Proof.
  intros Hp segs result. split; [|split].
  - intros w. rewrite extractSegments_spec. reflexivity.
  - subst result.
    rewrite (resolved_front u filename op signal currentUrl playlist w1 Hp).
    fold segs. unfold tryCatch, downloadSegments. split.
    + intros H. destruct segs as [|s0 segs']; [reflexivity|]. exfalso.
      cbn [List.length Nat.eqb] in H. unfold bind at 1 in H.
      match type of H with
      | context [fetchSegments ?a ?b ?c ?d ?e ?f ?g ?h] =>
          pose proof (fetchSegments_other_error b c d e f g h) as Hother;
          destruct (fetchSegments a b c d e f g h) as [[bs|e0] w2]
      end.
      * destruct op; cbn in H; discriminate.
      * cbn in H. injection H as ->. apply (Hother _ eq_refl). reflexivity.
    + intros ->. reflexivity.
  - intros bufs Hne Hs. subst result segs.
    rewrite (download_success u filename op signal currentUrl playlist w1 bufs Hp Hne Hs).
    cbn [fst snd events]. split; [reflexivity|].
    pose proof (resolvePlaylist_log u signal start _ _ Hp) as [Hsv _].
    cbn [start events] in Hsv.
    rewrite !fetches_app, !saves_app, fetches_invalid, saves_invalid,
      fetches_loop, saves_loop, Hsv.
    destruct op; cbn; rewrite ?app_nil_r; split; reflexivity.
Qed.

End Reconstruction.

(* ===================================================================== *)
(** ** The runs of the examples                                           *)
(* ===================================================================== *)

Lemma reconstruction_in_file_order_witness :
  let result := Fixture.download Fixture.shortUrl false None in
  fst result = HlsDownloader.Returned true /\
  Spec.fetches (HlsDownloader.events (snd result)) =
    Fixture.shortUrl ::
    Spec.segmentUrlsOf Fixture.resolveUrl Fixture.shortPlaylist Fixture.shortUrl /\
  Spec.saves (HlsDownloader.events (snd result)) =
    [(HlsDownloader.downloadName "video",
      concat (map Fixture.contentOf
                  (Spec.segmentUrlsOf Fixture.resolveUrl Fixture.shortPlaylist
                                      Fixture.shortUrl)))].
Proof.
  apply (reconstruction_in_file_order Fixture.resolveUrl Fixture.network
           Fixture.shortUrl "video" false None Fixture.shortPlaylist Fixture.contentOf).
  - eexists. split; [repeat split|]; reflexivity.
  - reflexivity.
  - vm_compute. discriminate.
  - intros s t Hin. vm_compute in Hin.
    destruct Hin as [<- | [<- | [<- | []]]];
      (eexists; split; [repeat split|]; reflexivity).
Defined.

(** The same segments in another order give the same blocks in that other
    order. *)
Example reordered_manifest_reorders_payload :
  Spec.saves (HlsDownloader.events (snd (Fixture.download Fixture.shortUrl false None))) =
    [("video.ts", Fixture.bytesOf "a.ts" ++ Fixture.bytesOf "b.ts" ++ Fixture.bytesOf "c.ts")] /\
  Spec.saves (HlsDownloader.events (snd (Fixture.download Fixture.reorderedUrl false None))) =
    [("video.ts", Fixture.bytesOf "c.ts" ++ Fixture.bytesOf "a.ts" ++ Fixture.bytesOf "b.ts")].
Proof. split; reflexivity. Qed.

(** Cancellation after two of the five segments that a master playlist
    leads to. *)
Example cancellation_read_by_loop_example :
  let result := Fixture.download Fixture.masterUrl true (Fixture.abortsAt 4) in
  fst result = HlsDownloader.Threw (Error "Download aborted") /\
  Spec.fetches (HlsDownloader.events (snd result)) =
    [Fixture.masterUrl; Fixture.fiveUrl]
    ++ ["https://cdn.example.com/v/s0.ts"; "https://cdn.example.com/v/s1.ts"] /\
  Spec.saves (HlsDownloader.events (snd result)) = [].
Proof.
  apply (cancellation_read_by_loop Fixture.resolveUrl Fixture.network
           Fixture.masterUrl "video" true (Fixture.abortsAt 4)
           Fixture.fiveUrl Fixture.fivePlaylist
           {| HlsDownloader.clock := 2;
              HlsDownloader.events :=
                [HlsDownloader.EvFetch Fixture.masterUrl;
                 HlsDownloader.EvFetch Fixture.fiveUrl] |}
           ["https://cdn.example.com/v/s0.ts"; "https://cdn.example.com/v/s1.ts"]
           "https://cdn.example.com/v/s2.ts"
           ["https://cdn.example.com/v/s3.ts"; "https://cdn.example.com/v/s4.ts"]
           [Fixture.bytesOf "s0.ts"; Fixture.bytesOf "s1.ts"]).
  - reflexivity.
  - reflexivity.
  - split; [eexists; split; [repeat split|]; reflexivity|].
    split; [eexists; split; [repeat split|]; reflexivity|]. exact I.
  - reflexivity.
Defined.

(** C8 as the design document words it does not hold: the run over the
    playlist of three segments issues the report [(0, 3)] when nothing but the manifest has
    been fetched. *)
Lemma progress_reported_before_first_fetch :
  ~ Spec.reportsFollowSuccess
      (HlsDownloader.events (snd (Fixture.download Fixture.shortUrl true None))).
Proof.
  intros H.
  destruct (H [HlsDownloader.EvFetch Fixture.shortUrl] 0 3
              [HlsDownloader.EvFetch "https://cdn.example.com/v/a.ts";
               HlsDownloader.EvProgress 1 3;
               HlsDownloader.EvFetch "https://cdn.example.com/v/b.ts";
               HlsDownloader.EvProgress 2 3;
               HlsDownloader.EvFetch "https://cdn.example.com/v/c.ts";
               HlsDownloader.EvProgress 3 3;
               HlsDownloader.EvSave "video.ts"
                 (Fixture.bytesOf "a.ts" ++ Fixture.bytesOf "b.ts" ++ Fixture.bytesOf "c.ts")]
              eq_refl) as [Hk _].
  lia.
Qed.

Lemma unresolved_lines_are_skipped_witness :
  let segs := Spec.segmentUrlsOf Fixture.resolveUrl Fixture.brokenPlaylist Fixture.brokenUrl in
  let result := Fixture.download Fixture.brokenUrl false None in
  (forall w,
     HlsDownloader.extractSegments Fixture.resolveUrl
       (Js.splitLines Fixture.brokenPlaylist) Fixture.brokenUrl [] w =
     (HlsDownloader.Returned segs,
      {| HlsDownloader.clock := HlsDownloader.clock w;
         HlsDownloader.events := HlsDownloader.events w ++
           map HlsDownloader.EvInvalidSegment
               (Spec.unresolvedLines Fixture.resolveUrl
                  (Js.splitLines Fixture.brokenPlaylist) Fixture.brokenUrl) |})) /\
  (fst result = HlsDownloader.Threw (Error "No segments found in manifest") <-> segs = []) /\
  (forall bufs,
     segs <> [] -> Spec.served Fixture.network None 1 segs bufs ->
     fst result = HlsDownloader.Returned true /\
     Spec.fetches (HlsDownloader.events (snd result)) = [Fixture.brokenUrl] ++ segs /\
     Spec.saves (HlsDownloader.events (snd result)) =
       [(HlsDownloader.downloadName "video", concat bufs)]).
Proof.
  apply (unresolved_lines_are_skipped Fixture.resolveUrl Fixture.network
           Fixture.brokenUrl "video" false None
           Fixture.brokenUrl Fixture.brokenPlaylist
           {| HlsDownloader.clock := 1;
              HlsDownloader.events := [HlsDownloader.EvFetch Fixture.brokenUrl] |}).
  reflexivity.
Defined.

(** The playlist with a reference that does not resolve: its two other
    segments are fetched and joined, and the line is logged. *)
Example broken_line_is_passed_over :
  Fixture.download Fixture.brokenUrl false None =
  (HlsDownloader.Returned true,
   {| HlsDownloader.clock := 3;
      HlsDownloader.events :=
        [HlsDownloader.EvFetch Fixture.brokenUrl;
         HlsDownloader.EvInvalidSegment "http://";
         HlsDownloader.EvFetch "https://cdn.example.com/v/a.ts";
         HlsDownloader.EvFetch "https://cdn.example.com/v/b.ts";
         HlsDownloader.EvSave "video.ts" (Fixture.bytesOf "a.ts" ++ Fixture.bytesOf "b.ts")] |}).
Proof. reflexivity. Qed.

Example no_resolvable_line_is_an_empty_manifest :
  fst (Fixture.download Fixture.emptyUrl false None) =
  HlsDownloader.Threw (Error "No segments found in manifest").
Proof. reflexivity. Qed.

(* ===================================================================== *)
(** ** The duration of a stream                                           *)
(* ===================================================================== *)

Section Duration.
Import MediaDetector Background JsNumber.

Variable resolveUrl : string -> string -> option string.
Variable parseUrl : string -> option UrlParts.
Variable httpGet httpHead : string -> FetchOutcome.
Variable parseInt10 : string -> option Z.

(** What enrichment records for a media playlist: the sum over the lines of
    the first 1024 characters of the manifest, when that sum is positive. *)
Lemma enrichItem_media_duration (item : MediaItem) (r : Response) (t : string) :
  type item = streaming ->
  Js.includes (url item) ".m3u8" = true ->
  httpGet (url item) = Resolved r -> ok r = true -> text r = Some t ->
  getHlsType (Js.substring0 1024 t) = Some media ->
  duration (enrichItem resolveUrl parseUrl httpGet httpHead parseInt10 item) =
  if (0 <? calculateHlsDuration (Js.substring0 1024 t))%float
  then Some (calculateHlsDuration (Js.substring0 1024 t))
  else duration item.
Proof.
  intros Hty Hurl Hget Hok Htext Hrole.
  unfold enrichItem, enrichSize. rewrite Hty. unfold enrichHls. rewrite Hty, Hurl.
  unfold fetchHlsContent. rewrite Hget, Hok, Htext.
  assert (Htr : Js.truthy (Js.substring0 1024 t) = true).
  { destruct (Js.substring0 1024 t); [discriminate Hrole | reflexivity]. }
  rewrite Htr, Hrole. cbn [detectDuration].
  destruct (0 <? calculateHlsDuration (Js.substring0 1024 t))%float;
    destruct (suggestMasterUrl parseUrl (url item)) as [m|];
    try destruct (Js.truthy m); reflexivity.
Qed.

End Duration.

(** C2, at a playlist longer than 1024 characters.  The sixty segments of
    the playlist declare 600 seconds; the content that enrichment reads is
    cut after 1024 characters, classifies as a media playlist, and the
    duration recorded for the item is 400 seconds. *)
Theorem duration_of_long_playlist_is_cut :
  String.length Fixture.longPlaylist = 1532 /\
  MediaDetector.getHlsType (Js.substring0 1024 Fixture.longPlaylist) = Some media /\
  Background.calculateHlsDuration Fixture.longPlaylist = 600%float /\
  duration (Fixture.enrich (Fixture.streamingItem Fixture.longUrl)) = Some 400%float.
Proof. vm_compute. repeat split; reflexivity. Qed.

(** The playlist of the design document, short enough to be read whole:
    5.0 + 4.5 + 10.333 is the number that [19.833] denotes. *)
Example duration_of_short_playlist :
  Background.calculateHlsDuration Fixture.shortPlaylist = JsNumber.parseFloat "19.833" /\
  duration (Fixture.enrich (Fixture.streamingItem Fixture.shortUrl)) =
    Some (JsNumber.parseFloat "19.833").
Proof. vm_compute. split; reflexivity. Qed.

(* ===================================================================== *)
(** ** More on the observation store                                      *)
(* ===================================================================== *)

Section StoreInvariants.
Import Props MediaDetector Background.

(** The listener in one equation. *)
Lemma onBeforeRequest_spec (details : Details) (now : Z) (m : Cache) :
  onBeforeRequest details now m =
  if admitted details m
  then (<[tabId details :=
            bounded (default [] (m !! tabId details)
                     ++ [networkItem (requestUrl details) now])]> m,
        [{| n_tabId := tabId details; n_url := requestUrl details |}])
  else (m, []).
Proof.
  unfold onBeforeRequest, admitted, bounded.
  destruct (tabId details <? 0)%Z; [reflexivity|].
  destruct (Js.startsWith (requestUrl details) "blob:"); [reflexivity|].
  destruct (isMediaUrl (requestUrl details)); [|reflexivity].
  cbn [negb andb]. destruct (m !! tabId details) as [cached|] eqn:Em.
  - rewrite Em. cbn [default from_option id].
    destruct (someUrl (requestUrl details) cached); reflexivity.
  - rewrite lookup_insert_eq. cbn [default from_option id someUrl existsb negb].
    rewrite insert_insert_eq. reflexivity.
Qed.

Lemma someUrl_true (u : string) (l : list MediaItem) :
  someUrl u l = true <-> In u (map url l).
Proof.
  unfold someUrl. rewrite existsb_exists, in_map_iff. split.
  - intros [x [Hx He]]. apply String.eqb_eq in He. eauto.
  - intros [x [He Hx]]. exists x. split; [exact Hx | apply String.eqb_eq, He].
Qed.

Lemma someUrl_false (u : string) (l : list MediaItem) :
  someUrl u l = false <-> ~ In u (map url l).
Proof.
  rewrite <- someUrl_true. destruct (someUrl u l); split; congruence.
Qed.

(** What holds of the empty cache and is kept by every event holds after
    every sequence of events. *)
Lemma cacheAfter_invariant (P : Cache -> Prop) :
  P ∅ -> (forall m ev, P m -> P (handle m ev)) ->
  forall evs, P (cacheAfter evs).
Proof.
  intros H0 Hstep evs. unfold cacheAfter.
  generalize (∅ : Cache) H0. induction evs as [|ev rest IH]; intros m Hm; [exact Hm|].
  cbn [fold_left]. apply IH, Hstep, Hm.
Qed.

Lemma bounded_sublist (l : list MediaItem) (x : MediaItem) :
  In x (bounded l) -> In x l.
Proof.
  unfold bounded, shift. destruct (100 <? List.length l)%nat; [|tauto].
  destruct l; cbn; tauto.
Qed.

Lemma bounded_NoDup (l : list MediaItem) :
  List.NoDup (map url l) -> List.NoDup (map url (bounded l)).
Proof.
  unfold bounded, shift. destruct (100 <? List.length l)%nat; [|tauto].
  destruct l; cbn; [tauto|]. intros H. inversion H. assumption.
Qed.

Lemma bounded_keeps_last (l : list MediaItem) (x : MediaItem) :
  In x (bounded (l ++ [x])).
Proof.
  unfold bounded, shift. destruct (100 <? List.length (l ++ [x]))%nat eqn:E.
  - destruct l as [|y l]; [cbn in E; discriminate|].
    cbn [app tl]. apply in_or_app. right. left. reflexivity.
  - apply in_or_app. right. left. reflexivity.
Qed.

Lemma bounded_nonempty (l : list MediaItem) (x : MediaItem) :
  bounded (l ++ [x]) <> [].
Proof.
  intros H. pose proof (bounded_keeps_last l x) as Hin. rewrite H in Hin. destruct Hin.
Qed.

Lemma wellKept_step (m : Cache) (ev : BrowserEvent) :
  wellKept m -> wellKept (handle m ev).
Proof.
  intros Hm t l. destruct ev as [details now | id]; cbn [handle].
  - rewrite onBeforeRequest_spec. destruct (admitted details m) eqn:Ea; [|apply Hm].
    cbn [fst]. destruct (decide (t = tabId details)) as [-> | Hne].
    + rewrite lookup_insert_eq. intros Hl. injection Hl as <-.
      unfold admitted in Ea. rewrite !andb_true_iff, !negb_true_iff in Ea.
      destruct Ea as [[[Hid Hblob] Hmedia] Hnew].
      assert (Hold : List.NoDup (map url (default [] (m !! tabId details))) /\
                     Forall observed (default [] (m !! tabId details))).
      { destruct (m !! tabId details) as [old|] eqn:Eo; cbn.
        - destruct (Hm _ _ Eo) as [_ [_ [H1 H2]]]. split; assumption.
        - split; constructor. }
      destruct Hold as [Hnd Hobs].
      split; [apply Z.ltb_ge, Hid|]. split; [apply bounded_nonempty|]. split.
      * apply bounded_NoDup. rewrite map_app. cbn [map networkItem url].
        apply List.NoDup_app; [exact Hnd | constructor; [intros [] | constructor] |].
        intros x Hx [<- | []]. apply someUrl_false in Hnew. exact (Hnew Hx).
      * apply List.Forall_forall. intros x Hx. apply bounded_sublist in Hx.
        apply in_app_or in Hx as [Hx | [<- | []]].
        -- rewrite List.Forall_forall in Hobs. apply Hobs, Hx.
        -- unfold observed. cbn [networkItem url type].
           split; [exact Hmedia|]. split; [exact Hblob|]. split.
           ++ unfold isMediaUrl in Hmedia.
              destruct (getMediaType (requestUrl details)); congruence.
           ++ exists now. reflexivity.
    + rewrite lookup_insert_ne by congruence. apply Hm.
  - unfold onRemoved. destruct (decide (t = id)) as [-> | Hne].
    + rewrite lookup_delete_eq. discriminate.
    + rewrite lookup_delete_ne by congruence. apply Hm.
Qed.

Lemma wellKept_cacheAfter (evs : list BrowserEvent) : wellKept (cacheAfter evs).
Proof.
  apply cacheAfter_invariant.
  - intros t l H. rewrite lookup_empty in H. discriminate.
  - apply wellKept_step.
Qed.

(** X1.  After any sequence of requests and tab closures, the array of a
    tab holds every url at most once. *)
Theorem cache_urls_distinct (evs : list BrowserEvent) (t : Z) :
  List.NoDup (map url (default [] (cacheAfter evs !! t))).
Proof.
  destruct (cacheAfter evs !! t) as [l|] eqn:E; cbn; [|constructor].
  apply (wellKept_cacheAfter evs t l E).
Qed.

(** X2.  The cache has entries for tab ids that are not negative only, no
    array in it is empty, and every entry is one that the listener made: a
    media url that is no [blob:] url, with the kind that the classifier
    gives to it, none of them [unknown], and the network as its source. *)
Theorem cache_holds_network_media (evs : list BrowserEvent) (t : Z) :
  match cacheAfter evs !! t with
  | Some l => (0 <= t)%Z /\ l <> [] /\ Forall observed l
  | None => True
  end.
Proof.
  destruct (cacheAfter evs !! t) as [l|] eqn:E; [|exact I].
  destruct (wellKept_cacheAfter evs t l E) as [H1 [H2 [_ H3]]]. auto.
Qed.

(** X3.  A request that comes a second time, right after the first, changes
    nothing and notifies nobody, whatever the cache was. *)
Theorem repeated_request_ignored (details : Details) (now1 now2 : Z) (m : Cache) :
  onBeforeRequest details now2 (fst (onBeforeRequest details now1 m)) =
  (fst (onBeforeRequest details now1 m), []).
Proof.
  rewrite (onBeforeRequest_spec details now1 m).
  destruct (admitted details m) eqn:Ea; cbn [fst].
  - rewrite onBeforeRequest_spec.
    assert (Hno : admitted details
              (<[tabId details :=
                   bounded (default [] (m !! tabId details)
                            ++ [networkItem (requestUrl details) now1])]> m) = false).
    { unfold admitted. rewrite lookup_insert_eq. cbn [default from_option id].
      assert (Hs : someUrl (requestUrl details)
                 (bounded (default [] (m !! tabId details)
                           ++ [networkItem (requestUrl details) now1])) = true).
      { apply someUrl_true, in_map_iff.
        exists (networkItem (requestUrl details) now1).
        split; [reflexivity | apply bounded_keeps_last]. }
      rewrite Hs. cbn [negb]. apply andb_false_r. }
    rewrite Hno. reflexivity.
  - rewrite onBeforeRequest_spec, Ea. reflexivity.
Qed.

Lemma handle_other_tab (m : Cache) (ev : BrowserEvent) (t : Z) :
  concerns t ev = false -> handle m ev !! t = m !! t.
Proof.
  destruct ev as [details now | id]; cbn [concerns handle]; intros H;
    apply Z.eqb_neq in H.
  - rewrite onBeforeRequest_spec. destruct (admitted details m); [|reflexivity].
    cbn [fst]. apply lookup_insert_ne. exact H.
  - unfold onRemoved. apply lookup_delete_ne. exact H.
Qed.

Lemma handle_same_tab (m m' : Cache) (ev : BrowserEvent) (t : Z) :
  concerns t ev = true -> m !! t = m' !! t -> handle m ev !! t = handle m' ev !! t.
Proof.
  destruct ev as [details now | id]; cbn [concerns handle]; intros H Hm;
    apply Z.eqb_eq in H; subst t.
  - rewrite !onBeforeRequest_spec. unfold admitted. rewrite Hm.
    destruct (negb (tabId details <? 0)%Z && negb (Js.startsWith (requestUrl details) "blob:")
              && isMediaUrl (requestUrl details)
              && negb (someUrl (requestUrl details) (default [] (m' !! tabId details))));
      cbn [fst]; [|exact Hm].
    rewrite !lookup_insert_eq. reflexivity.
  - unfold onRemoved. rewrite !lookup_delete_eq. reflexivity.
Qed.

Lemma isolated_run (evs : list BrowserEvent) (t : Z) (m m' : Cache) :
  m !! t = m' !! t ->
  fold_left handle evs m !! t = fold_left handle (List.filter (concerns t) evs) m' !! t.
Proof.
  revert m m'; induction evs as [|ev rest IH]; intros m m' Hm; [exact Hm|].
  cbn [fold_left List.filter]. destruct (concerns t ev) eqn:Ec.
  - cbn [fold_left]. apply IH, handle_same_tab; assumption.
  - apply IH. rewrite handle_other_tab by exact Ec. exact Hm.
Qed.

(** X4.  The array of a tab depends on the events of that tab alone: the
    requests and closures of other tabs can be left out. *)
Theorem tabs_are_isolated (evs : list BrowserEvent) (t : Z) :
  cacheAfter evs !! t = cacheAfter (List.filter (concerns t) evs) !! t.
Proof. apply isolated_run. reflexivity. Qed.

(** X5.  Closing a tab forgets its observations: the next media request of
    the tab starts an array of its own, whatever came before. *)
Theorem closed_tab_starts_afresh (evs : list BrowserEvent) (details : Details) (now : Z) :
  (0 <= tabId details)%Z ->
  Js.startsWith (requestUrl details) "blob:" = false ->
  isMediaUrl (requestUrl details) = true ->
  cacheAfter (evs ++ [TabRemoved (tabId details)]) !! tabId details = None /\
  cacheAfter (evs ++ [TabRemoved (tabId details); Request details now]) !! tabId details =
    Some [networkItem (requestUrl details) now].
Proof.
  intros Hid Hblob Hmedia. unfold cacheAfter. rewrite !fold_left_app.
  cbn [fold_left handle]. unfold onRemoved.
  split; [apply lookup_delete_eq|].
  rewrite onBeforeRequest_spec. unfold admitted.
  rewrite lookup_delete_eq, Hblob, Hmedia. cbn [default from_option id someUrl existsb].
  destruct (Z.ltb_spec (tabId details) 0); [lia|]. cbn [negb andb fst].
  rewrite lookup_insert_eq. reflexivity.
Qed.

End StoreInvariants.

Lemma closed_tab_starts_afresh_witness :
  Background.cacheAfter
    ([Background.Request {| Background.tabId := 3; Background.requestUrl := "https://example.com/a.mp4" |} 10]
     ++ [Background.TabRemoved 3]) !! 3%Z = None /\
  Background.cacheAfter
    ([Background.Request {| Background.tabId := 3; Background.requestUrl := "https://example.com/a.mp4" |} 10]
     ++ [Background.TabRemoved 3;
         Background.Request {| Background.tabId := 3; Background.requestUrl := "https://example.com/b.mp3" |} 20])
    !! 3%Z =
    Some [Background.networkItem "https://example.com/b.mp3" 20].
Proof.
  apply (closed_tab_starts_afresh
           [Background.Request {| Background.tabId := 3; Background.requestUrl := "https://example.com/a.mp4" |} 10]
           {| Background.tabId := 3; Background.requestUrl := "https://example.com/b.mp3" |} 20).
  - cbn. lia.
  - reflexivity.
  - reflexivity.
Defined.

(* ===================================================================== *)
(** ** More on merging                                                    *)
(* ===================================================================== *)

Section MergeFacts.
Import Spec UrlUtils Background.

Lemma filterUnseen_In (seen : gset string) (l : list MediaItem) (x : MediaItem) :
  In x (filterUnseen seen l) -> In x l /\ url x ∉ seen.
Proof.
  revert seen; induction l as [|item rest IH]; intros seen; [intros []|].
  cbn [filterUnseen]. destruct (decide (url item ∈ seen)) as [Hs | Hs].
  - intros H. apply IH in H as [H1 H2]. split; [right; exact H1 | exact H2].
  - intros [<- | H]; [split; [left; reflexivity | exact Hs]|].
    apply IH in H as [H1 H2]. split; [right; exact H1 | set_solver].
Qed.

Lemma filterUnseen_NoDup (seen : gset string) (l : list MediaItem) :
  List.NoDup (map url (filterUnseen seen l)).
Proof.
  revert seen; induction l as [|item rest IH]; intros seen; [constructor|].
  cbn [filterUnseen]. destruct (decide (url item ∈ seen)) as [Hs | Hs]; [apply IH|].
  cbn [map]. constructor; [|apply IH].
  intros Hin. apply in_map_iff in Hin as [x [Hx Hin]].
  apply filterUnseen_In in Hin as [_ Hn]. rewrite Hx in Hn. set_solver.
Qed.

Lemma filterUnseen_complete (seen : gset string) (l : list MediaItem) (u : string) :
  In u (map url l) -> u ∈ seen \/ In u (map url (filterUnseen seen l)).
Proof.
  revert seen; induction l as [|item rest IH]; intros seen; [intros []|].
  cbn [map filterUnseen]. destruct (decide (url item ∈ seen)) as [Hs | Hs].
  - intros [<- | H]; [left; exact Hs | apply IH, H].
  - intros [<- | H]; [right; left; reflexivity|].
    destruct (IH ({[url item]} ∪ seen) H) as [Hu | Hu].
    + apply elem_of_union in Hu as [Hu | Hu].
      * right. left. apply elem_of_singleton in Hu. congruence.
      * left. exact Hu.
    + right. right. exact Hu.
Qed.

Lemma filterUnseen_id (seen : gset string) (l : list MediaItem) :
  List.NoDup (map url l) -> (forall u, In u (map url l) -> u ∉ seen) ->
  filterUnseen seen l = l.
Proof.
  revert seen; induction l as [|item rest IH]; intros seen Hnd Hfresh; [reflexivity|].
  cbn [filterUnseen]. cbn [map] in Hnd, Hfresh. inversion Hnd as [|? ? Hni Hnd']; subst.
  rewrite decide_False by (apply Hfresh; left; reflexivity).
  f_equal. apply IH; [exact Hnd'|].
  intros u Hu Hin. apply elem_of_union in Hin as [Hin | Hin].
  - apply elem_of_singleton in Hin. subst u. exact (Hni Hu).
  - exact (Hfresh u (or_intror Hu) Hin).
Qed.

Lemma urlsOf_In (l : list MediaItem) (u : string) : u ∈ urlsOf l <-> In u (map url l).
Proof. unfold urlsOf. rewrite elem_of_list_to_set. apply list_elem_of_In. Qed.

(** X6.  The merged list holds every url once; each of its items is an item
    of one of the two lists; and no url of either list is lost. *)
Theorem merge_urls_distinct_and_complete (d n : list MediaItem) :
  List.NoDup (map url (mergeAndDeduplicate d n)) /\
  (forall x, In x (mergeAndDeduplicate d n) -> In x d \/ In x n) /\
  (forall u, In u (map url (mergeAndDeduplicate d n)) <->
             In u (map url d) \/ In u (map url n)).
Proof.
  rewrite mergeAndDeduplicate_concat. unfold deduplicateMedia.
  split; [apply filterUnseen_NoDup|]. split.
  - intros x Hx. apply filterUnseen_In in Hx as [Hx _]. apply in_app_or, Hx.
  - intros u. split.
    + intros Hu. apply in_map_iff in Hu as [x [<- Hx]].
      apply filterUnseen_In in Hx as [Hx _]. apply in_app_or in Hx as [Hx | Hx];
        [left | right]; apply in_map, Hx.
    + intros Hu.
      assert (Hin : In u (map url (d ++ n))) by (rewrite map_app; apply in_or_app, Hu).
      destruct (filterUnseen_complete ∅ _ _ Hin) as [He | Hf]; [set_solver | exact Hf].
Qed.

(** X7.  When the urls of the DOM results are distinct, as the content
    script leaves them, the merged list starts with the DOM results as they
    are; what follows are network items whose url no DOM result has. *)
Theorem merge_keeps_dom_first (d n : list MediaItem) :
  List.NoDup (map url d) ->
  exists rest,
    mergeAndDeduplicate d n = d ++ rest /\
    forall x, In x rest -> In x n /\ ~ In (url x) (map url d).
Proof.
  intros Hnd. exists (filterUnseen (urlsOf d ∪ ∅) n). split.
  - rewrite mergeAndDeduplicate_concat. unfold deduplicateMedia.
    rewrite filterUnseen_app. f_equal. apply filterUnseen_id; [exact Hnd | set_solver].
  - intros x Hx. apply filterUnseen_In in Hx as [Hx Hn]. split; [exact Hx|].
    intros Hin. apply Hn, elem_of_union. left. apply urlsOf_In, Hin.
Qed.

(** X8.  [deduplicateMedia] leaves a list as it is exactly when the urls of
    the list are distinct, and its result is such a list: a second pass
    changes nothing. *)
Theorem deduplicateMedia_fixed_point (l : list MediaItem) :
  (deduplicateMedia l = l <-> List.NoDup (map url l)) /\
  deduplicateMedia (deduplicateMedia l) = deduplicateMedia l.
Proof.
  assert (Hiff : forall k, deduplicateMedia k = k <-> List.NoDup (map url k)).
  { intros k. unfold deduplicateMedia. split.
    - intros H. rewrite <- H. apply filterUnseen_NoDup.
    - intros H. apply filterUnseen_id; [exact H | set_solver]. }
  split; [apply Hiff|]. apply Hiff. unfold deduplicateMedia. apply filterUnseen_NoDup.
Qed.

End MergeFacts.

Lemma merge_keeps_dom_first_witness :
  exists rest,
    Background.mergeAndDeduplicate
      [Fixture.streamingItem "https://example.com/a.m3u8"]
      [Fixture.streamingItem "https://example.com/a.m3u8";
       Fixture.streamingItem "https://example.com/b.m3u8"] =
    [Fixture.streamingItem "https://example.com/a.m3u8"] ++ rest /\
    forall x, In x rest ->
      In x [Fixture.streamingItem "https://example.com/a.m3u8";
            Fixture.streamingItem "https://example.com/b.m3u8"] /\
      ~ In (url x) (map url [Fixture.streamingItem "https://example.com/a.m3u8"]).
Proof.
  apply (merge_keeps_dom_first
           [Fixture.streamingItem "https://example.com/a.m3u8"]
           [Fixture.streamingItem "https://example.com/a.m3u8";
            Fixture.streamingItem "https://example.com/b.m3u8"]).
  cbn. constructor; [intros [] | constructor].
Defined.

(* ===================================================================== *)
(** ** More on enrichment                                                 *)
(* ===================================================================== *)

Section EnrichmentFacts.
Import Props MediaDetector Background JsNumber.

Variable resolveUrl : string -> string -> option string.
Variable parseUrl : string -> option UrlParts.
Variable httpGet httpHead : string -> FetchOutcome.
Variable parseInt10 : string -> option Z.

Local Abbreviation enrich := (enrichItem resolveUrl parseUrl httpGet httpHead parseInt10).

Ltac break_match :=
  repeat match goal with
         | |- context [match ?x with _ => _ end] => destruct x eqn:?
         end.

Lemma enrichSize_identity (item : MediaItem) :
  sameIdentity (enrichSize httpHead parseInt10 item) item.
Proof.
  unfold enrichSize, sameIdentity. break_match; cbn; repeat split; congruence.
Qed.

Lemma enrichHls_identity (item : MediaItem) :
  sameIdentity (enrichHls resolveUrl parseUrl httpGet item) item.
Proof.
  unfold enrichHls, sameIdentity. break_match; cbn; repeat split; congruence.
Qed.

Lemma enrichItem_identity (item : MediaItem) : sameIdentity (enrich item) item.
Proof.
  unfold enrichItem.
  destruct (enrichHls_identity (enrichSize httpHead parseInt10 item)) as [A1 [A2 [A3 [A4 A5]]]].
  destruct (enrichSize_identity item) as [B1 [B2 [B3 [B4 B5]]]].
  unfold sameIdentity. repeat split; congruence.
Qed.

(** X9.  Enrichment adds to an item and never touches what identifies it:
    the url, the kind, the source, the time stamp and the tag stay, so the
    enriched list has the urls of the merged list, in the same order. *)
Theorem enrichment_keeps_identity (results : list MediaItem) :
  Forall2 sameIdentity
          (enrichResults resolveUrl parseUrl httpGet httpHead parseInt10 results) results /\
  map url (enrichResults resolveUrl parseUrl httpGet httpHead parseInt10 results) =
    map url results.
Proof.
  unfold enrichResults. induction results as [|item rest [IH1 IH2]];
    [split; [constructor | reflexivity]|].
  cbn [map]. split.
  - constructor; [apply enrichItem_identity | exact IH1].
  - f_equal; [apply enrichItem_identity | exact IH2].
Qed.

(** X10.  When no request gives an [ok] response, enrichment gives every
    item back as it came: the failures are absorbed one by one. *)
Theorem enrichment_absorbs_failures (item : MediaItem) :
  (forall u, match httpGet u with Resolved r => ok r = false | _ => True end) ->
  (forall u, match httpHead u with Resolved r => ok r = false | _ => True end) ->
  enrich item = item.
Proof.
  intros Hget Hhead.
  assert (Hc : forall u, fetchHlsContent httpGet u = None).
  { intros u. unfold fetchHlsContent. specialize (Hget u).
    destruct (httpGet u) as [| |r]; try reflexivity. rewrite Hget. reflexivity. }
  assert (Hs : forall u, fetchFileSize httpHead parseInt10 u = None).
  { intros u. unfold fetchFileSize. specialize (Hhead u).
    destruct (httpHead u) as [| |r]; try reflexivity. rewrite Hhead. reflexivity. }
  unfold enrichItem, enrichSize. rewrite Hs.
  assert (Hsize : match type item with
                  | video | audio => item
                  | _ => item
                  end = item) by (destruct (type item); reflexivity).
  rewrite Hsize. unfold enrichHls. rewrite Hc.
  destruct (type item); try reflexivity.
  destruct (Js.includes (url item) ".m3u8"); reflexivity.
Qed.

(** X11.  Subtitles, items of unknown kind and streaming items whose url
    does not hold [.m3u8] (a DASH manifest, say) come back as they are,
    whatever the network answers. *)
Theorem enrichment_leaves_other_kinds (item : MediaItem) :
  type item = subtitle \/ type item = unknown \/
  (type item = streaming /\ Js.includes (url item) ".m3u8" = false) ->
  enrich item = item.
Proof.
  unfold enrichItem, enrichSize, enrichHls.
  intros [H | [H | [H Hu]]]; rewrite H; rewrite ?H, ?Hu; reflexivity.
Qed.

(** X12.  Enrichment never records a size of zero, nor a duration that is
    not above zero: a size found on the enriched item is the one the item
    had, or a number other than zero (it can be a negative one: the number
    read from the header is tested for truth, not for sign); a duration found
    on it is the one the item had, or one above zero. *)
Theorem recorded_size_not_zero_duration_positive (item : MediaItem) :
  match size (enrich item) with
  | Some sz => size item = Some sz \/ sz <> 0%Z
  | None => True
  end /\
  match duration (enrich item) with
  | Some d => duration item = Some d \/ (0 <? d)%float = true
  | None => True
  end.
Proof.
  assert (Hsz : size (enrich item) = size (enrichSize httpHead parseInt10 item)).
  { unfold enrichItem, enrichHls. break_match; reflexivity. }
  assert (Hd0 : duration (enrichSize httpHead parseInt10 item) = duration item).
  { unfold enrichSize. break_match; reflexivity. }
  assert (Hsize : enrichSize httpHead parseInt10 item = item \/
                  exists sz, sz <> 0%Z /\
                    enrichSize httpHead parseInt10 item = setSize sz item).
  { unfold enrichSize. destruct (type item); auto;
      destruct (fetchFileSize httpHead parseInt10 (url item)) as [sz|]; auto;
      destruct (Z.eqb_spec sz 0); auto; right; exists sz; auto. }
  assert (Hdur : forall it,
            duration (enrichHls resolveUrl parseUrl httpGet it) = duration it \/
            exists d, (0 <? d)%float = true /\
              duration (enrichHls resolveUrl parseUrl httpGet it) = Some d).
  { intros it. unfold enrichHls.
    destruct (type it); auto.
    destruct (Js.includes (url it) ".m3u8"); auto.
    destruct (fetchHlsContent httpGet (url it)) as [content|]; auto.
    destruct (Js.truthy content); auto.
    destruct (getHlsType content) as [role|]; auto.
    destruct (0 <? detectDuration resolveUrl httpGet it content role)%float eqn:Ed.
    - right. exists (detectDuration resolveUrl httpGet it content role).
      split; [exact Ed|]. destruct role; [reflexivity|].
      destruct (suggestMasterUrl parseUrl (url it)) as [m|]; [|reflexivity].
      destruct (Js.truthy m); reflexivity.
    - left. destruct role; [reflexivity|].
      destruct (suggestMasterUrl parseUrl (url it)) as [m|]; [|reflexivity].
      destruct (Js.truthy m); reflexivity. }
  split.
  - rewrite Hsz. destruct Hsize as [-> | [sz [Hnz ->]]].
    + destruct (size item); auto.
    + cbn. right. exact Hnz.
  - unfold enrichItem.
    destruct (Hdur (enrichSize httpHead parseInt10 item)) as [-> | [d [Hpos ->]]].
    + rewrite Hd0. destruct (duration item); auto.
    + right. exact Hpos.
Qed.

End EnrichmentFacts.

Lemma enrichment_absorbs_failures_witness :
  Background.enrichItem Fixture.resolveUrl Fixture.parseUrl Cases.offline Cases.offline
                        Fixture.parseInt10 (Fixture.streamingItem Fixture.shortUrl)
  = Fixture.streamingItem Fixture.shortUrl.
Proof.
  apply (enrichment_absorbs_failures Fixture.resolveUrl Fixture.parseUrl
           Cases.offline Cases.offline Fixture.parseInt10).
  - intros u. exact I.
  - intros u. exact I.
Defined.

Lemma enrichment_leaves_other_kinds_witness :
  Fixture.enrich Cases.dashItem = Cases.dashItem.
Proof.
  apply (enrichment_leaves_other_kinds Fixture.resolveUrl Fixture.parseUrl
           Fixture.httpGet Fixture.httpHead Fixture.parseInt10 Cases.dashItem).
  right. right. split; reflexivity.
Defined.

(* ===================================================================== *)
(** ** Splitting and joining                                              *)
(* ===================================================================== *)

Section SplitJoin.
Import Props.

Lemma split_nonempty (sep : ascii) (s : string) : Js.split sep s <> [].
Proof.
  destruct s as [|c s]; cbn [Js.split]; [discriminate|].
  destruct (Ascii.eqb c sep); [discriminate|].
  destruct (Js.split sep s); discriminate.
Qed.

(** Splitting goes through a separator. *)
Lemma split_app_sep (sep : ascii) (a b : string) :
  Js.split sep (a ++ String sep b) = Js.split sep a ++ Js.split sep b.
Proof.
  induction a as [|c a IH]; cbn [String.append Js.split].
  - rewrite Ascii.eqb_refl. reflexivity.
  - destruct (Ascii.eqb c sep); [rewrite IH; reflexivity|].
    rewrite IH. pose proof (split_nonempty sep a) as Hne.
    destruct (Js.split sep a) as [|l ls]; [congruence | reflexivity].
Qed.

Lemma split_lacks (sep : ascii) (s : string) :
  lacks sep s = true -> Js.split sep s = [s].
Proof.
  unfold lacks. induction s as [|c s IH]; cbn [allChars Js.split]; [reflexivity|].
  intros H. apply andb_true_iff in H as [Hc Hs]. apply negb_true_iff in Hc.
  rewrite Hc, (IH Hs). reflexivity.
Qed.

Lemma join_cons (sep p : string) (q : string) (ps : list string) :
  Js.join sep (p :: q :: ps) = (p ++ sep ++ Js.join sep (q :: ps))%string.
Proof. reflexivity. Qed.

Lemma append_assoc (a b c : string) : ((a ++ b) ++ c = a ++ (b ++ c))%string.
Proof. induction a as [|x a IH]; cbn; [reflexivity | rewrite IH; reflexivity]. Qed.

Lemma append_empty_r (a : string) : (a ++ "")%string = a.
Proof. induction a as [|x a IH]; cbn; [reflexivity | rewrite IH; reflexivity]. Qed.

(** Joining what was split gives the string back. *)
Lemma join_split (sep : ascii) (s : string) :
  Js.join (String sep EmptyString) (Js.split sep s) = s.
Proof.
  induction s as [|c s IH]; cbn [Js.split]; [reflexivity|].
  pose proof (split_nonempty sep s) as Hne.
  destruct (Ascii.eqb_spec c sep) as [-> | Hc].
  - destruct (Js.split sep s) as [|l ls]; [congruence|].
    rewrite join_cons, IH. reflexivity.
  - destruct (Js.split sep s) as [|l ls]; [congruence|].
    destruct ls as [|l2 ls].
    + cbn in IH. subst l. reflexivity.
    + rewrite join_cons in *. rewrite <- IH. reflexivity.
Qed.

(** Splitting what was joined gives the pieces back, when no piece holds
    the separator. *)
Lemma split_join (sep : ascii) (pieces : list string) :
  pieces <> [] -> forallb (lacks sep) pieces = true ->
  Js.split sep (Js.join (String sep EmptyString) pieces) = pieces.
Proof.
  induction pieces as [|p ps IH]; [congruence|]. intros _ H.
  cbn [forallb] in H. apply andb_true_iff in H as [Hp Hps].
  destruct ps as [|q ps]; [apply split_lacks, Hp|].
  rewrite join_cons. cbn [String.append].
  rewrite split_app_sep, (split_lacks sep p Hp), IH; [reflexivity | discriminate | exact Hps].
Qed.

End SplitJoin.

(* ===================================================================== *)
(** ** The master url that is suggested                                   *)
(* ===================================================================== *)

Section Suggestion.
Import Props Background.

Variable parseUrl : string -> option UrlParts.

(** X13.  For a media playlist at [origin/dir/file] the master url that
    is suggested is [origin/dir/master.m3u8]: the file name goes, the
    directory stays, and nothing is asked of the network. *)
Theorem suggestMasterUrl_sibling (mediaUrl o dir file : string) :
  parseUrl mediaUrl = Some {| origin := o; pathname := (dir ++ "/" ++ file)%string |} ->
  lacks "/" file = true ->
  suggestMasterUrl parseUrl mediaUrl = Some (o ++ dir ++ "/master.m3u8")%string.
Proof.
  intros Hp Hf. unfold suggestMasterUrl, pop. rewrite Hp. cbn [origin pathname].
  change (dir ++ "/" ++ file)%string with (dir ++ String "/" file)%string.
  rewrite split_app_sep, (split_lacks "/" file Hf), removelast_last.
  rewrite (join_split "/" dir). reflexivity.
Qed.

End Suggestion.

Lemma suggestMasterUrl_sibling_witness :
  Background.suggestMasterUrl Fixture.parseUrl
    "https://cdn.example.com/videos/abc/level_0.m3u8" =
  Some ("https://cdn.example.com" ++ "/videos/abc" ++ "/master.m3u8")%string.
Proof.
  apply (suggestMasterUrl_sibling Fixture.parseUrl
           "https://cdn.example.com/videos/abc/level_0.m3u8"
           "https://cdn.example.com" "/videos/abc" "level_0.m3u8").
  - reflexivity.
  - reflexivity.
Defined.

(* ===================================================================== *)
(** ** The duration that a playlist declares                              *)
(* ===================================================================== *)

Section DeclaredDuration.
Import Props Regex Background JsNumber.

Lemma matchRe_lit_exact (w rest : string) :
  matchRe false (lit w) (w ++ rest) = [rest].
Proof.
  induction w as [|c w IH]; cbn [lit matchRe String.append]; [reflexivity|].
  unfold chrEq. rewrite Ascii.eqb_refl. cbn [flat_map]. rewrite IH. reflexivity.
Qed.

(** The greedy [+] first leaves what follows the whole run. *)
Lemma plusRem_greedy (p : ascii -> bool) (d rest : string) :
  Js.truthy d = true -> allChars p d = true -> startsIn p rest = false ->
  exists more, plusRem p (d ++ rest) = rest :: more.
Proof.
  induction d as [|c d IH]; [discriminate|]. intros _ Hall Hrest.
  cbn [allChars] in Hall. apply andb_true_iff in Hall as [Hc Hd].
  cbn [String.append plusRem]. rewrite Hc. destruct d as [|c' d'].
  - cbn [String.append]. exists [].
    destruct rest as [|r rest']; [reflexivity|].
    cbn [startsIn] in Hrest. cbn [plusRem]. rewrite Hrest. reflexivity.
  - destruct (IH eq_refl Hd Hrest) as [more Hm]. rewrite Hm.
    eexists. reflexivity.
Qed.

Lemma consumed_prefix (d rest : string) : consumed (d ++ rest) rest = d.
Proof.
  unfold consumed.
  assert (Hlen : String.length (d ++ rest) - String.length rest = String.length d).
  { induction d as [|c d IH]; cbn [String.append String.length]; [lia|].
    assert (String.length rest <= String.length (d ++ rest)).
    { clear IH. induction d; cbn [String.append String.length]; lia. }
    lia. }
  rewrite Hlen. clear Hlen. induction d as [|c d IH]; cbn.
  - destruct rest; reflexivity.
  - rewrite IH. reflexivity.
Qed.

(** The capture group of the pattern reads the seconds of a tag. *)
Lemma matchExtinf_reads_seconds (seconds rest : string) :
  Js.truthy seconds = true -> allChars extinfDigits seconds = true ->
  startsIn extinfDigits rest = false ->
  matchExtinf ("#EXTINF:" ++ seconds ++ rest) = Some seconds.
Proof.
  intros Hne Hall Hrest. unfold matchExtinf.
  destruct (plusRem_greedy extinfDigits seconds rest Hne Hall Hrest) as [more Hm].
  set (line := ("#EXTINF:" ++ seconds ++ rest)%string).
  assert (Hfirst : firstGroup false (PlusCls extinfDigits)
                     (matchRe false (lit "#EXTINF:") line) = Some seconds).
  { subst line. rewrite matchRe_lit_exact. cbn [firstGroup matchRe]. rewrite Hm.
    rewrite consumed_prefix. reflexivity. }
  subst line. cbn [String.append execGroup]. cbn [String.append] in Hfirst.
  rewrite Hfirst. reflexivity.
Qed.

Lemma addLineDuration_render (acc : float) (pl : PlaylistLine) :
  wellFormed pl = true ->
  addLineDuration acc (render pl) =
  match pl with
  | Extinf seconds _ => (acc + parseFloat seconds)%float
  | Other _ => acc
  end.
Proof.
  destruct pl as [seconds rest | line]; cbn [wellFormed render]; intros H.
  - rewrite !andb_true_iff, negb_true_iff in H. destruct H as [[[H1 H2] H3] _].
    unfold addLineDuration.
    assert (Hs : Js.startsWith ("#EXTINF:" ++ seconds ++ rest) "#EXTINF:" = true)
      by (apply startsWith_spec; eauto).
    rewrite Hs, (matchExtinf_reads_seconds seconds rest H1 H2 H3). reflexivity.
  - apply andb_true_iff in H as [H _]. apply negb_true_iff in H.
    unfold addLineDuration. rewrite H. reflexivity.
Qed.

Lemma allChars_app (p : ascii -> bool) (a b : string) :
  allChars p (a ++ b) = allChars p a && allChars p b.
Proof.
  induction a as [|c a IH]; cbn [String.append allChars]; [reflexivity|].
  rewrite IH. apply andb_assoc.
Qed.

Lemma allChars_weaken (p q : ascii -> bool) (s : string) :
  (forall c, p c = true -> q c = true) -> allChars p s = true -> allChars q s = true.
Proof.
  intros Hpq. induction s as [|c s IH]; cbn [allChars]; [reflexivity|].
  intros H. apply andb_true_iff in H as [Hc Hs]. rewrite (Hpq c Hc), (IH Hs). reflexivity.
Qed.

Lemma extinfDigits_not_newline (c : ascii) :
  extinfDigits c = true -> negb (Ascii.eqb c Js.newline) = true.
Proof.
  destruct c as [[] [] [] [] [] [] [] []]; vm_compute; congruence.
Qed.

Lemma render_lacks_newline (pl : PlaylistLine) :
  wellFormed pl = true -> lacks Js.newline (render pl) = true.
Proof.
  destruct pl as [seconds rest | line]; cbn [wellFormed render]; intros H.
  - rewrite !andb_true_iff in H. destruct H as [[[_ H2] _] H4].
    unfold lacks in *. rewrite !allChars_app, H4.
    rewrite (allChars_weaken _ _ seconds extinfDigits_not_newline H2). reflexivity.
  - apply andb_true_iff in H as [_ H]. exact H.
Qed.

Lemma fold_addLineDuration (pls : list PlaylistLine) (acc : float) :
  forallb wellFormed pls = true ->
  fold_left addLineDuration (map render pls) acc =
  fold_left (fun a d => (a + parseFloat d)%float) (declaredSeconds pls) acc.
Proof.
  revert acc; induction pls as [|pl rest IH]; intros acc H; [reflexivity|].
  cbn [forallb] in H. apply andb_true_iff in H as [Hpl Hrest].
  cbn [map fold_left declaredSeconds flat_map].
  rewrite (addLineDuration_render acc pl Hpl), (IH _ Hrest).
  destruct pl; reflexivity.
Qed.

(** X14.  For a playlist given line by line, the tags well formed, the
    duration that [calculateHlsDuration] computes from its text is the sum of
    the seconds that the [#EXTINF:] tags declare, added in the order of the
    lines; the other lines count for nothing. *)
Theorem declared_durations_are_summed (pls : list PlaylistLine) :
  pls <> [] -> forallb wellFormed pls = true ->
  calculateHlsDuration (Js.join (String Js.newline EmptyString) (map render pls)) =
  sumSeconds (declaredSeconds pls).
Proof.
  intros Hne Hwf. unfold calculateHlsDuration, Js.splitLines, sumSeconds.
  rewrite split_join.
  - apply fold_addLineDuration, Hwf.
  - destruct pls; [congruence | discriminate].
  - rewrite forallb_forall. intros l Hl. apply in_map_iff in Hl as [pl [<- Hpl]].
    apply render_lacks_newline. rewrite forallb_forall in Hwf. apply Hwf, Hpl.
Qed.

End DeclaredDuration.

Lemma declared_durations_are_summed_witness :
  Background.calculateHlsDuration
    (Js.join (String Js.newline EmptyString) (map Props.render Cases.shortLines)) =
  Props.sumSeconds ["5.0"; "4.5"; "10.333"].
Proof.
  apply (declared_durations_are_summed Cases.shortLines).
  - discriminate.
  - reflexivity.
Defined.

(* ===================================================================== *)
(** ** More on enrichment: master playlists                               *)
(* ===================================================================== *)

Section MasterEnrichment.
Import MediaDetector Background JsNumber.

Variable resolveUrl : string -> string -> option string.
Variable parseUrl : string -> option UrlParts.
Variable httpGet httpHead : string -> FetchOutcome.
Variable parseInt10 : string -> option Z.


End MasterEnrichment.


(* ===================================================================== *)
(** ** More on the scan request                                           *)
(* ===================================================================== *)

Section ScanFacts.
Import Spec Props MediaDetector UrlUtils Background.

Variable resolveUrl : string -> string -> option string.
Variable parseUrl : string -> option UrlParts.
Variable httpGet httpHead : string -> FetchOutcome.
Variable parseInt10 : string -> option Z.
Variable tabsGet : Z -> option Tab.
Variable executeScript : Z -> bool.
Variable extractDomMedia : Z -> option (list MediaItem).

Local Abbreviation enrich := (enrichItem resolveUrl parseUrl httpGet httpHead parseInt10).
Local Abbreviation enrichAll :=
  (enrichResults resolveUrl parseUrl httpGet httpHead parseInt10).
Local Abbreviation scan :=
  (onMessage resolveUrl parseUrl httpGet httpHead parseInt10
             tabsGet executeScript extractDomMedia).

(** X16.  The pages that [isProtectedUrl] turns away are those without a
    url, those with an empty one, and those whose url starts with one of the
    five protected schemes; every other page, a web page or a local file, is
    let through. *)
Theorem isProtectedUrl_iff (u : string) :
  isProtectedUrl None = true /\
  (isProtectedUrl (Some u) = true <-> u = EmptyString \/ protectedScheme u).
Proof.
  split; [reflexivity|]. unfold isProtectedUrl. destruct u as [|c u].
  - cbn. split; auto.
  - cbn [Js.truthy]. rewrite !orb_true_iff, !startsWith_spec.
    unfold protectedScheme, protectedPrefixes. split.
    + intros [[[[[rest H] | [rest H]] | [rest H]] | [rest H]] | [rest H]];
        right; eexists; exists rest; (split; [|exact H]); cbn; auto 6.
    + intros [H | [p [rest [Hp H]]]]; [discriminate|].
      cbn [In] in Hp.
      destruct Hp as [<- | [<- | [<- | [<- | [<- | []]]]]]; eauto 8.
Qed.

Lemma enrich_url (item : MediaItem) : url (enrich item) = url item.
Proof.
  unfold enrichItem, enrichSize, enrichHls.
  repeat match goal with
         | |- context [match ?x with _ => _ end] => destruct x
         end; reflexivity.
Qed.

Lemma enrichAll_urls (l : list MediaItem) : map url (enrichAll l) = map url l.
Proof.
  unfold enrichResults. induction l as [|x l IH]; [reflexivity|].
  cbn [map]. rewrite enrich_url, IH. reflexivity.
Qed.

Lemma enrichKept_urls (seen : gset string) (l : list MediaItem) :
  map url (enrichKept resolveUrl parseUrl httpGet httpHead parseInt10 seen l) = map url l.
Proof.
  revert seen; induction l as [|x l IH]; intros seen; [reflexivity|].
  cbn [enrichKept]. destruct (decide (url x ∈ seen)); cbn [map];
    rewrite ?enrich_url, IH; reflexivity.
Qed.

(** The runs of the handler, one by one. *)
Lemma scan_cases (message : Message) (senderTabId : option Z) (tabMediaCache : Cache) :
  action message = "scan_page" ->
  let run := scan message senderTabId tabMediaCache in
  (exists e, response run = Some (ScanFailed e) /\
             cacheAfterScan run = tabMediaCache /\
             forall t, ~ In (CacheGet t) (calls run)) \/
  (exists id tab,
     requestedTab message senderTabId = Some id /\ id <> 0%Z /\
     tabsGet id = Some tab /\ isProtectedUrl (tabUrl tab) = false /\
     executeScript id = true /\
     response run =
       Some (ScanResults
               (enrichAll (mergeAndDeduplicate (default [] (extractDomMedia id))
                                               (default [] (tabMediaCache !! id))))) /\
     cacheAfterScan run =
       match tabMediaCache !! id with
       | Some cached =>
           <[id := enrichKept resolveUrl parseUrl httpGet httpHead parseInt10
                     (list_to_set (map url (default [] (extractDomMedia id)))) cached]>
             tabMediaCache
       | None => tabMediaCache
       end).
Proof.
  intros Hact run. subst run. unfold onMessage. rewrite Hact.
  cbn [String.eqb Ascii.eqb Bool.eqb].
  destruct (requestedTab message senderTabId) as [id|] eqn:Ereq.
  - cbn [truthyId]. destruct (Z.eqb_spec id 0) as [-> | Hid]; cbn [negb].
    + left. eexists. cbn. repeat split. intros t [].
    + destruct (tabsGet id) as [tab|] eqn:Etab.
      * destruct (isProtectedUrl (tabUrl tab)) eqn:Eprot.
        -- left. eexists. cbn. repeat split. intros t [H | []]. discriminate.
        -- destruct (executeScript id) eqn:Einj.
           ++ right. exists id, tab. cbn. repeat split; try assumption; reflexivity.
           ++ left. eexists. cbn. repeat split.
              intros t [H | [H | []]]; discriminate.
      * left. eexists. cbn. repeat split. intros t [H | []]. discriminate.
  - left. eexists. cbn. repeat split. intros t [].
Qed.

(** X17.  What the answer to a [scan_page] request is, when one is sent
    (whether one is sent is not said here: the requests of enrichment are
    taken to settle).  An answer with an error leaves the cache as it was and
    comes without a reading of it; an answer with results comes for a tab
    that is there, not protected, and took the script, and its results are
    the enriched merge of what the content script sent (nothing, if it did
    not answer) and what the cache holds for the tab. *)
Theorem scan_answer_is_justified (message : Message) (senderTabId : option Z)
        (tabMediaCache : Cache) :
  action message = "scan_page" ->
  let run := scan message senderTabId tabMediaCache in
  match response run with
  | Some (ScanFailed _) =>
      cacheAfterScan run = tabMediaCache /\ forall t, ~ In (CacheGet t) (calls run)
  | Some (ScanResults results) =>
      exists id tab,
        requestedTab message senderTabId = Some id /\ id <> 0%Z /\
        tabsGet id = Some tab /\ isProtectedUrl (tabUrl tab) = false /\
        executeScript id = true /\
        results = enrichAll (mergeAndDeduplicate (default [] (extractDomMedia id))
                                                 (default [] (tabMediaCache !! id)))
  | None => True
  end.
Proof.
  intros Hact run.
  destruct (scan_cases message senderTabId tabMediaCache Hact)
    as [[e [Hr [Hc Hn]]] | [id [tab [H1 [H2 [H3 [H4 [H5 [Hr _]]]]]]]]];
    fold run in Hr |- *; rewrite Hr.
  - split; assumption.
  - exists id, tab. repeat split; assumption.
Qed.

(** A message that is no scan request gets no answer and changes nothing. *)
Lemma other_message_ignored (message : Message) (senderTabId : option Z)
      (tabMediaCache : Cache) :
  action message <> "scan_page" ->
  scan message senderTabId tabMediaCache =
  {| response := None; cacheAfterScan := tabMediaCache; calls := [] |}.
Proof.
  intros H. unfold onMessage.
  destruct (String.eqb_spec (action message) "scan_page"); [contradiction | reflexivity].
Qed.

(** X18.  A scan leaves the urls of the store as they are: for every tab,
    the array after the scan has the urls of the array before, in the same
    order; the scan adds no observation, drops none and moves none. *)
Theorem scan_keeps_store_urls (message : Message) (senderTabId : option Z)
        (tabMediaCache : Cache) (t : Z) :
  map url <$> (cacheAfterScan (scan message senderTabId tabMediaCache) !! t) =
  map url <$> (tabMediaCache !! t).
Proof.
  destruct (String.eqb_spec (action message) "scan_page") as [Hact | Hact].
  - destruct (scan_cases message senderTabId tabMediaCache Hact)
      as [[e [_ [Hc _]]] | [id [tab [_ [_ [_ [_ [_ [_ Hc]]]]]]]]];
      cbn zeta in Hc; rewrite Hc; [reflexivity|].
    destruct (tabMediaCache !! id) as [cached|] eqn:Ec; [|reflexivity].
    destruct (decide (t = id)) as [-> | Hne].
    + rewrite lookup_insert_eq, Ec. cbn. rewrite enrichKept_urls. reflexivity.
    + rewrite lookup_insert_ne by congruence. reflexivity.
  - rewrite (other_message_ignored _ _ _ Hact). reflexivity.
Qed.

(** X19.  The results of a scan hold every url once, and their urls are
    those that the content script sent and those that the cache holds for
    the tab, none more and none less. *)
Theorem scan_results_distinct (message : Message) (senderTabId : option Z)
        (tabMediaCache : Cache) :
  match response (scan message senderTabId tabMediaCache),
        requestedTab message senderTabId with
  | Some (ScanResults results), Some id =>
      List.NoDup (map url results) /\
      forall u, In u (map url results) <->
                In u (map url (default [] (extractDomMedia id))) \/
                In u (map url (default [] (tabMediaCache !! id)))
  | _, _ => True
  end.
Proof.
  destruct (String.eqb_spec (action message) "scan_page") as [Hact | Hact].
  - destruct (scan_cases message senderTabId tabMediaCache Hact)
      as [[e [Hr _]] | [id [tab [Hreq [_ [_ [_ [_ [Hr _]]]]]]]]];
      cbn zeta in Hr; rewrite Hr;
      [destruct (requestedTab message senderTabId); exact I|].
    rewrite Hreq, enrichAll_urls, mergeAndDeduplicate_concat. unfold deduplicateMedia.
    split; [apply filterUnseen_NoDup|]. intros u. split.
    + intros Hu. apply in_map_iff in Hu as [x [<- Hx]].
      apply filterUnseen_In in Hx as [Hx _]. apply in_app_or in Hx as [Hx | Hx];
        [left | right]; apply in_map, Hx.
    + intros Hu.
      assert (Hin : In u (map url (default [] (extractDomMedia id)
                                   ++ default [] (tabMediaCache !! id))))
        by (rewrite map_app; apply in_or_app, Hu).
      destruct (filterUnseen_complete ∅ _ _ Hin) as [He | Hf]; [set_solver | exact Hf].
  - rewrite (other_message_ignored _ _ _ Hact). cbn. exact I.
Qed.

End ScanFacts.

Lemma scan_answer_is_justified_witness :
  let run := Fixture.scan (Fixture.scanRequest 8) None ∅ in
  match Background.response run with
  | Some (Background.ScanFailed _) =>
      Background.cacheAfterScan run = ∅ /\
      forall t, ~ In (Background.CacheGet t) (Background.calls run)
  | Some (Background.ScanResults results) =>
      exists id tab,
        Background.requestedTab (Fixture.scanRequest 8) None = Some id /\ id <> 0%Z /\
        Fixture.tabsGet id = Some tab /\
        MediaDetector.isProtectedUrl (Background.tabUrl tab) = false /\
        Fixture.executeScript id = true /\
        results =
          Background.enrichResults Fixture.resolveUrl Fixture.parseUrl Fixture.httpGet
            Fixture.httpHead Fixture.parseInt10
            (Background.mergeAndDeduplicate (default [] (Fixture.extractDomMedia id))
                                            (default [] ((∅ : Background.Cache) !! id)))
  | None => True
  end.
Proof.
  apply (scan_answer_is_justified Fixture.resolveUrl Fixture.parseUrl Fixture.httpGet
           Fixture.httpHead Fixture.parseInt10 Fixture.tabsGet Fixture.executeScript
           Fixture.extractDomMedia (Fixture.scanRequest 8) None ∅).
  reflexivity.
Defined.

(* ===================================================================== *)
(** ** The listener and the scan together                                 *)
(* ===================================================================== *)

Section ListenerAndScan.
Import Spec Props MediaDetector UrlUtils Background.

Variable resolveUrl : string -> string -> option string.
Variable parseUrl : string -> option UrlParts.
Variable httpGet httpHead : string -> FetchOutcome.
Variable parseInt10 : string -> option Z.
Variable tabsGet : Z -> option Tab.
Variable executeScript : Z -> bool.
Variable extractDomMedia : Z -> option (list MediaItem).

(** X20.  When the content script does not answer, a scan of an open tab
    gives, enriched and in the order of their arrival, exactly the
    observations that the listener has kept for the tab: the scan falls back
    on the network alone and loses nothing of it. *)
Theorem scan_falls_back_on_network
        (evs : list BrowserEvent) (message : Message) (senderTabId : option Z)
        (tid : Z) (tab : Tab) :
  action message = "scan_page" ->
  requestedTab message senderTabId = Some tid -> tid <> 0%Z ->
  tabsGet tid = Some tab -> isProtectedUrl (tabUrl tab) = false ->
  executeScript tid = true -> extractDomMedia tid = None ->
  response (onMessage resolveUrl parseUrl httpGet httpHead parseInt10
                      tabsGet executeScript extractDomMedia
                      message senderTabId (cacheAfter evs)) =
  Some (ScanResults
          (enrichResults resolveUrl parseUrl httpGet httpHead parseInt10
                         (default [] (cacheAfter evs !! tid)))).
Proof.
  intros Hact Hreq Hid Htab Hprot Hinj Hdom. unfold onMessage.
  rewrite Hact. cbn [String.eqb Ascii.eqb Bool.eqb].
  rewrite Hreq. cbn [truthyId]. destruct (Z.eqb_spec tid 0); [contradiction|].
  cbn [negb]. rewrite Htab, Hprot, Hinj, Hdom. cbn [response default from_option id].
  do 3 f_equal. rewrite mergeAndDeduplicate_concat. cbn [app].
  unfold deduplicateMedia. apply filterUnseen_id; [|set_solver].
  destruct (cacheAfter evs !! tid) as [l|] eqn:E; cbn; [|constructor].
  apply (wellKept_cacheAfter evs tid l E).
Qed.

End ListenerAndScan.

Lemma scan_falls_back_on_network_witness :
  Background.response
    (Cases.scanWithoutDom (Fixture.scanRequest 8) None
                          (Background.cacheAfter Cases.tabEightEvents)) =
  Some (Background.ScanResults
          (Background.enrichResults Fixture.resolveUrl Fixture.parseUrl Fixture.httpGet
             Fixture.httpHead Fixture.parseInt10
             (default [] (Background.cacheAfter Cases.tabEightEvents !! 8%Z)))).
Proof.
  apply (scan_falls_back_on_network Fixture.resolveUrl Fixture.parseUrl Fixture.httpGet
           Fixture.httpHead Fixture.parseInt10 Fixture.tabsGet Fixture.executeScript
           Cases.noAnswer Cases.tabEightEvents (Fixture.scanRequest 8) None 8
           {| Background.tabUrl := Some "https://example.com/" |}).
  - reflexivity.
  - reflexivity.
  - lia.
  - reflexivity.
  - reflexivity.
  - reflexivity.
  - reflexivity.
Defined.

(* ===================================================================== *)
(** ** More on reconstruction: every run                                  *)
(* ===================================================================== *)

Section EveryRun.
Import Spec Props HlsDownloader.

Variable resolveUrl : string -> string -> option string.
Variable network : nat -> string -> FetchOutcome.

Local Abbreviation run := (downloadHlsStream resolveUrl network).

Lemma progress_step (op : bool) (i total : nat) (w : World) :
  (if op then emit (EvProgress i total) else ret tt) w =
  (Returned tt,
   {| clock := clock w;
      events := events w ++ (if op then [EvProgress i total] else []) |}).
Proof.
  destruct op; [reflexivity|]. unfold ret. rewrite app_nil_r. destruct w; reflexivity.
Qed.

(** Whatever the network and the signal do, the loop logs the reports and
    fetches of a first part of the urls, in their order, and of all of
    them when it returns. *)
Lemma fetchSegments_trace (op : bool) (signal : Signal) (remaining : list string)
      (i total : nat) (segments : list (list Byte.byte)) (w : World)
      (o : Outcome (list (list Byte.byte))) (w' : World) :
  fetchSegments network op signal remaining i total segments w = (o, w') ->
  exists j, j <= List.length remaining /\
    events w' = events w ++ loopEvents op i total (firstn j remaining) /\
    (forall bufs, o = Returned bufs -> j = List.length remaining).
Proof.
  revert i segments w; induction remaining as [|u rest IH]; intros i segments w.
  - cbn. intros H. injection H as <- <-. exists 0. cbn. rewrite app_nil_r. auto.
  - cbn [fetchSegments]. unfold bind at 1, aborted.
    destruct (abortedAt signal (clock w)) eqn:Ha.
    + intros H. injection H as <- <-. exists 0. cbn. rewrite app_nil_r.
      split; [lia|]. split; [reflexivity | discriminate].
    + unfold bind at 1. rewrite progress_step. unfold bind at 1, fetch.
      cbn [clock events]. rewrite Ha.
      assert (Hone : forall e,
                exists j, j <= List.length (u :: rest) /\
                  (events w ++ (if op then [EvProgress i total] else [])) ++ [EvFetch u] =
                  events w ++ loopEvents op i total (firstn j (u :: rest)) /\
                  (forall bufs, @Threw (list (list Byte.byte)) e = Returned bufs ->
                                j = List.length (u :: rest))).
      { intros e. exists 1. cbn [List.length firstn loopEvents]. split; [lia|].
        split; [rewrite <- app_assoc; reflexivity | discriminate]. }
      destruct (network (clock w) u) as [| |r].
      * intros H. injection H as <- <-. apply Hone.
      * intros H. injection H as <- <-. apply Hone.
      * destruct (ok r); cbn [negb].
        -- unfold bind at 1, readArrayBuffer. destruct (arrayBuffer r) as [b|].
           ++ unfold ret at 1. intros H. apply IH in H as [j [Hj [Hev Hret]]].
              exists (S j). cbn [List.length firstn loopEvents]. split; [lia|].
              split; [|intros bufs Hb; rewrite (Hret bufs Hb); reflexivity].
              rewrite Hev. cbn [events]. rewrite <- !app_assoc. reflexivity.
           ++ intros H. injection H as <- <-. apply Hone.
        -- intros H. injection H as <- <-. apply Hone.
Qed.

(** The loop and what follows it, on a list of segments that is not
    empty: an error after a first part of the segments, or all of them and
    the blob. *)
Lemma downloadSegments_shape (filename : string) (op : bool) (signal : Signal)
      (segs : list string) (w : World) (o : Outcome bool) (w' : World) :
  segs <> [] ->
  downloadSegments network filename op signal segs w = (o, w') ->
  let n := List.length segs in
  (exists j e, j <= n /\ o = Threw e /\
     events w' = events w ++ loopEvents op 0 n (firstn j segs)) \/
  (exists bufs, o = Returned true /\
     events w' =
       events w ++ loopEvents op 0 n segs ++ (if op then [EvProgress n n] else [])
       ++ [EvSave (downloadName filename) (concat bufs)]).
Proof.
  intros Hne. unfold downloadSegments.
  destruct segs as [|s0 segs']; [congruence|]. cbn [List.length Nat.eqb]. cbn zeta.
  unfold bind at 1.
  destruct (fetchSegments network op signal (s0 :: segs') 0 (S (List.length segs')) [] w)
    as [[bufs|e] w2] eqn:Ef;
    apply fetchSegments_trace in Ef as [j [Hj [Hev Hret]]].
  - rewrite (Hret bufs eq_refl), firstn_all in Hev.
    unfold bind at 1. rewrite progress_step.
    unfold joinAndDownload, blobOf, bind, emit, ret. cbn [fst snd clock events].
    intros H. injection H as <- <-. right. exists bufs. cbn [events].
    split; [reflexivity|]. rewrite Hev, <- !app_assoc. reflexivity.
  - intros H. injection H as <- <-. left. exists j, e. auto.
Qed.

(** The runs, one by one: the playlist is not reached; or it lists no
    segment that resolves; or the loop ends on an error after the reports
    and fetches of a first part of the segments; or all segments come and
    the blob is handed over. *)
Lemma run_shape (u filename : string) (op : bool) (signal : Signal) :
  let result := run u filename op signal start in
  (exists e w1,
     resolvePlaylist resolveUrl network u signal start = (Threw e, w1) /\
     fst result = Threw e /\
     events (snd result) = events w1 ++ [EvDownloadError e]) \/
  (exists currentUrl playlist w1,
     resolvePlaylist resolveUrl network u signal start =
       (Returned (currentUrl, playlist), w1) /\
     let segs := segmentUrlsOf resolveUrl playlist currentUrl in
     let n := List.length segs in
     let skipped := map EvInvalidSegment
                        (unresolvedLines resolveUrl (Js.splitLines playlist) currentUrl) in
     (segs = [] /\
      fst result = Threw (Error "No segments found in manifest") /\
      events (snd result) =
        events w1 ++ skipped ++ [EvDownloadError (Error "No segments found in manifest")]) \/
     (0 < n /\ exists j e,
        j <= n /\ fst result = Threw e /\
        events (snd result) =
          events w1 ++ skipped ++ loopEvents op 0 n (firstn j segs)
          ++ [EvDownloadError e]) \/
     (0 < n /\ exists bufs,
        fst result = Returned true /\
        events (snd result) =
          events w1 ++ skipped ++ loopEvents op 0 n segs
          ++ (if op then [EvProgress n n] else [])
          ++ [EvSave (downloadName filename) (concat bufs)])).
Proof.
  intros result.
  destruct (resolvePlaylist resolveUrl network u signal start) as [[[cur pl]|e] w1] eqn:Ep.
  - right. exists cur, pl, w1. split; [reflexivity|]. intros segs n skipped.
    subst result. rewrite (resolved_front resolveUrl network u filename op signal cur pl w1 Ep).
    fold segs. fold skipped. unfold tryCatch.
    destruct (decide (segs = [])) as [Hnil|Hne].
    + left. rewrite Hnil. cbn. rewrite <- app_assoc. auto.
    + right.
      assert (Hn : 0 < n) by (subst n; destruct segs; [congruence | cbn; lia]).
      destruct (downloadSegments network filename op signal segs
                  {| clock := clock w1; events := events w1 ++ skipped |}) as [o w2] eqn:Ed.
      destruct (downloadSegments_shape filename op signal segs _ o w2 Hne Ed)
        as [[j [e [Hj [Hr Hev]]]] | [bufs [Hr Hev]]]; fold n in Hj || idtac; fold n in Hev;
        cbn [events] in Hev; subst o.
      * left. split; [exact Hn|]. exists j, e.
        unfold rethrow, bind, emit, throw. cbn [fst snd clock events].
        split; [exact Hj|]. split; [reflexivity|]. rewrite Hev, <- !app_assoc. reflexivity.
      * right. split; [exact Hn|]. exists bufs. cbn [fst snd].
        split; [reflexivity|]. rewrite Hev, <- !app_assoc. reflexivity.
  - left. exists e, w1. split; [reflexivity|]. subst result.
    assert (Hrun : run u filename op signal start =
                   (Threw e, {| clock := clock w1;
                                events := events w1 ++ [EvDownloadError e] |})).
    { unfold downloadHlsStream, tryCatch. unfold bind at 1. rewrite Ep. reflexivity. }
    rewrite Hrun. cbn. auto.
Qed.

Lemma saves_last_save evs name blob : saves (evs ++ [EvSave name blob]) = saves evs ++ [(name, blob)].
Proof. rewrite saves_app. reflexivity. Qed.

Lemma saves_last_error evs e : saves (evs ++ [EvDownloadError e]) = saves evs.
Proof. rewrite saves_app. cbn. apply app_nil_r. Qed.

(** X21.  Whatever the network and the signal do, a run that throws hands
    nothing over, and its last act is to log the error that it throws; a run
    that returns returns [true] and hands over one blob, under the file name
    with its [.ts] ending, as its last act. *)
Theorem failed_run_saves_nothing (u filename : string) (op : bool) (signal : Signal) :
  let result := run u filename op signal start in
  match fst result with
  | Returned b =>
      b = true /\
      exists blob, saves (events (snd result)) = [(downloadName filename, blob)] /\
                   last (events (snd result)) = Some (EvSave (downloadName filename) blob)
  | Threw e =>
      saves (events (snd result)) = [] /\
      last (events (snd result)) = Some (EvDownloadError e)
  end.
Proof.
  intros result.
  destruct (run_shape u filename op signal)
    as [[e [w1 [Hp [Hr Hev]]]] | [cur [pl [w1 [Hp H]]]]]; fold result in Hr, Hev || fold result in H.
  - rewrite Hr, Hev. destruct (resolvePlaylist_log _ _ _ _ _ _ _ Hp) as [Hs _].
    cbn [start events] in Hs. rewrite saves_last_error, Hs, last_snoc. auto.
  - destruct (resolvePlaylist_log _ _ _ _ _ _ _ Hp) as [Hs _]. cbn [start events] in Hs.
    cbn zeta in H.
    destruct H as [[_ [Hr Hev]] | [[_ [j [e [_ [Hr Hev]]]]] | [_ [bufs [Hr Hev]]]]];
      rewrite Hr, Hev.
    + rewrite !app_assoc, saves_last_error, last_snoc, saves_app, saves_invalid, Hs. auto.
    + rewrite !app_assoc, saves_last_error, last_snoc, !saves_app, saves_invalid,
        saves_loop, Hs. auto.
    + split; [reflexivity|]. exists (concat bufs).
      rewrite !app_assoc, saves_last_save, last_snoc, !saves_app, saves_invalid,
        saves_loop, Hs. split; [|reflexivity]. destruct op; reflexivity.
Qed.

(** X22.  Whatever the network and the signal do, the segments that a run
    fetches are a first part of the segment list of its playlist, in the
    order of the lines: no line is passed over and none is fetched before
    the one above it; they are the whole list when the run returns. *)
Theorem segments_fetched_in_order
        (u filename : string) (op : bool) (signal : Signal)
        (currentUrl playlist : string) (w1 : World) :
  resolvePlaylist resolveUrl network u signal start = (Returned (currentUrl, playlist), w1) ->
  let result := run u filename op signal start in
  let segs := segmentUrlsOf resolveUrl playlist currentUrl in
  exists j, j <= List.length segs /\
    fetches (events (snd result)) = fetches (events w1) ++ firstn j segs /\
    (fst result = Returned true -> j = List.length segs).
Proof.
  intros Hp result segs.
  destruct (run_shape u filename op signal)
    as [[e [w0 [Hp' _]]] | [cur [pl [w0 [Hp' H]]]]]; [congruence|].
  rewrite Hp in Hp'. injection Hp' as <- <- <-. cbn zeta in H. fold segs result in H.
  destruct H as [[Hnil [Hr Hev]] | [[_ [j [e [Hj [Hr Hev]]]]] | [_ [bufs [Hr Hev]]]]];
    rewrite Hev, Hr.
  - exists 0. rewrite Hnil. cbn [List.length firstn]. split; [lia|]. split; [|discriminate].
    rewrite !fetches_app, fetches_invalid. cbn. rewrite !app_nil_r. reflexivity.
  - exists j. split; [exact Hj|]. split; [|discriminate].
    rewrite !fetches_app, fetches_invalid, fetches_loop. cbn. rewrite !app_nil_r.
    reflexivity.
  - exists (List.length segs). split; [lia|]. split; [|reflexivity].
    rewrite !fetches_app, fetches_invalid, fetches_loop, firstn_all.
    destruct op; cbn; rewrite !app_nil_r; reflexivity.
Qed.

Lemma reports_loop_any (op : bool) (i n : nat) (urls : list string) :
  reports (loopEvents op i n urls) =
  if op then map (fun k => (k, n)) (seq i (List.length urls)) else [].
Proof.
  destruct op; [apply reports_loop|].
  revert i; induction urls as [|s rest IH]; intros i; [reflexivity|].
  cbn [loopEvents app]. cbn. apply IH.
Qed.

(** X23.  Whatever the network and the signal do, the reports of a run
    are [(0, n)], [(1, n)] and so on without a gap, for one total [n] that
    is not zero when there is a report, and they stop at [(n, n)] at the
    latest: the fraction that the caller shows never goes back, never passes
    one, and is never taken of zero. *)
Theorem reports_count_up (u filename : string) (op : bool) (signal : Signal) :
  exists n m,
    m <= S n /\ (m = 0 \/ 0 < n) /\
    reports (events (snd (run u filename op signal start))) =
      map (fun k => (k, n)) (seq 0 m).
Proof.
  destruct (run_shape u filename op signal)
    as [[e [w1 [Hp [_ Hev]]]] | [cur [pl [w1 [Hp H]]]]];
    destruct (resolvePlaylist_log _ _ _ _ _ _ _ Hp) as [_ Hrp]; cbn [start events] in Hrp.
  - exists 0, 0. rewrite Hev, reports_app, Hrp. cbn. auto.
  - cbn zeta in H. set (segs := segmentUrlsOf resolveUrl pl cur) in *.
    destruct H as [[_ [_ Hev]] | [[Hn [j [e [Hj [_ Hev]]]]] | [Hn [bufs [_ Hev]]]]];
      rewrite Hev, !reports_app, reports_invalid, Hrp.
    + exists 0, 0. cbn. auto.
    + rewrite reports_loop_any. destruct op.
      * exists (List.length segs), (List.length (firstn j segs)).
        rewrite length_firstn. split; [lia|]. split; [right; exact Hn|].
        cbn. rewrite app_nil_r. reflexivity.
      * exists 0, 0. cbn. auto.
    + rewrite reports_loop_any. destruct op.
      * exists (List.length segs), (S (List.length segs)).
        split; [lia|]. split; [right; exact Hn|].
        cbn [reports flat_map app]. rewrite seq_S, map_app. reflexivity.
      * exists 0, 0. cbn. auto.
Qed.


Lemma findStreamPath_none (lines : list string) :
  (forall l, In l lines -> Js.startsWith l "#EXT-X-STREAM-INF" = false) ->
  Playlist.findStreamPath lines = None.
Proof.
  induction lines as [|l rest IH]; intros H; [reflexivity|].
  cbn [Playlist.findStreamPath]. rewrite (H l (or_introl eq_refl)).
  apply IH. intros l' Hl'. apply H. right. exact Hl'.
Qed.

(** X25.  The manifest is taken for a master playlist when the tag
    [#EXT-X-STREAM-INF] stands anywhere in it, but a stream is looked for
    only after a line that starts with the tag: when the tag starts no line
    (it is indented, say), the run ends with [No streams found in master
    playlist] after the one fetch of the manifest, and hands nothing over. *)
Theorem master_without_stream
        (u filename : string) (op : bool) (signal : Signal) (masterText : string) :
  servesText network signal 0 u masterText ->
  Js.includes masterText "#EXT-X-STREAM-INF" = true ->
  (forall l, In l (Js.splitLines masterText) ->
             Js.startsWith l "#EXT-X-STREAM-INF" = false) ->
  run u filename op signal start =
  (Threw (Error "No streams found in master playlist"),
   {| clock := 1;
      events := [EvFetch u;
                 EvDownloadError (Error "No streams found in master playlist")] |}).
Proof.
  intros [r [Hr Ht]] Hinc Hlines. unfold downloadHlsStream, tryCatch, resolvePlaylist.
  unfold bind at 1. unfold bind at 1. rewrite (fetch_ok network signal u r start Hr).
  destruct Hr as [_ [_ Hok]]. rewrite Hok. cbn [negb].
  unfold bind at 1, readText. rewrite Ht. unfold ret at 1, followMaster.
  rewrite Hinc, (findStreamPath_none _ Hlines). reflexivity.
Qed.

(** X26.  When the manifest comes with a status that is not [ok], the run
    ends with [Failed to fetch manifest] after that one fetch: no playlist
    is read, no segment fetched, nothing reported or handed over. *)
Theorem manifest_not_ok (u filename : string) (op : bool) (signal : Signal) :
  fetchFails network signal 0 u ->
  run u filename op signal start =
  (Threw (Error "Failed to fetch manifest"),
   {| clock := 1;
      events := [EvFetch u; EvDownloadError (Error "Failed to fetch manifest")] |}).
Proof.
  intros [r [Ha [Hn Hok]]]. unfold downloadHlsStream, tryCatch, resolvePlaylist.
  unfold bind at 1. unfold bind at 1. unfold fetch. cbn [clock events start].
  rewrite Ha, Hn, Hok. reflexivity.
Qed.

(** X27.  When the fetch of a segment comes with a status that is not
    [ok], the run ends with [Failed to fetch segment i], [i] being the index
    of the segment: the segments after it are not fetched and the buffers of
    those before it are handed to nobody. *)
Theorem segment_failure_ends_run
        (u filename : string) (op : bool) (signal : Signal)
        (currentUrl playlist : string) (w1 : World)
        (done : list string) (failing : string) (later : list string)
        (bufs : list (list Byte.byte)) :
  resolvePlaylist resolveUrl network u signal start = (Returned (currentUrl, playlist), w1) ->
  segmentUrlsOf resolveUrl playlist currentUrl = done ++ failing :: later ->
  served network signal (clock w1) done bufs ->
  fetchFails network signal (clock w1 + List.length done) failing ->
  let result := run u filename op signal start in
  fst result =
    Threw (Error ("Failed to fetch segment " ++ Js.showNat (List.length done))%string) /\
  fetches (events (snd result)) = fetches (events w1) ++ done ++ [failing] /\
  saves (events (snd result)) = [].
Proof.
  intros Hp Hsegs Hs Hfail result. subst result.
  rewrite (resolved_front resolveUrl network u filename op signal currentUrl playlist w1 Hp),
    Hsegs.
  unfold tryCatch.
  match goal with
  | |- context [downloadSegments _ _ _ _ _ ?w] =>
      rewrite (downloadSegments_failed network filename op signal done failing later bufs
                 w Hs Hfail)
  end.
  unfold rethrow, bind, emit, throw. cbn [fst snd clock events].
  split; [reflexivity|].
  destruct (resolvePlaylist_log _ _ _ _ _ _ _ Hp) as [Hsv _]. cbn [start events] in Hsv.
  rewrite !fetches_app, !saves_app, fetches_invalid, saves_invalid,
    fetches_loop, saves_loop, Hsv.
  cbn. rewrite !app_nil_r. split; reflexivity.
Qed.

End EveryRun.

Lemma segments_fetched_in_order_witness :
  let result := Fixture.download Fixture.missingUrl false None in
  let segs := Spec.segmentUrlsOf Fixture.resolveUrl Fixture.missingPlaylist Fixture.missingUrl in
  exists j, j <= List.length segs /\
    Spec.fetches (HlsDownloader.events (snd result)) =
      Spec.fetches [HlsDownloader.EvFetch Fixture.missingUrl] ++ firstn j segs /\
    (fst result = HlsDownloader.Returned true -> j = List.length segs).
Proof.
  apply (segments_fetched_in_order Fixture.resolveUrl Fixture.network
           Fixture.missingUrl "video" false None
           Fixture.missingUrl Fixture.missingPlaylist
           {| HlsDownloader.clock := 1;
              HlsDownloader.events := [HlsDownloader.EvFetch Fixture.missingUrl] |}).
  reflexivity.
Defined.


Lemma master_without_stream_witness :
  Cases.download Cases.indentedUrl true None =
  (HlsDownloader.Threw (Error "No streams found in master playlist"),
   {| HlsDownloader.clock := 1;
      HlsDownloader.events :=
        [HlsDownloader.EvFetch Cases.indentedUrl;
         HlsDownloader.EvDownloadError (Error "No streams found in master playlist")] |}).
Proof.
  apply (master_without_stream Fixture.resolveUrl Cases.network
           Cases.indentedUrl "video" true None Cases.indentedText).
  - eexists. split; [repeat split|]; reflexivity.
  - reflexivity.
  - intros l Hl. vm_compute in Hl. destruct Hl as [<- | [<- | [<- | []]]]; reflexivity.
Defined.

Lemma manifest_not_ok_witness :
  Fixture.download Cases.goneUrl true None =
  (HlsDownloader.Threw (Error "Failed to fetch manifest"),
   {| HlsDownloader.clock := 1;
      HlsDownloader.events :=
        [HlsDownloader.EvFetch Cases.goneUrl;
         HlsDownloader.EvDownloadError (Error "Failed to fetch manifest")] |}).
Proof.
  apply (manifest_not_ok Fixture.resolveUrl Fixture.network Cases.goneUrl "video" true None).
  eexists. repeat split; reflexivity.
Defined.

Lemma segment_failure_ends_run_witness :
  let result := Fixture.download Fixture.missingUrl false None in
  fst result = HlsDownloader.Threw (Error ("Failed to fetch segment " ++ Js.showNat 1)%string) /\
  Spec.fetches (HlsDownloader.events (snd result)) =
    Spec.fetches [HlsDownloader.EvFetch Fixture.missingUrl]
    ++ ["https://cdn.example.com/v/a.ts"] ++ ["https://cdn.example.com/v/gone.bin"] /\
  Spec.saves (HlsDownloader.events (snd result)) = [].
Proof.
  apply (segment_failure_ends_run Fixture.resolveUrl Fixture.network
           Fixture.missingUrl "video" false None
           Fixture.missingUrl Fixture.missingPlaylist
           {| HlsDownloader.clock := 1;
              HlsDownloader.events := [HlsDownloader.EvFetch Fixture.missingUrl] |}
           ["https://cdn.example.com/v/a.ts"] "https://cdn.example.com/v/gone.bin"
           ["https://cdn.example.com/v/c.ts"] [Fixture.bytesOf "a.ts"]).
  - reflexivity.
  - reflexivity.
  - split; [eexists; split; [repeat split|]; reflexivity | exact I].
  - eexists. repeat split; reflexivity.
Defined.

(* ===================================================================== *)
(** ** The results of the content script                                  *)
(* ===================================================================== *)

Section DomResults.
Import Spec ContentScript UrlUtils Background.

Variable resolveUrl : string -> string -> option string.
Variable baseURI : string.

Local Abbreviation add := (addUniqueMedia resolveUrl baseURI).
Local Abbreviation ok_call := (accepted resolveUrl baseURI).

Lemma addUniqueMedia_cases (seen : gset string) (results : list MediaItem) (c : Call) :
  (add (seen, results) c = (seen, results) /\
   forall a t, ok_call c a t -> a ∈ seen) \/
  (exists a t, ok_call c a t /\ (a ∉ seen) /\
     add (seen, results) c = ({[a]} ∪ seen, results ++ [domItem a t (callTag c)])).
Proof.
  unfold addUniqueMedia, accepted.
  destruct (refused (callUrl c)) eqn:Hr.
  { left. split; [reflexivity|]. intros a t [H _]. discriminate. }
  destruct (resolveUrl (callUrl c) baseURI) as [a|] eqn:Ha.
  2:{ left. split; [reflexivity|]. intros a t [_ [H _]]. discriminate. }
  destruct (decide (a ∈ seen)) as [Hs|Hs].
  { left. split; [reflexivity|]. intros a' t [_ [H _]]. injection H as <-. exact Hs. }
  destruct (detectedType c a) as [t|] eqn:Ht.
  - right. exists a, t. auto.
  - left. split; [reflexivity|]. intros a' t [_ [H H']]. injection H as <-. congruence.
Qed.

(** The loop of the walk keeps [seenUrls] the set of the urls of
    [results], and these distinct; it only adds items, each for a call that
    passes; and it leaves out the url of no call that passes. *)
Lemma extract_invariant (calls : list Call) (seen : gset string)
      (results : list MediaItem) :
  (forall u, u ∈ seen <-> In u (map url results)) ->
  List.NoDup (map url results) ->
  let st := fold_left add calls (seen, results) in
  (forall u, u ∈ fst st <-> In u (map url (snd st))) /\
  List.NoDup (map url (snd st)) /\
  (exists more, snd st = results ++ more /\
     forall x, In x more ->
       exists c, In c calls /\ ok_call c (url x) (type x) /\
                 x = domItem (url x) (type x) (callTag c)) /\
  (forall c a t, In c calls -> ok_call c a t -> In a (map url (snd st))).
Proof.
  revert seen results; induction calls as [|c rest IH]; intros seen results Hseen Hnd.
  - cbn. split; [exact Hseen|]. split; [exact Hnd|]. split.
    + exists []. rewrite app_nil_r. split; [reflexivity | intros x []].
    + intros c a t [].
  - cbn [fold_left].
    destruct (addUniqueMedia_cases seen results c) as [[-> Hc] | [a [t [Hok [Hfresh ->]]]]].
    + destruct (IH seen results Hseen Hnd) as [H1 [H2 [[more [H3 H4]] H5]]].
      split; [exact H1|]. split; [exact H2|]. split.
      * exists more. split; [exact H3|]. intros x Hx.
        destruct (H4 x Hx) as [c' [Hc' H]]. exists c'. split; [right; exact Hc' | exact H].
      * intros c' a t [<- | Hin] Hok; [|exact (H5 c' a t Hin Hok)].
        rewrite H3, map_app. apply in_or_app. left. apply Hseen, (Hc a t Hok).
    + assert (Hseen' : forall u, u ∈ {[a]} ∪ seen <->
                                 In u (map url (results ++ [domItem a t (callTag c)]))).
      { intros u. rewrite map_app, in_app_iff, elem_of_union, elem_of_singleton, Hseen.
        cbn. intuition congruence. }
      assert (Hnd' : List.NoDup (map url (results ++ [domItem a t (callTag c)]))).
      { rewrite map_app. apply List.NoDup_app; [exact Hnd | repeat constructor; intros [] |].
        intros u Hu [<- | []]. apply Hfresh, Hseen, Hu. }
      destruct (IH _ _ Hseen' Hnd') as [H1 [H2 [[more [H3 H4]] H5]]].
      split; [exact H1|]. split; [exact H2|]. split.
      * exists (domItem a t (callTag c) :: more). rewrite H3, <- app_assoc.
        split; [reflexivity|]. intros x [<- | Hx].
        -- exists c. split; [left; reflexivity|]. cbn. split; [exact Hok | reflexivity].
        -- destruct (H4 x Hx) as [c' [Hc' H]]. exists c'. split; [right; exact Hc' | exact H].
      * intros c' a' t' [<- | Hin] Hok'; [|exact (H5 c' a' t' Hin Hok')].
        rewrite H3, !map_app. apply in_or_app. left. apply in_or_app. right.
        destruct Hok as [_ [Ha _]], Hok' as [_ [Ha' _]]. rewrite Ha in Ha'.
        injection Ha' as <-. left. reflexivity.
Qed.

Lemma extract_spec (calls : list Call) :
  let results := extractMediaFromDOM resolveUrl baseURI calls in
  List.NoDup (map url results) /\
  (forall x, In x results ->
     exists c, In c calls /\ ok_call c (url x) (type x) /\
               x = domItem (url x) (type x) (callTag c)) /\
  (forall c a t, In c calls -> ok_call c a t -> In a (map url results)).
Proof.
  unfold extractMediaFromDOM.
  destruct (extract_invariant calls ∅ [])
    as [_ [H2 [[more [H3 H4]] H5]]]; [set_solver | constructor |].
  split; [exact H2|]. split; [|exact H5].
  intros x Hx. rewrite H3 in Hx. apply H4, Hx.
Qed.

(** X28.  Whatever calls the walk over the document makes, the urls of
    the results of the content script are distinct; each result is made for
    a call whose url is not empty, is no [javascript:], [data:] or [blob:]
    url, resolves against the base of the document to the url of the
    result, and has a type, the one passed or else the one that the patterns
    find in the resolved url; and the resolved url of every such call is
    among the results. *)
Theorem dom_results_distinct_and_typed (calls : list Call) :
  let results := extractMediaFromDOM resolveUrl baseURI calls in
  List.NoDup (map url results) /\
  (forall x, In x results ->
     source x = dom /\
     exists c, In c calls /\
       refused (callUrl c) = false /\
       resolveUrl (callUrl c) baseURI = Some (url x) /\
       detectedType c (url x) = Some (type x) /\
       tagName x = Some (callTag c)) /\
  (forall c a t,
     In c calls -> refused (callUrl c) = false ->
     resolveUrl (callUrl c) baseURI = Some a -> detectedType c a = Some t ->
     In a (map url results)).
Proof.
  intros results. destruct (extract_spec calls) as [H1 [H2 H3]]. fold results in H1, H2, H3.
  split; [exact H1|]. split.
  - intros x Hx. destruct (H2 x Hx) as [c [Hc [[Hr [Ha Ht]] Hx']]].
    split; [rewrite Hx'; reflexivity|]. exists c. repeat split; try assumption.
    rewrite Hx'. reflexivity.
  - intros c a t Hc Hr Ha Ht. apply (H3 c a t Hc). repeat split; assumption.
Qed.

(** X29.  The results of the content script come through the merge as
    they are, at the head of the merged list; what follows are items of the
    network whose url no result of the content script has. *)
Theorem dom_results_survive_merge (calls : list Call) (fromNetwork : list MediaItem) :
  let fromDom := extractMediaFromDOM resolveUrl baseURI calls in
  exists rest,
    mergeAndDeduplicate fromDom fromNetwork = fromDom ++ rest /\
    forall x, In x rest -> In x fromNetwork /\ ~ In (url x) (map url fromDom).
Proof.
  intros fromDom. destruct (extract_spec calls) as [Hnd _]. fold fromDom in Hnd.
  exists (filterUnseen (urlsOf fromDom ∪ ∅) fromNetwork). split.
  - rewrite mergeAndDeduplicate_concat. unfold deduplicateMedia.
    rewrite filterUnseen_app. f_equal. apply filterUnseen_id; [exact Hnd | set_solver].
  - intros x Hx. apply filterUnseen_In in Hx as [Hx Hn]. split; [exact Hx|].
    intros Hin. apply Hn, elem_of_union. left. apply urlsOf_In, Hin.
Qed.

End DomResults.

(* ===================================================================== *)
(** ** The name of the saved file                                         *)
(* ===================================================================== *)

Section SavedName.
Import HlsDownloader.

Lemma endsWith_app (s p : string) : Js.endsWith (s ++ p) p = true.
Proof.
  induction s as [|a s IH].
  - cbn [String.append]. destruct p; cbn [Js.endsWith]; rewrite String.eqb_refl; reflexivity.
  - cbn [String.append Js.endsWith]. rewrite IH. apply orb_true_r.
Qed.

Lemma append_length (s p : string) :
  String.length (s ++ p) = String.length s + String.length p.
Proof. induction s as [|a s IH]; cbn; [reflexivity | rewrite IH; reflexivity]. Qed.

(** X30.  The name under which the blob is saved ends in [.ts]; it is the
    name passed exactly when that one ends in [.ts] already, so that the
    ending is never doubled. *)
Theorem downloadName_ends_in_ts (filename : string) :
  Js.endsWith (downloadName filename) ".ts" = true /\
  (downloadName filename = filename <-> Js.endsWith filename ".ts" = true) /\
  downloadName (downloadName filename) = downloadName filename.
Proof.
  unfold downloadName. destruct (Js.endsWith filename ".ts") eqn:He.
  - rewrite He. split; [reflexivity|]. split; [tauto | reflexivity].
  - rewrite endsWith_app. split; [reflexivity|]. split; [|reflexivity]. split.
    + intros H. apply (f_equal String.length) in H. rewrite append_length in H.
      cbn in H. lia.
    + discriminate.
Qed.

End SavedName.

(* ===================================================================== *)
(** ** Progress and cancellation, whatever the network does               *)
(* ===================================================================== *)

Section ProgressAndCancellation.
Import Spec Props HlsDownloader.

Variable resolveUrl : string -> string -> option string.
Variable network : nat -> string -> FetchOutcome.

Local Abbreviation run := (downloadHlsStream resolveUrl network).

Lemma delivered_served (signal : Signal) (t : nat) (u : string) (b : list Byte.byte) :
  abortedAt signal t = false -> delivered (network t u) = Some b ->
  served network signal t [u] [b].
Proof.
  intros Ha Hd. cbn. split; [|exact I]. unfold delivered in Hd.
  destruct (network t u) as [| |r] eqn:Hn; try discriminate.
  destruct (ok r) eqn:Hok; [|discriminate]. exists r. repeat split; assumption.
Qed.

(** A fetch that delivers nothing ends the loop, right after it. *)
Lemma fetchSegments_undelivered (op : bool) (signal : Signal) (u : string)
      (rest : list string) (i total : nat) (segments : list (list Byte.byte)) (w : World) :
  abortedAt signal (clock w) = false ->
  delivered (network (clock w) u) = None ->
  exists e,
    fetchSegments network op signal (u :: rest) i total segments w =
    (Threw e,
     {| clock := S (clock w); events := events w ++ loopEvents op i total [u] |}).
Proof.
  intros Ha Hd. cbn [fetchSegments loopEvents]. unfold bind at 1, aborted. rewrite Ha.
  unfold bind at 1. rewrite progress_step. unfold bind at 1, fetch. cbn [clock events].
  rewrite Ha. unfold delivered in Hd.
  destruct (network (clock w) u) as [| |r].
  - eexists. rewrite <- app_assoc. reflexivity.
  - eexists. rewrite <- app_assoc. reflexivity.
  - destruct (ok r); cbn [negb].
    + unfold bind at 1, readArrayBuffer. rewrite Hd. eexists. rewrite <- app_assoc.
      reflexivity.
    + eexists. rewrite <- app_assoc. reflexivity.
Qed.

(** The loop, whatever the network and the signal do.  Some [k] of the urls
    are fetched and deliver; then the loop returns, all of them being
    fetched; or it reads the signal aborted before the next fetch; or the
    next fetch delivers nothing.  The log is the alternation of reports and
    fetches over the urls that were fetched. *)
Lemma fetchSegments_progress (op : bool) (signal : Signal) (remaining : list string) :
  forall (i total : nat) (segments : list (list Byte.byte)) (w : World),
  exists k bufs,
    k <= List.length remaining /\
    served network signal (clock w) (firstn k remaining) bufs /\
    ((k = List.length remaining /\
      fetchSegments network op signal remaining i total segments w =
      (Returned (segments ++ bufs),
       {| clock := clock w + k;
          events := events w ++ loopEvents op i total remaining |})) \/
     (k < List.length remaining /\
      abortedAt signal (clock w + k) = true /\
      fetchSegments network op signal remaining i total segments w =
      (Threw (Error "Download aborted"),
       {| clock := clock w + k;
          events := events w ++ loopEvents op i total (firstn k remaining) |})) \/
     (exists failing e,
        remaining !! k = Some failing /\
        abortedAt signal (clock w + k) = false /\
        delivered (network (clock w + k) failing) = None /\
        fetchSegments network op signal remaining i total segments w =
        (Threw e,
         {| clock := S (clock w + k);
            events := events w ++ loopEvents op i total (firstn (S k) remaining) |}))).
Proof.
  induction remaining as [|u rest IH]; intros i total segments w.
  - exists 0, []. split; [cbn; lia|]. split; [exact I|]. left. split; [reflexivity|].
    cbn. unfold ret. rewrite !app_nil_r, Nat.add_0_r. destruct w; reflexivity.
  - destruct (abortedAt signal (clock w)) eqn:Ha.
    + exists 0, []. split; [cbn; lia|]. split; [exact I|]. right; left.
      rewrite Nat.add_0_r. split; [cbn; lia|]. split; [exact Ha|].
      cbn [fetchSegments firstn loopEvents]. unfold bind at 1, aborted. rewrite Ha.
      unfold throw. rewrite app_nil_r. destruct w; reflexivity.
    + destruct (delivered (network (clock w) u)) as [b|] eqn:Hd.
      * pose proof (delivered_served signal (clock w) u b Ha Hd) as Hs1.
        pose proof (fetchSegments_served network op signal total [u] [b] rest i segments
                      w Hs1) as Hstep.
        cbn [app List.length] in Hstep.
        assert (Hcons : forall l,
                  events w ++ loopEvents op i total (u :: l) =
                  (events w ++ loopEvents op i total [u]) ++ loopEvents op (i + 1) total l).
        { intros l. change (u :: l) with ([u] ++ l).
          rewrite loopEvents_app, app_assoc. reflexivity. }
        destruct (IH (i + 1) total (segments ++ [b])
                     {| clock := clock w + 1;
                        events := events w ++ loopEvents op i total [u] |})
          as [k [bufs [Hk [Hs H]]]].
        cbn [clock events] in Hs, H.
        exists (S k), (b :: bufs). split; [cbn; lia|]. split.
        { cbn [firstn served]. split; [destruct Hs1 as [H1 _]; exact H1|].
          rewrite <- Nat.add_1_r. exact Hs. }
        rewrite Hstep. replace (clock w + S k) with (clock w + 1 + k) by lia.
        destruct H as [[-> Hrun] | [[Hlt [Hab Hrun]] | [failing [e [Hf [Hab [Hdl Hrun]]]]]]].
        -- left. split; [reflexivity|]. rewrite Hrun, (Hcons rest), <- app_assoc.
           reflexivity.
        -- right; left. split; [cbn; lia|]. split; [exact Hab|].
           rewrite Hrun. cbn [firstn]. rewrite (Hcons (firstn k rest)). reflexivity.
        -- right; right. exists failing, e. split; [exact Hf|]. split; [exact Hab|].
           split; [exact Hdl|]. rewrite Hrun. cbn [firstn].
           rewrite (Hcons (firstn (S k) rest)). reflexivity.
      * destruct (fetchSegments_undelivered op signal u rest i total segments w Ha Hd)
          as [e He].
        exists 0, []. split; [cbn; lia|]. split; [exact I|]. right; right.
        exists u, e. rewrite Nat.add_0_r. split; [reflexivity|]. split; [exact Ha|].
        split; [exact Hd|]. exact He.
Qed.

(** C8, as the code has it.  Take a run with a progress callback that has
    come to a playlist of [n] segments, [n] not zero; the network and the
    signal are any.  Some [k] of the segments are fetched with success, one
    after the other, and the log of the loop is the alternation: report
    [(0, n)], fetch of segment 0, report [(1, n)], fetch of segment 1, and so
    on.  So a report [(i, n)] is issued only after [i] fetches have
    succeeded, and, for [i < n], just before the fetch of the segment of
    index [i] starts; [(0, n)] comes before any segment is fetched.  The run
    ends in one of three ways.  All [n] segments have come: the report
    [(n, n)] follows the last fetch, then the blob; the reports are [(0, n)]
    to [(n, n)].  Or the signal is read aborted when [k < n] segments have
    come: the report [(k, n)] is not issued, the reports are [(0, n)] to
    [(k - 1, n)].  Or the fetch of the segment of index [k] delivers nothing
    (it rejects, or is not [ok], or its body cannot be read): no report
    follows that fetch, the reports are [(0, n)] to [(k, n)]. *)
Theorem progress_reported_before_each_fetch
        (u filename : string) (signal : Signal)
        (currentUrl playlist : string) (w1 : World) :
  resolvePlaylist resolveUrl network u signal start = (Returned (currentUrl, playlist), w1) ->
  let segs := segmentUrlsOf resolveUrl playlist currentUrl in
  let n := List.length segs in
  let skipped :=
    map EvInvalidSegment (unresolvedLines resolveUrl (Js.splitLines playlist) currentUrl) in
  let result := run u filename true signal start in
  segs <> [] ->
  exists k bufs,
    k <= n /\
    served network signal (clock w1) (firstn k segs) bufs /\
    ((k = n /\
      fst result = Returned true /\
      events (snd result) =
        events w1 ++ skipped ++ loopEvents true 0 n segs
        ++ [EvProgress n n; EvSave (downloadName filename) (concat bufs)] /\
      reports (events (snd result)) = map (fun i => (i, n)) (seq 0 (S n))) \/
     (k < n /\
      abortedAt signal (clock w1 + k) = true /\
      fst result = Threw (Error "Download aborted") /\
      events (snd result) =
        events w1 ++ skipped ++ loopEvents true 0 n (firstn k segs)
        ++ [EvDownloadError (Error "Download aborted")] /\
      reports (events (snd result)) = map (fun i => (i, n)) (seq 0 k)) \/
     (exists failing e,
        segs !! k = Some failing /\
        abortedAt signal (clock w1 + k) = false /\
        delivered (network (clock w1 + k) failing) = None /\
        fst result = Threw e /\
        events (snd result) =
          events w1 ++ skipped ++ loopEvents true 0 n (firstn (S k) segs)
          ++ [EvDownloadError e] /\
        reports (events (snd result)) = map (fun i => (i, n)) (seq 0 (S k)))).
Proof.
  intros Hp segs n skipped result Hne.
  pose proof (resolved_front resolveUrl network u filename true signal currentUrl playlist
                w1 Hp) as Hrun.
  fold segs skipped result in Hrun.
  destruct (resolvePlaylist_log _ _ _ _ _ _ _ Hp) as [_ Hrp]. cbn [start events] in Hrp.
  set (w := {| clock := clock w1; events := events w1 ++ skipped |}) in Hrun.
  assert (Hds : forall o w',
            fetchSegments network true signal segs 0 n [] w = (o, w') ->
            result =
            match o with
            | Returned bufs =>
                (Returned true,
                 {| clock := clock w';
                    events := (events w' ++ [EvProgress n n])
                              ++ [EvSave (downloadName filename) (concat bufs)] |})
            | Threw e =>
                (Threw e, {| clock := clock w'; events := events w' ++ [EvDownloadError e] |})
            end).
  { intros o w' Hf. rewrite Hrun. unfold tryCatch, downloadSegments.
    destruct (List.length segs =? 0)%nat eqn:E.
    { apply Nat.eqb_eq, List.length_zero_iff_nil in E. congruence. }
    cbn zeta. unfold bind at 1. fold n. rewrite Hf. destruct o as [bufs|e]; reflexivity. }
  destruct (fetchSegments_progress true signal segs 0 n [] w)
    as [k [bufs [Hk [Hs H]]]].
  exists k, bufs. split; [exact Hk|]. split; [exact Hs|].
  destruct H as [[Hkn Hf] | [[Hlt [Hab Hf]] | [failing [e [Hl [Hab [Hdl Hf]]]]]]];
    rewrite (Hds _ _ Hf); cbn [fst snd clock events app w].
  - left. split; [exact Hkn|]. split; [reflexivity|]. split.
    + rewrite <- !app_assoc. reflexivity.
    + unfold skipped. rewrite !reports_app, reports_invalid, reports_loop, Hrp. fold n.
      cbn [reports flat_map app]. rewrite seq_S, map_app, app_nil_r. reflexivity.
  - right; left. split; [exact Hlt|]. split; [exact Hab|]. split; [reflexivity|]. split.
    + rewrite <- !app_assoc. reflexivity.
    + unfold skipped. rewrite !reports_app, reports_invalid, reports_loop, Hrp, length_firstn.
      cbn [reports flat_map app]. rewrite app_nil_r. fold n.
      replace (Nat.min k n) with k by lia. reflexivity.
  - right; right. exists failing, e. split; [exact Hl|]. split; [exact Hab|].
    split; [exact Hdl|]. split; [reflexivity|]. split.
    + rewrite <- !app_assoc. reflexivity.
    + unfold skipped. rewrite !reports_app, reports_invalid, reports_loop, Hrp, length_firstn.
      cbn [reports flat_map app]. rewrite app_nil_r. fold n.
      apply lookup_lt_Some in Hl. fold n in Hl.
      replace (Nat.min (S k) n) with (S k) by lia. reflexivity.
Qed.

(** A fetch that is in flight when its signal is aborted rejects with
    [AbortError], and the loop ends there. *)
Lemma downloadSegments_cancelled (filename : string) (op : bool) (signal : Signal)
      (done : list string) (pending : string) (later : list string)
      (bufs : list (list Byte.byte)) (w : World) :
  served network signal (clock w) done bufs ->
  abortedAt signal (clock w + List.length done) = false ->
  network (clock w + List.length done) pending = Cancelled ->
  downloadSegments network filename op signal (done ++ pending :: later) w =
  (Threw AbortError,
   {| clock := S (clock w + List.length done);
      events := events w
                ++ loopEvents op 0 (List.length (done ++ pending :: later))
                              (done ++ [pending]) |}).
Proof.
  intros Hs Ha Hn. unfold downloadSegments.
  destruct (List.length (done ++ pending :: later) =? 0)%nat eqn:E.
  { apply Nat.eqb_eq in E. rewrite length_app in E. cbn in E. lia. }
  unfold bind at 1.
  rewrite (fetchSegments_served network op signal _ done bufs (pending :: later) 0 [] w Hs).
  cbn [fetchSegments]. unfold bind at 1, aborted. cbn [clock]. rewrite Ha.
  rewrite loopEvents_app. cbn [loopEvents Nat.add].
  destruct op; unfold bind, emit, ret, fetch; cbn [clock events];
    rewrite Ha, Hn; rewrite <- ?app_assoc; reflexivity.
Qed.

(** C3, where the code departs from it.  Take a run that has come to its
    playlist and in which the segments [done] have completed; the signal is
    aborted while the fetch of the next segment is in flight, as when the
    cancel button is pressed during a download.  That fetch rejects, and the
    run ends with the [AbortError] of [fetch], not with the error
    [Download aborted] that the test of the loop throws and that the callers
    look for.  The rest of the design document's sentence does hold: the
    segments after the pending one are not fetched, and no blob is handed
    over. *)
Theorem cancellation_in_flight_raises_abort_error
        (u filename : string) (op : bool) (signal : Signal)
        (currentUrl playlist : string) (w1 : World)
        (done : list string) (pending : string) (later : list string)
        (bufs : list (list Byte.byte)) :
  resolvePlaylist resolveUrl network u signal start = (Returned (currentUrl, playlist), w1) ->
  segmentUrlsOf resolveUrl playlist currentUrl = done ++ pending :: later ->
  served network signal (clock w1) done bufs ->
  abortedAt signal (clock w1 + List.length done) = false ->
  network (clock w1 + List.length done) pending = Cancelled ->
  let result := run u filename op signal start in
  fst result = Threw AbortError /\
  fst result <> Threw (Error "Download aborted") /\
  fetches (events (snd result)) = fetches (events w1) ++ done ++ [pending] /\
  saves (events (snd result)) = [].
Proof.
  intros Hp Hsegs Hs Ha Hn result.
  assert (Hres : result =
            (Threw AbortError,
             {| clock := S (clock w1 + List.length done);
                events :=
                  ((events w1 ++
                    map EvInvalidSegment
                        (unresolvedLines resolveUrl (Js.splitLines playlist) currentUrl))
                   ++ loopEvents op 0 (List.length (done ++ pending :: later))
                                 (done ++ [pending]))
                  ++ [EvDownloadError AbortError] |})).
  { subst result.
    rewrite (resolved_front resolveUrl network u filename op signal currentUrl playlist
               w1 Hp), Hsegs.
    unfold tryCatch.
    match goal with
    | |- context [downloadSegments _ _ _ _ _ ?w] =>
        rewrite (downloadSegments_cancelled filename op signal done pending later bufs
                   w Hs Ha Hn)
    end.
    reflexivity. }
  rewrite Hres. cbn [fst snd events]. split; [reflexivity|]. split; [discriminate|].
  destruct (resolvePlaylist_log _ _ _ _ _ _ _ Hp) as [Hsv _]. cbn [start events] in Hsv.
  rewrite !fetches_app, !saves_app, fetches_invalid, saves_invalid,
    fetches_loop, saves_loop, Hsv.
  cbn. rewrite !app_nil_r. split; reflexivity.
Qed.

End ProgressAndCancellation.

(** The cancel button pressed while the third of five segments is in
    flight. *)
Lemma cancellation_in_flight_raises_abort_error_witness :
  let result := Cases.cancelDuring 3 Fixture.fiveUrl true in
  fst result = HlsDownloader.Threw AbortError /\
  fst result <> HlsDownloader.Threw (Error "Download aborted") /\
  Spec.fetches (HlsDownloader.events (snd result)) =
    Spec.fetches [HlsDownloader.EvFetch Fixture.fiveUrl]
    ++ ["https://cdn.example.com/v/s0.ts"; "https://cdn.example.com/v/s1.ts"]
    ++ ["https://cdn.example.com/v/s2.ts"] /\
  Spec.saves (HlsDownloader.events (snd result)) = [].
Proof.
  apply (cancellation_in_flight_raises_abort_error Fixture.resolveUrl
           (Cases.cancelledDuring 3) Fixture.fiveUrl "video" true (Fixture.abortsAt 4)
           Fixture.fiveUrl Fixture.fivePlaylist
           {| HlsDownloader.clock := 1;
              HlsDownloader.events := [HlsDownloader.EvFetch Fixture.fiveUrl] |}
           ["https://cdn.example.com/v/s0.ts"; "https://cdn.example.com/v/s1.ts"]
           "https://cdn.example.com/v/s2.ts"
           ["https://cdn.example.com/v/s3.ts"; "https://cdn.example.com/v/s4.ts"]
           [Fixture.bytesOf "s0.ts"; Fixture.bytesOf "s1.ts"]).
  - reflexivity.
  - reflexivity.
  - split; [eexists; split; [repeat split|]; reflexivity|].
    split; [eexists; split; [repeat split|]; reflexivity|]. exact I.
  - reflexivity.
  - reflexivity.
Defined.

(** The whole log of that run: the report and the fetch of the third
    segment are there, the error is the one of [fetch]. *)
Example cancellation_in_flight_log :
  Cases.cancelDuring 3 Fixture.fiveUrl true =
  (HlsDownloader.Threw AbortError,
   {| HlsDownloader.clock := 4;
      HlsDownloader.events :=
        [HlsDownloader.EvFetch Fixture.fiveUrl;
         HlsDownloader.EvProgress 0 5;
         HlsDownloader.EvFetch "https://cdn.example.com/v/s0.ts";
         HlsDownloader.EvProgress 1 5;
         HlsDownloader.EvFetch "https://cdn.example.com/v/s1.ts";
         HlsDownloader.EvProgress 2 5;
         HlsDownloader.EvFetch "https://cdn.example.com/v/s2.ts";
         HlsDownloader.EvDownloadError AbortError] |}).
Proof. reflexivity. Qed.

(** A run over five segments in which the signal is read aborted when two
    of them have come. *)
Lemma progress_reported_before_each_fetch_witness :
  let u := Fixture.fiveUrl in
  let signal := Fixture.abortsAt 3 in
  let w1 := {| HlsDownloader.clock := 1;
               HlsDownloader.events := [HlsDownloader.EvFetch Fixture.fiveUrl] |} in
  let segs := Spec.segmentUrlsOf Fixture.resolveUrl Fixture.fivePlaylist Fixture.fiveUrl in
  let n := List.length segs in
  let skipped :=
    map HlsDownloader.EvInvalidSegment
        (Spec.unresolvedLines Fixture.resolveUrl (Js.splitLines Fixture.fivePlaylist)
                              Fixture.fiveUrl) in
  let result := Fixture.download u true signal in
  exists k bufs,
    k <= n /\
    Spec.served Fixture.network signal (HlsDownloader.clock w1) (firstn k segs) bufs /\
    ((k = n /\
      fst result = HlsDownloader.Returned true /\
      HlsDownloader.events (snd result) =
        HlsDownloader.events w1 ++ skipped ++ Spec.loopEvents true 0 n segs
        ++ [HlsDownloader.EvProgress n n;
            HlsDownloader.EvSave (HlsDownloader.downloadName "video") (concat bufs)] /\
      Spec.reports (HlsDownloader.events (snd result)) =
        map (fun i => (i, n)) (seq 0 (S n))) \/
     (k < n /\
      HlsDownloader.abortedAt signal (HlsDownloader.clock w1 + k) = true /\
      fst result = HlsDownloader.Threw (Error "Download aborted") /\
      HlsDownloader.events (snd result) =
        HlsDownloader.events w1 ++ skipped ++ Spec.loopEvents true 0 n (firstn k segs)
        ++ [HlsDownloader.EvDownloadError (Error "Download aborted")] /\
      Spec.reports (HlsDownloader.events (snd result)) =
        map (fun i => (i, n)) (seq 0 k)) \/
     (exists failing e,
        segs !! k = Some failing /\
        HlsDownloader.abortedAt signal (HlsDownloader.clock w1 + k) = false /\
        Props.delivered (Fixture.network (HlsDownloader.clock w1 + k) failing) = None /\
        fst result = HlsDownloader.Threw e /\
        HlsDownloader.events (snd result) =
          HlsDownloader.events w1 ++ skipped
          ++ Spec.loopEvents true 0 n (firstn (S k) segs)
          ++ [HlsDownloader.EvDownloadError e] /\
        Spec.reports (HlsDownloader.events (snd result)) =
          map (fun i => (i, n)) (seq 0 (S k)))).
Proof.
  apply (progress_reported_before_each_fetch Fixture.resolveUrl Fixture.network
           Fixture.fiveUrl "video" (Fixture.abortsAt 3)
           Fixture.fiveUrl Fixture.fivePlaylist
           {| HlsDownloader.clock := 1;
              HlsDownloader.events := [HlsDownloader.EvFetch Fixture.fiveUrl] |}).
  - reflexivity.
  - vm_compute. discriminate.
Defined.

(** The reports of three runs over the five segments: all of them come; the
    signal is read aborted when two have come; the third is in flight when
    the signal is aborted. *)
Example reports_of_three_runs :
  Spec.reports (HlsDownloader.events (snd (Fixture.download Fixture.fiveUrl true None))) =
    [(0, 5); (1, 5); (2, 5); (3, 5); (4, 5); (5, 5)] /\
  Spec.reports (HlsDownloader.events
                  (snd (Fixture.download Fixture.fiveUrl true (Fixture.abortsAt 3)))) =
    [(0, 5); (1, 5)] /\
  Spec.reports (HlsDownloader.events (snd (Cases.cancelDuring 3 Fixture.fiveUrl true))) =
    [(0, 5); (1, 5); (2, 5)].
Proof. repeat split; reflexivity. Qed.
